(** * Bootstrap confidence intervals for radon-level statistics

    A shallow embedding of the three scripts

      - [bootstrap_radon_levels.py]          (module [Gm])
      - [bootstrap_radon_levels_KS.py]       (module [KS])
      - [bootstrap_radon_levels_KS_FINAL.py] (module [KSFinal])

    and of the NumPy / SciPy calls they make ([np.percentile],
    [np.random.choice], [stats.kstest]).

    Conventions of the embedding.

      - Python floats are idealised as exact rationals in canonical form
        ([Qc]); rounding, infinities and NaN are outside the model.
      - Python exceptions are values of [PyError]; a statement that raises
        leaves the interpreter state as it was when it raised.
      - The random bit generator behind [np.random] is an interface
        ([BitGenerator]); every draw threads its state explicitly.
      - The transcendental tail of the Kolmogorov distribution and the
        lattice-path count of the exact two-sample test are an interface
        ([KSDistributions]); the closed-form branches of SciPy around them
        are written out.
      - [print] and [matplotlib] calls have no effect on any modelled
        variable and are left out. *)

From Stdlib Require Import QArith Qcanon Qround ZArith Lia Lqa String.
From stdpp Require Import base numbers list sorting strings functions.

Local Open Scope Qc_scope.

(** ** Python values and exceptions *)

Inductive PyError : Type :=
  | ValueError (msg : string)
  | IndexError (msg : string)
  | ZeroDivisionError (msg : string).

Inductive Result (A : Type) : Type :=
  | Ok (a : A)
  | Raise (e : PyError).
Arguments Ok {A} a.
Arguments Raise {A} e.

#[global] Instance PyError_eq_dec : EqDecision PyError.
Proof. solve_decision. Defined.
#[global] Instance Result_eq_dec {A} `{EqDecision A} : EqDecision (Result A).
Proof. solve_decision. Defined.

Definition is_ok {A} (r : Result A) : bool :=
  match r with Ok _ => true | Raise _ => false end.

(** Integer and decimal literals of the scripts as rationals. *)
Definition of_int (z : Z) : Qc := Qc_of_Z z.
Definition of_nat (n : nat) : Qc := Qc_of_Z (Z.of_nat n).
Definition decimal (num : Z) (den : positive) : Qc := Q2Qc (num # den).

(** [floor] of a rational, as NumPy's [np.floor(..).astype(np.intp)]. *)
Definition floorZ (x : Qc) : Z := Qfloor x.
Definition ceilZ (x : Qc) : Z := Qceiling x.

(** [np.round]: round half to even. *)
Definition np_round (x : Qc) : Z :=
  let f := floorZ x in
  let r := x - of_int f in
  if decide (r < decimal 1 2) then f
  else if decide (decimal 1 2 < r) then (f + 1)%Z
  else if Z.even f then f else (f + 1)%Z.

(** [np.clip(x, lo, hi)] = [minimum(maximum(x, lo), hi)]. *)
Definition Qcmax (x y : Qc) : Qc := if decide (x ≤ y) then y else x.
Definition Qcmin (x y : Qc) : Qc := if decide (x ≤ y) then x else y.
Definition np_clip (x lo hi : Qc) : Qc := Qcmin (Qcmax x lo) hi.

(** Python indexing [l[i]] with a possibly negative index. *)
Definition py_getitem {A} (l : list A) (i : Z) : option A :=
  let n := Z.of_nat (length l) in
  if (i <? 0)%Z then
    if (0 <=? n + i)%Z then l !! Z.to_nat (n + i) else None
  else l !! Z.to_nat i.

(** ** [np.percentile] (method "linear") *)

Module Numpy.

(** [np.sort]; also stands for [ndarray.partition], which puts the
    requested order statistics where a full sort puts them. *)
Definition sort (a : list Qc) : list Qc := merge_sort Qcle a.

(** [_quantile_is_valid]. *)
Definition quantile_is_valid (q : Qc) : bool :=
  bool_decide (0 ≤ q) && bool_decide (q ≤ 1).

(** ["linear"]'s [get_virtual_index]: [(n - 1) * quantiles]. *)
Definition get_virtual_index (n : nat) (q : Qc) : Qc :=
  (of_nat n - 1) * q.

(** [_get_indexes]: floor and floor + 1, both set to [-1] (the last
    element) at or above [n - 1] and to [0] below [0]. *)
Definition get_indexes (virtual_index : Qc) (n : nat) : Z * Z :=
  let previous_index := floorZ virtual_index in
  let next_index := (previous_index + 1)%Z in
  let '(previous_index, next_index) :=
    if decide (of_nat n - 1 ≤ virtual_index) then ((-1)%Z, (-1)%Z)
    else (previous_index, next_index) in
  if decide (virtual_index < 0) then (0%Z, 0%Z)
  else (previous_index, next_index).

(** [_get_gamma] with the identity [fix_gamma] of "linear". *)
Definition get_gamma (virtual_index : Qc) (previous_index : Z) : Qc :=
  virtual_index - of_int previous_index.

(** [_lerp]: [a + (b - a) * t], recomputed as [b - (b - a) * (1 - t)]
    where [t >= 0.5]. *)
Definition lerp (a b t : Qc) : Qc :=
  let diff_b_a := b - a in
  let lerp_interpolation := a + diff_b_a * t in
  if decide (decimal 1 2 ≤ t) then b - diff_b_a * (1 - t)
  else lerp_interpolation.

(** [_quantile] on a one-dimensional array and a scalar quantile. *)
Definition quantile_unchecked (arr : list Qc) (q : Qc) : Result Qc :=
  let values_count := length arr in
  let virtual_index := get_virtual_index values_count q in
  let '(previous_index, next_index) :=
    get_indexes virtual_index values_count in
  let arr := sort arr in
  match py_getitem arr previous_index, py_getitem arr next_index with
  | Some previous, Some next =>
      Ok (lerp previous next (get_gamma virtual_index previous_index))
  | _, _ =>
      Raise (IndexError "index -1 is out of bounds for axis 0 with size 0")
  end.

(** [np.percentile(a, q)]. *)
Definition percentile (a : list Qc) (q : Qc) : Result Qc :=
  let q := q / of_int 100 in
  if quantile_is_valid q then quantile_unchecked a q
  else Raise (ValueError "Percentiles must be in the range [0, 100]").

End Numpy.

(** The percentile of the prose description: rank [p/100 * (n - 1)] in the
    sorted series, interpolated linearly between the elements at the floor
    and the ceiling of the rank. *)
Definition closest_rank_percentile (series : list Qc) (p : Qc) : option Qc :=
  let sorted := merge_sort Qcle series in
  let rank := p / of_int 100 * (of_nat (length series) - 1) in
  lo ← sorted !! Z.to_nat (floorZ rank);
  hi ← sorted !! Z.to_nat (ceilZ rank);
  Some (lo + (hi - lo) * (rank - of_int (floorZ rank))).

(** ** [np.random.choice(a, size, replace=False)] (legacy [RandomState]) *)

(** The bit generator: [random_interval g max] draws an integer in
    [0 .. max] (inclusive) and returns the advanced state. *)
Class BitGenerator (G : Type) : Type := {
  random_interval : G → nat → nat * G;
  random_interval_le : ∀ g max, ((random_interval g max).1 ≤ max)%nat
}.

Module RandomState.
Section with_bitgen.
Context {G : Type} `{BitGenerator G}.

(** One step of [_shuffle_raw]: [buf = x[j]; x[j] = x[i]; x[i] = buf].
    Indexes outside the array (never produced, see
    [random_interval_le]) leave it unchanged. *)
Definition swap {A} (x : list A) (i j : nat) : list A :=
  match x !! i, x !! j with
  | Some xi, Some xj => <[i := xj]> (<[j := xi]> x)
  | _, _ => x
  end.

(** [_shuffle_raw]: [for i in reversed(range(1, n))], entered at
    [i = n - 1]. *)
Fixpoint shuffle_raw {A} (i : nat) (x : list A) (g : G) : list A * G :=
  match i with
  | O => (x, g)
  | S i' =>
      let '(j, g) := random_interval g i in
      shuffle_raw i' (swap x i j) g
  end.

Definition shuffle {A} (x : list A) (g : G) : list A * G :=
  shuffle_raw (length x - 1) x g.

(** [permutation(n)]: [arr = np.arange(n); shuffle(arr); return arr]. *)
Definition permutation (n : nat) (g : G) : list nat * G :=
  shuffle (seq 0 n) g.

(** Fancy indexing [a[idx]]. *)
Definition take_indices {A} (a : list A) (idx : list nat) : Result (list A) :=
  match mapM (λ i, a !! i) idx with
  | Some r => Ok r
  | None => Raise (IndexError "index out of bounds")
  end.

(** [choice(a, size=size, replace=False)] with [p=None]. *)
Definition choice (a : list Qc) (size : Z) (g : G) : Result (list Qc) * G :=
  let pop_size := length a in
  if bool_decide (pop_size = 0%nat) && negb (size =? 0)%Z then
    (Raise (ValueError "'a' cannot be empty unless no samples are taken"), g)
  else if (Z.of_nat pop_size <? size)%Z then
    (Raise (ValueError
       "Cannot take a larger sample than population when 'replace=False'"), g)
  else if (size <? 0)%Z then
    (Raise (ValueError "negative dimensions are not allowed"), g)
  else
    let '(perm, g) := permutation pop_size g in
    let idx := take (Z.to_nat size) perm in
    (take_indices a idx, g).

End with_bitgen.
End RandomState.

(** ** [scipy.stats.kstest(rvs, cdf)] with an array [cdf]: [ks_2samp] *)

(** The numerical kernels of SciPy that have no closed form here. *)
Class KSDistributions : Type := {
  (** [kolmogn(n, x, cdf=False)] inside the support of [kstwo]. *)
  kolmogn_sf : Z → Qc → Qc;
  (** [_compute_prob_outside_square] / [_compute_outer_prob_inside_method]
      for [n1], [n2] and [h > 0]; [None] on a floating-point error. *)
  paths_outside_prob : nat → nat → Z → option Qc
}.

Module Scipy.
Section with_ks.
Context `{KSDistributions}.

Definition MAX_AUTO_N : Z := 10000.

(** [np.searchsorted(data, v, side='right')] on sorted [data]: the
    number of leading elements [<= v]. *)
Fixpoint searchsorted_right (data : list Qc) (v : Qc) : nat :=
  match data with
  | [] => 0
  | x :: data' =>
      if decide (x ≤ v) then S (searchsorted_right data' v) else 0
  end.

(** Value at [np.argmax] / [np.argmin] of a non-empty array: the first
    maximal (minimal) element. *)
Fixpoint np_max (x : Qc) (l : list Qc) : Qc :=
  match l with
  | [] => x
  | y :: l' => np_max (if decide (x < y) then y else x) l'
  end.
Fixpoint np_min (x : Qc) (l : list Qc) : Qc :=
  match l with
  | [] => x
  | y :: l' => np_min (if decide (y < x) then y else x) l'
  end.

(** [distributions.kstwo.sf(x, n)]: 1 at or below the support
    [[1/(2n), 1]], 0 at or above it, [kolmogn] inside; for an invalid
    shape [n < 1] SciPy answers NaN, which the model leaves to
    [kolmogn_sf]. *)
Definition kstwo_sf (x : Qc) (n : Z) : Qc :=
  if (n <? 1)%Z then kolmogn_sf n x
  else if decide (x ≤ decimal 1 2 / of_int n) then 1
  else if decide (1 ≤ x) then 0
  else kolmogn_sf n x.

(** [_attempt_exact_2kssamp] (two-sided): success flag, [d], [prob]. *)
Definition attempt_exact_2kssamp (n1 n2 g : nat) (d : Qc)
  : bool * Qc * option Qc :=
  let lcm := (n1 `div` g * n2)%nat in
  let h := np_round (d * of_nat lcm) in
  let d := of_int h * 1 / of_nat lcm in
  if (h =? 0)%Z then (true, d, Some 1)
  else
    match paths_outside_prob n1 n2 h with
    | None => (false, d, None)
    | Some prob =>
        if bool_decide (0 ≤ prob) && bool_decide (prob ≤ 1)
        then (true, d, Some prob) else (false, d, Some prob)
    end.

(** [ks_2samp(data1, data2)] with [alternative='two-sided'] and
    [method='auto']; returns [(statistic, pvalue)]. *)
Definition ks_2samp (data1 data2 : list Qc) : Result (Qc * Qc) :=
  let data1 := Numpy.sort data1 in
  let data2 := Numpy.sort data2 in
  let n1 := length data1 in
  let n2 := length data2 in
  if bool_decide (n1 `min` n2 = 0)%nat then
    Raise (ValueError "Data passed to ks_2samp must not be empty")
  else
    let data_all := data1 ++ data2 in
    let cdf1 := (λ v, of_nat (searchsorted_right data1 v) / of_nat n1) <$> data_all in
    let cdf2 := (λ v, of_nat (searchsorted_right data2 v) / of_nat n2) <$> data_all in
    let cddiffs := zip_with Qcminus cdf1 cdf2 in
    match cddiffs with
    | [] => Raise (ValueError "attempt to get argmin of an empty sequence")
    | c :: cs =>
        let minS := np_clip (- np_min c cs) 0 1 in
        let maxS := np_max c cs in
        let d := if decide (maxS < minS) then minS else maxS in
        let g := Nat.gcd n1 n2 in
        let exact := (Z.of_nat (n1 `max` n2) <=? MAX_AUTO_N)%Z in
        let '(success, d, prob) :=
          if exact then attempt_exact_2kssamp n1 n2 g d
          else (false, d, None) in
        let prob :=
          match success, prob with
          | true, Some prob => prob
          | _, _ =>
              (* mode = 'asymp' *)
              let m := of_nat (n1 `max` n2) in
              let n := of_nat (n1 `min` n2) in
              let en := m * n / (m + n) in
              kstwo_sf d (np_round en)
          end in
        Ok (d, np_clip prob 0 1)
    end.

(** [stats.kstest(rvs, cdf)] where [cdf] is an array. *)
Definition kstest (rvs cdf : list Qc) : Result (Qc * Qc) :=
  ks_2samp rvs cdf.

End with_ks.
End Scipy.

(** ** The interpreter state and the statement monad *)

(** Python's [pow(x, 0.5)] on floats. *)
Class PyMath : Type := { pow_half : Qc → Qc }.

(** The module namespace of a script: its list-of-float variables, its
    list-of-list variables and its scalar variables, by name. *)
Record Namespace (Var ArrVar NumVar : Type) : Type := {
  lists : Var → list Qc;
  arrs : ArrVar → list (list Qc);
  nums : NumVar → Qc
}.
Arguments lists {Var ArrVar NumVar} _ _.
Arguments arrs {Var ArrVar NumVar} _ _.
Arguments nums {Var ArrVar NumVar} _ _.

(** The state of a run: the bit generator of [np.random], the subsamples
    it has handed out so far (a trace, oldest first) and the namespace. *)
Record Interp (G NS : Type) : Type := {
  bitgen : G;
  draws : list (list Qc);
  globals : NS
}.
Arguments bitgen {G NS} _.
Arguments draws {G NS} _.
Arguments globals {G NS} _.

(** A statement: from a state to a value or a raised exception, and the
    state at that point. *)
Definition Py (St A : Type) : Type := St → Result A * St.

#[global] Instance Py_ret {St} : MRet (Py St) := λ A a st, (Ok a, st).
#[global] Instance Py_bind {St} : MBind (Py St) := λ A B f m st,
  match m st with
  | (Ok a, st') => f a st'
  | (Raise e, st') => (Raise e, st')
  end.

(** A pure call that may raise. *)
Definition call {St A} (r : Result A) : Py St A := λ st, (r, st).

(** [for x in l: body(x)]. *)
Fixpoint for_each {St A} (l : list A) (body : A → Py St ()) : Py St () :=
  match l with
  | [] => mret ()
  | x :: l' => body x ≫= λ _, for_each l' body
  end.

(** [for i in range(0, n): body(i)]. *)
Definition for_range {St} (n : nat) (body : nat → Py St ()) : Py St () :=
  for_each (seq 0 n) body.

(** Float division [x / y]. *)
Definition truediv (x y : Qc) : Result Qc :=
  if decide (y = 0) then Raise (ZeroDivisionError "float division by zero")
  else Ok (x / y).

Section statements.
Context {G : Type} `{BitGenerator G}.
Context {Var ArrVar NumVar : Type}.
Context `{EqDecision Var, EqDecision ArrVar, EqDecision NumVar}.

Local Abbreviation NS := (Namespace Var ArrVar NumVar).
Local Abbreviation St := (Interp G NS).

(** The state after rebinding one variable of the namespace. *)
Definition set_list (v : Var) (l : list Qc) (st : St) : St :=
  {| bitgen := bitgen st; draws := draws st;
     globals := {| lists := <[v := l]> (lists (globals st));
                   arrs := arrs (globals st);
                   nums := nums (globals st) |} |}.
Definition set_arr (a : ArrVar) (l : list (list Qc)) (st : St) : St :=
  {| bitgen := bitgen st; draws := draws st;
     globals := {| lists := lists (globals st);
                   arrs := <[a := l]> (arrs (globals st));
                   nums := nums (globals st) |} |}.
Definition set_num (n : NumVar) (x : Qc) (st : St) : St :=
  {| bitgen := bitgen st; draws := draws st;
     globals := {| lists := lists (globals st);
                   arrs := arrs (globals st);
                   nums := <[n := x]> (nums (globals st)) |} |}.

(** [v = l]. *)
Definition assign (v : Var) (l : list Qc) : Py St () := λ st,
  (Ok (), set_list v l st).

(** [v.append(x)]. *)
Definition append (v : Var) (x : Qc) : Py St () := λ st,
  (Ok (), set_list v (lists (globals st) v ++ [x]) st).

(** [a.append(l)] for a list of lists. *)
Definition append_arr (a : ArrVar) (l : list Qc) : Py St () := λ st,
  (Ok (), set_arr a (arrs (globals st) a ++ [l]) st).

(** [n = x] for a scalar. *)
Definition assign_num (n : NumVar) (x : Qc) : Py St () := λ st,
  (Ok (), set_num n x st).

Definition read (v : Var) : Py St (list Qc) := λ st,
  (Ok (lists (globals st) v), st).
Definition read_num (n : NumVar) : Py St Qc := λ st,
  (Ok (nums (globals st) n), st).

(** [np.random.choice(a, size=size, replace=False)] on the global
    [RandomState]; a subsample that is handed out is added to the
    trace. *)
Definition np_random_choice (a : list Qc) (size : Z) : Py St (list Qc) :=
  λ st,
    let '(r, g) := RandomState.choice a size (bitgen st) in
    (r, {| bitgen := g;
           draws := match r with
                    | Ok sampled => draws st ++ [sampled]
                    | Raise _ => draws st
                    end;
           globals := globals st |}).

End statements.

(** ** The histogram loop that closes the two KS scripts

    [[
      plot_number = 5
      for i in range(0,len(sample_sizes)):
        plt.figure(plot_number)
        plt.hist(sample_arrs_ksd[i], bins='auto')
        plt.xlabel("... (sample size: "+ str(sample_sizes[i])+")")
        plot_number = plot_number+1
        plt.figure(plot_number)
        plt.hist(sample_arrs_ksp[i], bins='auto')
        plt.xlabel("... (sample size: "+ str(sample_sizes[i])+")")
        plot_number = plot_number+1
    ]]

    Of [matplotlib] only what the loop hands to it is kept: the figure
    number, the data and the sample size in the axis label of each
    histogram, in the order of the calls. *)

Record Histogram : Type := {
  hist_figure : Z;
  hist_data : list Qc;
  hist_sample_size : Z
}.

(** [l[i]] on a Python list, for an index [i >= 0]. *)
Definition getitem {A} (l : list A) (i : nat) : Result A :=
  match l !! i with
  | Some x => Ok x
  | None => Raise (IndexError "list index out of range")
  end.

(** The loop over [indices], entered with the given [plot_number]. *)
Fixpoint histogram_loop (sample_sizes : list Z)
    (sample_arrs_ksd sample_arrs_ksp : list (list Qc))
    (plot_number : Z) (indices : list nat) : Result (list Histogram) :=
  match indices with
  | [] => Ok []
  | i :: indices' =>
      match getitem sample_arrs_ksd i with
      | Raise e => Raise e
      | Ok ksd =>
          match getitem sample_sizes i with
          | Raise e => Raise e
          | Ok s =>
              let d_hist := {| hist_figure := plot_number; hist_data := ksd;
                               hist_sample_size := s |} in
              let plot_number := (plot_number + 1)%Z in
              match getitem sample_arrs_ksp i with
              | Raise e => Raise e
              | Ok ksp =>
                  let p_hist := {| hist_figure := plot_number; hist_data := ksp;
                                   hist_sample_size := s |} in
                  let plot_number := (plot_number + 1)%Z in
                  match histogram_loop sample_sizes sample_arrs_ksd
                          sample_arrs_ksp plot_number indices' with
                  | Raise e => Raise e
                  | Ok rest => Ok (d_hist :: p_hist :: rest)
                  end
              end
          end
      end
  end.

(** ** The test model's summary of the population

    The same three lines in all three scripts:

    [[
      tot_num = rnp.size
      percent_above_200 =  100.0*((rnp > 200.0).sum()/tot_num)
      gm_value = np.percentile(randomvals,50)
    ]]

    where [rnp = np.array(randomvals)].  NumPy divides the integer count
    by a zero [tot_num] to NaN (with a warning, not an exception), which
    is written [None]. *)

Module TestModel.

Definition percent_above_200 (rnp : list Qc) : option Qc :=
  let tot_num := length rnp in
  let above := length (filter (λ z, of_int 200 < z) rnp) in
  if decide (tot_num = 0%nat) then None
  else Some (of_int 100 * (of_nat above / of_nat tot_num)).

Definition gm_value (randomvals : list Qc) : Result Qc :=
  Numpy.percentile randomvals (of_int 50).

End TestModel.

(** ** [bootstrap_radon_levels.py] *)

Module Gm.

Inductive Var : Set :=
  | sample_gm_lower_bounds | sample_gm_upper_bounds | cur_sample_gm_means.
Inductive ArrVar : Set := .
Inductive NumVar : Set := .

#[global] Instance Var_eq_dec : EqDecision Var.
Proof. solve_decision. Defined.
#[global] Instance ArrVar_eq_dec : EqDecision ArrVar.
Proof. solve_decision. Defined.
#[global] Instance NumVar_eq_dec : EqDecision NumVar.
Proof. solve_decision. Defined.

Section script.
Context {G : Type} `{BitGenerator G}.
(** The parent population [rnp], the iteration count and the swept
    sample sizes, as the script binds them before its loop. *)
Variables (rnp : list Qc) (num_iterations : nat) (sample_sizes : list Z).

Local Abbreviation NS := (Namespace Var ArrVar NumVar).
Local Abbreviation St := (Interp G NS).

(** The module-level initialisations before the loop. *)
Definition initial_globals : NS :=
  {| lists := λ _, []; arrs := λ _, []; nums := λ _, 0 |}.

(** Body of [for i in range(0, num_iterations)]. *)
Definition iteration (s : Z) (i : nat) : Py St () :=
  sampled_values ← np_random_choice rnp s;
  sample_gm_mean ← call (Numpy.percentile sampled_values (of_int 50));
  append cur_sample_gm_means sample_gm_mean.

(** The two [append(np.percentile(...))] statements that close an
    entry. *)
Definition summarize : Py St () :=
  cur ← read cur_sample_gm_means;
  p ← call (Numpy.percentile cur (of_int 5));
  append sample_gm_lower_bounds p;;
  cur ← read cur_sample_gm_means;
  p ← call (Numpy.percentile cur (of_int 95));
  append sample_gm_upper_bounds p.

(** Body of [for s in (sample_sizes)]. *)
Definition sweep_entry (s : Z) : Py St () :=
  assign cur_sample_gm_means [];;
  for_range num_iterations (iteration s);;
  summarize.

Definition sweep : Py St () := for_each sample_sizes sweep_entry.

Definition run (g : G) : Result () * St :=
  sweep {| bitgen := g; draws := []; globals := initial_globals |}.

End script.

(** The script with the constants it ships:
    [num_iterations = 1000] and the twelve [sample_sizes]. *)
Definition main {G : Type} `{BitGenerator G}
    (rnp : list Qc) (g : G) :=
  run rnp (Z.to_nat 1000)
    [5; 10; 25; 50; 100; 250; 500; 750; 1000; 2000; 10000; 100000]%Z g.

End Gm.

(** ** [bootstrap_radon_levels_KS.py] *)

Module KS.

Inductive Var : Set :=
  | sample_ksd_lower_bounds | sample_ksd_upper_bounds | sample_ksd_medians
  | sample_ksp_lower_bounds | sample_ksp_upper_bounds | sample_ksp_medians
  | cur_sample_ksd | cur_sample_ksp.
Inductive ArrVar : Set := sample_arrs_ksd | sample_arrs_ksp.
Inductive NumVar : Set := crit_value | count_above_crit.

#[global] Instance Var_eq_dec : EqDecision Var.
Proof. solve_decision. Defined.
#[global] Instance ArrVar_eq_dec : EqDecision ArrVar.
Proof. solve_decision. Defined.
#[global] Instance NumVar_eq_dec : EqDecision NumVar.
Proof. solve_decision. Defined.

Section script.
Context {G : Type} `{BitGenerator G} `{KSDistributions} `{PyMath}.
Variables (rnp : list Qc) (num_iterations : nat) (sample_sizes : list Z).

Local Abbreviation NS := (Namespace Var ArrVar NumVar).
Local Abbreviation St := (Interp G NS).

Definition initial_globals : NS :=
  {| lists := λ _, []; arrs := λ _, []; nums := λ _, 0 |}.

(** [1.36*pow((s+1e6)/(s*1e6),0.5)]. *)
Definition critical_value (s : Z) : Result Qc :=
  match truediv (of_int s + of_int 1000000) (of_int s * of_int 1000000) with
  | Ok x => Ok (decimal 136 100 * pow_half x)
  | Raise e => Raise e
  end.

Definition iteration (s : Z) (i : nat) : Py St () :=
  sampled_values ← np_random_choice rnp s;
  cur_ks_test ← call (Scipy.kstest sampled_values rnp);
  let cur_ksd := cur_ks_test.1 in
  let cur_ksp := cur_ks_test.2 in
  crit ← read_num crit_value;
  (if decide (crit < cur_ksp) then
     count ← read_num count_above_crit;
     assign_num count_above_crit (count + 1)
   else mret ());;
  append cur_sample_ksd cur_ksd;;
  append cur_sample_ksp cur_ksp.

Definition summarize : Py St () :=
  cur ← read cur_sample_ksd;
  p ← call (Numpy.percentile cur (of_int 5));
  append sample_ksd_lower_bounds p;;
  cur ← read cur_sample_ksd;
  p ← call (Numpy.percentile cur (of_int 95));
  append sample_ksd_upper_bounds p;;
  cur ← read cur_sample_ksd;
  p ← call (Numpy.percentile cur (of_int 50));
  append sample_ksd_medians p;;
  cur ← read cur_sample_ksp;
  p ← call (Numpy.percentile cur (of_int 5));
  append sample_ksp_lower_bounds p;;
  cur ← read cur_sample_ksp;
  p ← call (Numpy.percentile cur (of_int 95));
  append sample_ksp_upper_bounds p;;
  cur ← read cur_sample_ksp;
  p ← call (Numpy.percentile cur (of_int 50));
  append sample_ksp_medians p;;
  cur ← read cur_sample_ksd;
  append_arr sample_arrs_ksd cur;;
  cur ← read cur_sample_ksp;
  append_arr sample_arrs_ksp cur.

Definition sweep_entry (s : Z) : Py St () :=
  assign cur_sample_ksd [];;
  assign cur_sample_ksp [];;
  crit ← call (critical_value s);
  assign_num crit_value crit;;
  assign_num count_above_crit 0;;
  for_range num_iterations (iteration s);;
  summarize.

Definition sweep : Py St () := for_each sample_sizes sweep_entry.

Definition run (g : G) : Result () * St :=
  sweep {| bitgen := g; draws := []; globals := initial_globals |}.

End script.

(** The script with the constants it ships:
    [num_iterations = 1000] and the twelve [sample_sizes]. *)
Definition main {G : Type} `{BitGenerator G, KSDistributions, PyMath}
    (rnp : list Qc) (g : G) :=
  run rnp (Z.to_nat 1000)
    [5; 10; 25; 50; 100; 250; 500; 750; 1000; 2000; 10000; 100000]%Z g.

(** The histogram loop after the sweep: [plot_number = 4]. *)
Definition histograms {G : Type} (sample_sizes : list Z)
    (st : Interp G (Namespace Var ArrVar NumVar)) : Result (list Histogram) :=
  histogram_loop sample_sizes
    (arrs (globals st) sample_arrs_ksd) (arrs (globals st) sample_arrs_ksp)
    4 (seq 0 (length sample_sizes)).

End KS.

(** ** [bootstrap_radon_levels_KS_FINAL.py] *)

Module KSFinal.

Inductive Var : Set :=
  | sample_ksd_lower_bounds | sample_ksd_upper_bounds | sample_ksd_medians
  | sample_ksp_lower_bounds | sample_ksp_upper_bounds | sample_ksp_medians
  | fr_above_200 | fr_above_200_lower_bounds | fr_above_200_upper_bounds
  | cur_sample_ksd | cur_sample_ksp | cur_fr_above_200.
Inductive ArrVar : Set := sample_arrs_ksd | sample_arrs_ksp.
Inductive NumVar : Set := crit_value | count_above_crit.

#[global] Instance Var_eq_dec : EqDecision Var.
Proof. solve_decision. Defined.
#[global] Instance ArrVar_eq_dec : EqDecision ArrVar.
Proof. solve_decision. Defined.
#[global] Instance NumVar_eq_dec : EqDecision NumVar.
Proof. solve_decision. Defined.

(** The inner [for z in sampled_values] loop: [(count_fr, count_tot)]. *)
Definition count_loop (sampled_values : list Qc) : Z * Z :=
  foldl (λ '(count_fr, count_tot) z,
           let count_tot := (count_tot + 1)%Z in
           if decide (of_int 200 < z) then ((count_fr + 1)%Z, count_tot)
           else (count_fr, count_tot))
        (0%Z, 0%Z) sampled_values.

(** [100.0*count_fr/count_tot]. *)
Definition percent_above_200 (sampled_values : list Qc) : Result Qc :=
  let '(count_fr, count_tot) := count_loop sampled_values in
  truediv (of_int 100 * of_int count_fr) (of_int count_tot).

Section script.
Context {G : Type} `{BitGenerator G} `{KSDistributions} `{PyMath}.
Variables (rnp : list Qc) (num_iterations : nat) (sample_sizes : list Z).

Local Abbreviation NS := (Namespace Var ArrVar NumVar).
Local Abbreviation St := (Interp G NS).

Definition initial_globals : NS :=
  {| lists := λ _, []; arrs := λ _, []; nums := λ _, 0 |}.

(** [1.36*pow((s+1e6)/(s*1e6),0.5)]. *)
Definition critical_value (s : Z) : Result Qc :=
  match truediv (of_int s + of_int 1000000) (of_int s * of_int 1000000) with
  | Ok x => Ok (decimal 136 100 * pow_half x)
  | Raise e => Raise e
  end.

Definition iteration (s : Z) (i : nat) : Py St () :=
  sampled_values ← np_random_choice rnp s;
  fr ← call (percent_above_200 sampled_values);
  append cur_fr_above_200 fr;;
  cur_ks_test ← call (Scipy.kstest sampled_values rnp);
  let cur_ksd := cur_ks_test.1 in
  let cur_ksp := cur_ks_test.2 in
  append cur_sample_ksd cur_ksd;;
  append cur_sample_ksp cur_ksp.

Definition summarize : Py St () :=
  cur ← read cur_sample_ksd;
  p ← call (Numpy.percentile cur (of_int 5));
  append sample_ksd_lower_bounds p;;
  cur ← read cur_sample_ksd;
  p ← call (Numpy.percentile cur (of_int 95));
  append sample_ksd_upper_bounds p;;
  cur ← read cur_sample_ksd;
  p ← call (Numpy.percentile cur (of_int 50));
  append sample_ksd_medians p;;
  cur ← read cur_sample_ksp;
  p ← call (Numpy.percentile cur (of_int 5));
  append sample_ksp_lower_bounds p;;
  cur ← read cur_sample_ksp;
  p ← call (Numpy.percentile cur (of_int 95));
  append sample_ksp_upper_bounds p;;
  cur ← read cur_sample_ksp;
  p ← call (Numpy.percentile cur (of_int 50));
  append sample_ksp_medians p;;
  cur ← read cur_sample_ksd;
  append_arr sample_arrs_ksd cur;;
  cur ← read cur_sample_ksp;
  append_arr sample_arrs_ksp cur;;
  cur ← read cur_fr_above_200;
  p ← call (Numpy.percentile cur (of_int 50));
  append fr_above_200 p;;
  cur ← read cur_fr_above_200;
  p ← call (Numpy.percentile cur (of_int 5));
  append fr_above_200_lower_bounds p;;
  cur ← read cur_fr_above_200;
  p ← call (Numpy.percentile cur (of_int 95));
  append fr_above_200_upper_bounds p.

Definition sweep_entry (s : Z) : Py St () :=
  assign cur_sample_ksd [];;
  assign cur_sample_ksp [];;
  assign cur_fr_above_200 [];;
  crit ← call (critical_value s);
  assign_num crit_value crit;;
  assign_num count_above_crit 0;;
  for_range num_iterations (iteration s);;
  summarize.

Definition sweep : Py St () := for_each sample_sizes sweep_entry.

Definition run (g : G) : Result () * St :=
  sweep {| bitgen := g; draws := []; globals := initial_globals |}.

End script.

(** The script with the constants it ships:
    [num_iterations = 10000] and the twelve [sample_sizes]. *)
Definition main {G : Type} `{BitGenerator G, KSDistributions, PyMath}
    (rnp : list Qc) (g : G) :=
  run rnp (Z.to_nat 10000)
    [5; 10; 25; 50; 100; 250; 500; 750; 1000; 2000; 10000; 100000]%Z g.

(** The histogram loop after the sweep: [plot_number = 5]. *)
Definition histograms {G : Type} (sample_sizes : list Z)
    (st : Interp G (Namespace Var ArrVar NumVar)) : Result (list Histogram) :=
  histogram_loop sample_sizes
    (arrs (globals st) sample_arrs_ksd) (arrs (globals st) sample_arrs_ksp)
    5 (seq 0 (length sample_sizes)).

End KSFinal.

(** ** Order statistics

    The [k]-th smallest element of a sorted series (the last one from
    [k = n - 1] on) and the piecewise-linear curve through the order
    statistics, in which both percentile definitions are expressed. *)

Definition order_stat (sorted : list Qc) (k : nat) : Qc :=
  default 0 (sorted !! (k `min` (length sorted - 1))%nat).

Definition interpolate (sorted : list Qc) (v : Qc) : Qc :=
  let k := Z.to_nat (floorZ v) in
  order_stat sorted k
  + (order_stat sorted (S k) - order_stat sorted k) * (v - of_int (floorZ v)).

(** The transposition of [i] and [j]: the index map of one swap. *)
Definition transpose (i j k : nat) : nat :=
  if decide (k = i) then j else if decide (k = j) then i else k.

(** ** Vocabulary of the statements below *)

(** From [st] to [st'] the list [v] grew by exactly one element, the
    [p]-th percentile of [series]. *)
Definition appends_percentile {G V A N : Type}
    (st st' : Interp G (Namespace V A N)) (v : V) (series : list Qc) (p : Z) : Prop :=
  ∃ x, Numpy.percentile series (of_int p) = Ok x
       ∧ lists (globals st') v = lists (globals st) v ++ [x].

(** [x] lies in the closed interval from [lo] to [hi]. *)
Definition between (lo hi x : Qc) : Prop := lo ≤ x ∧ x ≤ hi.

(** A sample size the population can serve: [1 .. len(rnp)]. *)
Definition valid_size (rnp : list Qc) (s : Z) : bool :=
  (0 <? s)%Z && (s <=? Z.of_nat (length rnp))%Z.

(** The sample sizes a sweep gets through: those before the first one
    the population cannot serve. *)
Fixpoint served (rnp : list Qc) (sizes : list Z) : list Z :=
  match sizes with
  | [] => []
  | s :: sizes' => if valid_size rnp s then s :: served rnp sizes' else []
  end.

(** The subsamples of [n] successive draws of size [s] from the generator
    state [g], oldest first, and the generator state after them. *)
Fixpoint resample {G : Type} `{BitGenerator G}
    (rnp : list Qc) (s : Z) (n : nat) (g : G) : list (list Qc) * G :=
  match n with
  | O => ([], g)
  | S n' =>
      let '(trials, g) := resample rnp s n' g in
      match RandomState.choice rnp s g with
      | (Ok sampled, g) => (trials ++ [sampled], g)
      | (Raise _, g) => (trials, g)
      end
  end.

(** The raw series of the subsamples [trials]: the KS D-statistics, the
    KS p-values and, in [bootstrap_radon_levels_KS_FINAL.py], the
    exceedance percentages, one per subsample and in its order. *)
Definition KS_statistics `{KSDistributions}
    (rnp : list Qc) (trials : list (list Qc)) (ksd ksp : list Qc) : Prop :=
  Forall2 (λ t d, ∃ p, Scipy.kstest t rnp = Ok (d, p)) trials ksd
  ∧ Forall2 (λ t p, ∃ d, Scipy.kstest t rnp = Ok (d, p)) trials ksp.

Definition KSFinal_statistics `{KSDistributions}
    (rnp : list Qc) (trials : list (list Qc)) (ksd ksp fr : list Qc) : Prop :=
  Forall2 (λ t d, ∃ p, Scipy.kstest t rnp = Ok (d, p)) trials ksd
  ∧ Forall2 (λ t p, ∃ d, Scipy.kstest t rnp = Ok (d, p)) trials ksp
  ∧ Forall2 (λ t f, KSFinal.percent_above_200 t = Ok f) trials fr.

(** The result lists of the KS scripts (all but the raw series of the
    entry under way) and the interval their values belong to. *)
Definition KS_is_bound (v : KS.Var) : bool :=
  match v with
  | KS.cur_sample_ksd | KS.cur_sample_ksp => false
  | _ => true
  end.

Definition KSFinal_is_bound (v : KSFinal.Var) : bool :=
  match v with
  | KSFinal.cur_sample_ksd | KSFinal.cur_sample_ksp
  | KSFinal.cur_fr_above_200 => false
  | _ => true
  end.

Definition KSFinal_range (v : KSFinal.Var) : Qc → Prop :=
  match v with
  | KSFinal.fr_above_200 | KSFinal.fr_above_200_lower_bounds
  | KSFinal.fr_above_200_upper_bounds => between 0 (of_int 100)
  | _ => between 0 1
  end.

(** From [st] to [st'] the sample [sizes] were swept: the trace of draws
    grew by [num_iterations] subsamples of the population per size, each
    result list by one value per size, and each table of raw series by
    one row of [num_iterations] values per size; nothing recorded before
    was touched. *)
Definition Gm_progress {G : Type} (rnp : list Qc) (lo hi : Qc)
    (num_iterations : nat) (sizes : list Z)
    (st st' : Interp G (Namespace Gm.Var Gm.ArrVar Gm.NumVar)) : Prop :=
  (∃ trials,
     draws st' = draws st ++ trials
     ∧ length <$> trials = sizes ≫= (λ s, replicate num_iterations (Z.to_nat s))
     ∧ Forall (λ t, t ⊆+ rnp) trials)
  ∧ (∀ v, v ≠ Gm.cur_sample_gm_means →
          ∃ new, lists (globals st') v = lists (globals st) v ++ new
                 ∧ length new = length sizes
                 ∧ Forall (between lo hi) new).

Definition KS_progress {G : Type} (rnp : list Qc) (num_iterations : nat)
    (sizes : list Z)
    (st st' : Interp G (Namespace KS.Var KS.ArrVar KS.NumVar)) : Prop :=
  (∃ trials,
     draws st' = draws st ++ trials
     ∧ length <$> trials = sizes ≫= (λ s, replicate num_iterations (Z.to_nat s))
     ∧ Forall (λ t, t ⊆+ rnp) trials)
  ∧ (∀ v, KS_is_bound v = true →
          ∃ new, lists (globals st') v = lists (globals st) v ++ new
                 ∧ length new = length sizes
                 ∧ Forall (between 0 1) new)
  ∧ (∀ a, ∃ rows, arrs (globals st') a = arrs (globals st) a ++ rows
                  ∧ length rows = length sizes
                  ∧ Forall (λ row, length row = num_iterations
                                   ∧ Forall (between 0 1) row) rows).

Definition KSFinal_progress {G : Type} (rnp : list Qc) (num_iterations : nat)
    (sizes : list Z)
    (st st' : Interp G (Namespace KSFinal.Var KSFinal.ArrVar KSFinal.NumVar)) : Prop :=
  (∃ trials,
     draws st' = draws st ++ trials
     ∧ length <$> trials = sizes ≫= (λ s, replicate num_iterations (Z.to_nat s))
     ∧ Forall (λ t, t ⊆+ rnp) trials)
  ∧ (∀ v, KSFinal_is_bound v = true →
          ∃ new, lists (globals st') v = lists (globals st) v ++ new
                 ∧ length new = length sizes
                 ∧ Forall (KSFinal_range v) new)
  ∧ (∀ a, ∃ rows, arrs (globals st') a = arrs (globals st) a ++ rows
                  ∧ length rows = length sizes
                  ∧ Forall (λ row, length row = num_iterations
                                   ∧ Forall (between 0 1) row) rows).

(** The table of raw series and the percentile a bound list of
    [bootstrap_radon_levels_KS_FINAL.py] is computed from; the exceedance
    series is kept in no table. *)
Definition KSFinal_summary_of (v : KSFinal.Var) : option (KSFinal.ArrVar * Z) :=
  match v with
  | KSFinal.sample_ksd_lower_bounds => Some (KSFinal.sample_arrs_ksd, 5%Z)
  | KSFinal.sample_ksd_upper_bounds => Some (KSFinal.sample_arrs_ksd, 95%Z)
  | KSFinal.sample_ksd_medians => Some (KSFinal.sample_arrs_ksd, 50%Z)
  | KSFinal.sample_ksp_lower_bounds => Some (KSFinal.sample_arrs_ksp, 5%Z)
  | KSFinal.sample_ksp_upper_bounds => Some (KSFinal.sample_arrs_ksp, 95%Z)
  | KSFinal.sample_ksp_medians => Some (KSFinal.sample_arrs_ksp, 50%Z)
  | _ => None
  end.

(** From [st] to [st'] every table and every bound list computed from it
    grew by rows and values that correspond, row by row. *)
Definition KSFinal_aligned {G : Type}
    (st st' : Interp G (Namespace KSFinal.Var KSFinal.ArrVar KSFinal.NumVar)) : Prop :=
  ∀ v a p, KSFinal_summary_of v = Some (a, p) →
    ∃ rows new,
      arrs (globals st') a = arrs (globals st) a ++ rows
      ∧ lists (globals st') v = lists (globals st) v ++ new
      ∧ Forall2 (λ row x, Numpy.percentile row (of_int p) = Ok x) rows new.


(** ** Stand-ins for running the scripts on concrete inputs *)

Module Demo.

(** A linear congruential generator reduced to the requested range. *)
Definition lcg_interval (g : Z) (max : nat) : nat * Z :=
  (Z.to_nat (g `mod` (Z.of_nat max + 1)),
   ((g * 1103515245 + 12345) `mod` 2147483648)%Z).

Lemma lcg_interval_le g max : ((lcg_interval g max).1 ≤ max)%nat.
Proof.
  unfold lcg_interval; simpl.
  pose proof (Z.mod_pos_bound g (Z.of_nat max + 1)). lia.
Qed.

Definition lcg : BitGenerator Z :=
  {| random_interval := lcg_interval; random_interval_le := lcg_interval_le |}.

(** A decreasing tail and no exact path count. *)
Definition ks : KSDistributions :=
  {| kolmogn_sf := λ _ x, 1 - x; paths_outside_prob := λ _ _ _, None |}.

(** Square root truncated to nine decimals. *)
Definition sqrt9 (x : Qc) : Qc :=
  of_int (Z.sqrt (floorZ (x * of_int (10 ^ 18)))) / of_int (10 ^ 9).
Definition math : PyMath := {| pow_half := sqrt9 |}.

End Demo.

(** Concrete populations, series and states for the examples. *)
Definition demo_rnp : list Qc := [of_int 50; of_int 250; of_int 300].
Definition demo_series : list Qc :=
  [of_int 0; of_int 1; of_int 2; of_int 3; of_int 4].
Definition demo_gm_state (series : list Qc)
  : Interp Z (Namespace Gm.Var Gm.ArrVar Gm.NumVar) :=
  {| bitgen := 2024%Z; draws := [];
     globals := {| lists := λ v, match v with
                                 | Gm.cur_sample_gm_means => series
                                 | _ => []
                                 end;
                   arrs := λ _, []; nums := λ _, 0 |} |}.
Definition demo_ksfinal_state (ksd ksp fr : list Qc)
  : Interp Z (Namespace KSFinal.Var KSFinal.ArrVar KSFinal.NumVar) :=
  {| bitgen := 2024%Z; draws := [];
     globals := {| lists := λ v, match v with
                                 | KSFinal.cur_sample_ksd => ksd
                                 | KSFinal.cur_sample_ksp => ksp
                                 | KSFinal.cur_fr_above_200 => fr
                                 | _ => []
                                 end;
                   arrs := λ _, []; nums := λ _, 0 |} |}.
Definition demo_ks_state : Interp Z (Namespace KS.Var KS.ArrVar KS.NumVar) :=
  {| bitgen := 2024%Z; draws := []; globals := KS.initial_globals |}.

(** The states the sweeps reach on [demo_rnp] after the one sample size
    [3] (the whole population), with one iteration. *)
Definition demo_ksfinal_init
  : Interp Z (Namespace KSFinal.Var KSFinal.ArrVar KSFinal.NumVar) :=
  {| bitgen := 2024%Z; draws := []; globals := KSFinal.initial_globals |}.
Definition demo_gm_init : Interp Z (Namespace Gm.Var Gm.ArrVar Gm.NumVar) :=
  {| bitgen := 2024%Z; draws := []; globals := Gm.initial_globals |}.
Definition demo_ksfinal_done :=
  (@KSFinal.sweep Z Demo.lcg Demo.ks Demo.math demo_rnp 1 [3%Z]
     demo_ksfinal_init).2.
Definition demo_gm_done :=
  (@Gm.sweep Z Demo.lcg demo_rnp 1 [3%Z] demo_gm_init).2.


(** * Properties *)

(** ** Arithmetic on [Qc] through [Q] *)

Lemma this_plus (x y : Qc) : (this (x + y) == this x + this y)%Q.
Proof. simpl. apply Qred_correct. Qed.
Lemma this_mult (x y : Qc) : (this (x * y) == this x * this y)%Q.
Proof. simpl. apply Qred_correct. Qed.
Lemma this_opp (x : Qc) : (this (- x) == - this x)%Q.
Proof. simpl. apply Qred_correct. Qed.
Lemma this_minus (x y : Qc) : (this (x - y) == this x - this y)%Q.
Proof. unfold Qcminus. rewrite this_plus, this_opp. reflexivity. Qed.
Lemma this_of_int (z : Z) : this (of_int z) = inject_Z z.
Proof. reflexivity. Qed.

Ltac qc_push :=
  repeat first
    [ rewrite this_minus | rewrite this_plus | rewrite this_mult
    | rewrite this_opp | rewrite this_of_int ].
Ltac qc_push_in H :=
  repeat first
    [ rewrite this_minus in H | rewrite this_plus in H
    | rewrite this_mult in H | rewrite this_opp in H
    | rewrite this_of_int in H ].

(** Moves a goal over [Qc] (order or equality) and the order hypotheses
    of the context to [Q], where [lra] and [nra] apply. *)
Ltac qc_to_q :=
  repeat match goal with
  | H : Qcle _ _ |- _ => unfold Qcle in H; qc_push_in H; revert H
  | H : Qclt _ _ |- _ => unfold Qclt in H; qc_push_in H; revert H
  | H : ¬ Qcle _ _ |- _ => apply Qcnot_le_lt in H
  | H : ¬ Qclt _ _ |- _ => apply Qcnot_lt_le in H
  | H : @eq Qc ?x ?y |- _ =>
      let H' := fresh in
      assert (this x == this y)%Q as H' by (rewrite H; reflexivity);
      qc_push_in H'; revert H'; revert H
  end;
  try apply Qc_is_canon; unfold Qcle, Qclt; qc_push;
  change (this 0) with 0%Q; change (this 1) with 1%Q; intros.

Lemma floorZ_le (x : Qc) : of_int (floorZ x) ≤ x.
Proof. unfold Qcle; rewrite this_of_int. apply Qfloor_le. Qed.

Lemma floorZ_lt (x : Qc) : x < of_int (floorZ x + 1).
Proof. unfold Qclt; rewrite this_of_int. apply Qlt_floor. Qed.

Lemma of_int_le (a b : Z) : (a ≤ b)%Z ↔ of_int a ≤ of_int b.
Proof. apply Z2Qc_inj_le. Qed.
Lemma of_int_lt (a b : Z) : (a < b)%Z ↔ of_int a < of_int b.
Proof. apply Z2Qc_inj_lt. Qed.
Lemma of_int_add (a b : Z) : of_int (a + b) = of_int a + of_int b.
Proof. apply Z2Qc_inj_add. Qed.
Lemma of_int_1 : of_int 1 = 1.
Proof. apply Z2Qc_inj_1. Qed.
Lemma of_int_0 : of_int 0 = 0.
Proof. apply Z2Qc_inj_0. Qed.

(** [floorZ x] is the one integer [k] with [k <= x < k + 1]. *)
Lemma floorZ_unique (x : Qc) (k : Z) :
  of_int k ≤ x → x < of_int (k + 1) → floorZ x = k.
Proof.
  intros Hle Hlt.
  pose proof (floorZ_le x) as H1. pose proof (floorZ_lt x) as H2.
  assert (of_int k < of_int (floorZ x + 1)) as H3
    by (eapply Qcle_lt_trans; eauto).
  assert (of_int (floorZ x) < of_int (k + 1)) as H4
    by (eapply Qcle_lt_trans; eauto).
  apply of_int_lt in H3. apply of_int_lt in H4. lia.
Qed.

(** ** Sorting and percentiles *)

Example percentile_50_of_4 :
  bool_decide (Numpy.percentile [of_int 4; of_int 1; of_int 3; of_int 2] (of_int 50)
               = Ok (decimal 5 2)) = true.
Proof. vm_compute. reflexivity. Qed.

Lemma sort_length (a : list Qc) : length (Numpy.sort a) = length a.
Proof. unfold Numpy.sort. by rewrite merge_sort_Permutation. Qed.

Lemma sort_Sorted (a : list Qc) : StronglySorted Qcle (Numpy.sort a).
Proof. apply StronglySorted_merge_sort; apply _. Qed.

Lemma sort_Permutation (a b : list Qc) : a ≡ₚ b → Numpy.sort a = Numpy.sort b.
Proof.
  intros Hab. apply (StronglySorted_unique Qcle); try apply sort_Sorted.
  unfold Numpy.sort. by rewrite !merge_sort_Permutation.
Qed.

Lemma lerp_eq (a b t : Qc) : Numpy.lerp a b t = a + (b - a) * t.
Proof. unfold Numpy.lerp. case_decide; ring. Qed.

Lemma of_nat_nonneg n : 0 ≤ of_nat n.
Proof. unfold of_nat. rewrite <- Z2Qc_inj_0. apply (proj1 (Z2Qc_inj_le _ _)). lia. Qed.

Lemma of_nat_S n : of_nat (S n) = of_nat n + 1.
Proof. unfold of_nat. rewrite Nat2Z.inj_succ, <- Z.add_1_r, Z2Qc_inj_add, Z2Qc_inj_1. done. Qed.

Lemma order_stat_lookup sorted k :
  (k < length sorted)%nat → sorted !! k = Some (order_stat sorted k).
Proof.
  intros Hk. unfold order_stat. rewrite Nat.min_l by lia.
  destruct (lookup_lt_is_Some_2 sorted k Hk) as [x ->]. done.
Qed.

Lemma quantile_unchecked_interpolate (arr : list Qc) (q : Qc) :
  arr ≠ [] → 0 ≤ q →
  Numpy.quantile_unchecked arr q
  = Ok (interpolate (Numpy.sort arr)
          (Numpy.get_virtual_index (length arr) q)).
Proof.
  intros Hne Hq. unfold Numpy.quantile_unchecked, Numpy.get_indexes.
  set (n := length arr). set (v := Numpy.get_virtual_index n q).
  assert (0 < n)%nat as Hn by (subst n; destruct arr; simpl; [done|lia]).
  assert (0 ≤ v) as Hv.
  { subst v. unfold Numpy.get_virtual_index.
    apply Qcmult_nonneg_nonneg; [|done].
    destruct n as [|n']; [lia|]. rewrite of_nat_S.
    pose proof (of_nat_nonneg n'). qc_to_q. lra. }
  assert (length (Numpy.sort arr) = n) as Hlen by apply sort_length.
  pose proof (floorZ_le v) as Hfl. pose proof (floorZ_lt v) as Hfu.
  assert (0 ≤ floorZ v)%Z as Hf0.
  { assert (of_int 0 < of_int (floorZ v + 1)) as Hlt.
    { rewrite of_int_0. eapply Qcle_lt_trans; eauto. }
    apply (proj2 (of_int_lt _ _)) in Hlt. lia. }
  unfold interpolate.
  destruct (decide (of_nat n - 1 ≤ v)) as [Habove|Hbelow].
  - rewrite decide_False by (by apply Qcle_not_lt).
    assert (Z.of_nat n - 1 ≤ floorZ v)%Z as Hk.
    { assert (of_int (Z.of_nat n - 1) < of_int (floorZ v + 1)) as Hlt.
      { eapply Qcle_lt_trans; [|exact Hfu].
        unfold of_int. rewrite Z2Qc_inj_sub, Z2Qc_inj_1. exact Habove. }
      apply (proj2 (of_int_lt _ _)) in Hlt. lia. }
    unfold py_getitem. rewrite Hlen. simpl.
    replace (0 <=? Z.of_nat n + -1)%Z with true by (symmetry; apply Z.leb_le; lia).
    replace (Z.to_nat (Z.of_nat n + -1)) with (n - 1)%nat by lia.
    rewrite (order_stat_lookup _ (n - 1)) by lia.
    rewrite lerp_eq. f_equal.
    unfold order_stat. rewrite Hlen.
    rewrite !Nat.min_r by lia. ring.
  - apply Qcnot_le_lt in Hbelow.
    rewrite decide_False by (by apply Qcle_not_lt).
    assert (floorZ v + 1 ≤ Z.of_nat n - 1)%Z as Hk.
    { assert (of_int (floorZ v) < of_int (Z.of_nat n - 1)) as Hlt.
      { eapply Qcle_lt_trans; [exact Hfl|].
        unfold of_int. rewrite Z2Qc_inj_sub, Z2Qc_inj_1. exact Hbelow. }
      apply (proj2 (of_int_lt _ _)) in Hlt. lia. }
    unfold py_getitem.
    replace (floorZ v <? 0)%Z with false by (symmetry; apply Z.ltb_ge; lia).
    replace (floorZ v + 1 <? 0)%Z with false by (symmetry; apply Z.ltb_ge; lia).
    rewrite (order_stat_lookup _ (Z.to_nat (floorZ v))) by lia.
    replace (Z.to_nat (floorZ v + 1)) with (S (Z.to_nat (floorZ v))) by lia.
    rewrite (order_stat_lookup _ (S (Z.to_nat (floorZ v)))) by lia.
    rewrite lerp_eq. done.
Qed.

Lemma percentile_valid (p : Qc) :
  0 ≤ p → p ≤ of_int 100 → Numpy.quantile_is_valid (p / of_int 100) = true.
Proof.
  intros H0 H100. unfold Numpy.quantile_is_valid.
  assert (0 < of_int 100) as Hpos by (rewrite <- of_int_0; apply (proj1 (of_int_lt _ _)); lia).
  assert (p / of_int 100 * of_int 100 = p) as Hmul.
  { unfold Qcdiv. rewrite <- Qcmult_assoc, (Qcmult_comm (/ _)), Qcmult_inv_r, Qcmult_1_r; [done|].
    intros Heq. rewrite Heq in Hpos. by apply (irreflexivity Qclt) in Hpos. }
  apply andb_true_iff; split; apply bool_decide_eq_true.
  - apply (Qcmult_le_mono_pos_r _ _ (of_int 100)); [done|].
    by rewrite Qcmult_0_l, Hmul.
  - apply (Qcmult_le_mono_pos_r _ _ (of_int 100)); [done|].
    by rewrite Qcmult_1_l, Hmul.
Qed.

Lemma percentile_interpolate (arr : list Qc) (p : Qc) :
  arr ≠ [] → 0 ≤ p → p ≤ of_int 100 →
  Numpy.percentile arr p
  = Ok (interpolate (Numpy.sort arr)
          (Numpy.get_virtual_index (length arr) (p / of_int 100))).
Proof.
  intros Hne H0 H100. unfold Numpy.percentile.
  pose proof (percentile_valid p H0 H100) as Hvalid. rewrite Hvalid.
  apply quantile_unchecked_interpolate; [done|].
  unfold Numpy.quantile_is_valid in Hvalid.
  apply andb_true_iff in Hvalid as [Hv _]. by apply bool_decide_eq_true in Hv.
Qed.

Lemma StronglySorted_lookup_le (l : list Qc) (i j : nat) (x y : Qc) :
  StronglySorted Qcle l → (i ≤ j)%nat →
  l !! i = Some x → l !! j = Some y → x ≤ y.
Proof.
  intros Hs. revert i j x y.
  induction Hs as [|a l Hs IH Hall]; intros i j x y Hij Hi Hj.
  - done.
  - destruct i as [|i], j as [|j]; simpl in *.
    + simplify_eq. apply Qcle_refl.
    + simplify_eq. by eapply (Forall_lookup_1 _ _ _ _ Hall).
    + lia.
    + eapply IH; [|done..]. lia.
Qed.

Lemma order_stat_lookup_min (sorted : list Qc) (k : nat) :
  sorted ≠ [] →
  sorted !! (k `min` (length sorted - 1))%nat = Some (order_stat sorted k).
Proof.
  intros Hne. unfold order_stat.
  assert (0 < length sorted)%nat by (destruct sorted; simpl; [done|lia]).
  destruct (lookup_lt_is_Some_2 sorted (k `min` (length sorted - 1))%nat)
    as [x ->]; [lia|done].
Qed.

Lemma order_stat_mono (sorted : list Qc) (j k : nat) :
  StronglySorted Qcle sorted → (j ≤ k)%nat →
  order_stat sorted j ≤ order_stat sorted k.
Proof.
  intros Hs Hjk. destruct (decide (sorted = [])) as [->|Hne].
  - unfold order_stat; simpl. apply Qcle_refl.
  - eapply (StronglySorted_lookup_le sorted
              (j `min` (length sorted - 1)) (k `min` (length sorted - 1)));
      [done|lia|by apply order_stat_lookup_min..].
Qed.

Lemma interpolate_mono (sorted : list Qc) (v1 v2 : Qc) :
  StronglySorted Qcle sorted → 0 ≤ v1 → v1 ≤ v2 →
  interpolate sorted v1 ≤ interpolate sorted v2.
Proof.
  intros Hs H0 H12. unfold interpolate.
  pose proof (floorZ_le v1) as Hl1. pose proof (floorZ_lt v1) as Hu1.
  pose proof (floorZ_le v2) as Hl2. pose proof (floorZ_lt v2) as Hu2.
  rewrite of_int_add, of_int_1 in Hu1, Hu2.
  assert (0 ≤ floorZ v1)%Z as Hf1.
  { assert (of_int 0 < of_int (floorZ v1 + 1)) as Hlt.
    { rewrite of_int_0, of_int_add, of_int_1. eapply Qcle_lt_trans; eauto. }
    apply (proj2 (of_int_lt _ _)) in Hlt. lia. }
  assert (floorZ v1 ≤ floorZ v2)%Z as Hf12.
  { assert (of_int (floorZ v1) < of_int (floorZ v2 + 1)) as Hlt.
    { rewrite of_int_add, of_int_1.
      eapply Qcle_lt_trans; [exact Hl1|]. eapply Qcle_lt_trans; eauto. }
    apply (proj2 (of_int_lt _ _)) in Hlt. lia. }
  set (k1 := Z.to_nat (floorZ v1)). set (k2 := Z.to_nat (floorZ v2)).
  pose proof (order_stat_mono sorted k1 (S k1) Hs ltac:(lia)) as Ha1.
  pose proof (order_stat_mono sorted k2 (S k2) Hs ltac:(lia)) as Ha2.
  destruct (decide (floorZ v1 = floorZ v2)) as [Heq|Hneq].
  - subst k1 k2. rewrite <- Heq in *.
    generalize dependent (order_stat sorted (Z.to_nat (floorZ v1))).
    generalize dependent (order_stat sorted (S (Z.to_nat (floorZ v1)))).
    generalize dependent (of_int (floorZ v1)).
    intros f ? ? ? b ? a ? ?. qc_to_q. nra.
  - pose proof (order_stat_mono sorted (S k1) k2 Hs ltac:(lia)) as Hmid.
    generalize dependent (order_stat sorted k1).
    generalize dependent (order_stat sorted (S k1)).
    generalize dependent (order_stat sorted k2).
    generalize dependent (order_stat sorted (S k2)).
    generalize dependent (of_int (floorZ v1)).
    generalize dependent (of_int (floorZ v2)).
    intros. qc_to_q. nra.
Qed.

Lemma virtual_index_mono (n : nat) (p1 p2 : Qc) :
  (0 < n)%nat → p1 ≤ p2 →
  Numpy.get_virtual_index n (p1 / of_int 100)
  ≤ Numpy.get_virtual_index n (p2 / of_int 100).
Proof.
  intros Hn Hp. unfold Numpy.get_virtual_index.
  apply Qcmult_le_mono_nonneg_l.
  - destruct n as [|n']; [lia|]. rewrite of_nat_S.
    pose proof (of_nat_nonneg n'). qc_to_q. lra.
  - unfold Qcdiv. apply Qcmult_le_mono_nonneg_r; [|done].
    apply Qclt_le_weak, Qcinv_pos.
    rewrite <- of_int_0. apply (proj1 (of_int_lt _ _)). lia.
Qed.

Lemma virtual_index_nonneg (n : nat) (p : Qc) :
  (0 < n)%nat → 0 ≤ p → 0 ≤ Numpy.get_virtual_index n (p / of_int 100).
Proof.
  intros Hn Hp.
  assert (Numpy.get_virtual_index n (0 / of_int 100) = 0) as <-.
  { unfold Numpy.get_virtual_index, Qcdiv. ring. }
  by apply virtual_index_mono.
Qed.

Lemma virtual_index_le (n : nat) (p : Qc) :
  (0 < n)%nat → p ≤ of_int 100 →
  Numpy.get_virtual_index n (p / of_int 100) ≤ of_nat n - 1.
Proof.
  intros Hn Hp.
  assert (Numpy.get_virtual_index n (of_int 100 / of_int 100) = of_nat n - 1) as <-.
  { unfold Numpy.get_virtual_index, Qcdiv. rewrite Qcmult_inv_r; [ring|].
    intros Heq. assert (of_int 0 < of_int 100) as Hlt
      by (apply (proj1 (of_int_lt _ _)); lia).
    rewrite Heq, of_int_0 in Hlt. by apply (irreflexivity Qclt) in Hlt. }
  by apply virtual_index_mono.
Qed.

Lemma percentile_mono (arr : list Qc) (p1 p2 : Qc) :
  arr ≠ [] → 0 ≤ p1 → p1 ≤ p2 → p2 ≤ of_int 100 →
  ∃ x1 x2, Numpy.percentile arr p1 = Ok x1 ∧ Numpy.percentile arr p2 = Ok x2
           ∧ x1 ≤ x2.
Proof.
  intros Hne H0 H12 H100.
  assert (0 < length arr)%nat by (destruct arr; simpl; [done|lia]).
  eexists _, _. split; [|split].
  - apply percentile_interpolate; [done..|]. by etrans.
  - apply percentile_interpolate; [done| |done]. by etrans.
  - apply interpolate_mono.
    + apply sort_Sorted.
    + by apply virtual_index_nonneg.
    + by apply virtual_index_mono.
Qed.

Lemma percentile_Permutation (a b : list Qc) (p : Qc) :
  a ≡ₚ b → Numpy.percentile a p = Numpy.percentile b p.
Proof.
  intros Hab. unfold Numpy.percentile, Numpy.quantile_unchecked.
  by rewrite (sort_Permutation a b Hab), (Permutation_length Hab).
Qed.

Lemma ceilZ_integer (k : Z) : ceilZ (of_int k) = k.
Proof.
  unfold ceilZ, Qceiling. rewrite this_of_int.
  assert (- inject_Z k == inject_Z (- k))%Q as -> by (by rewrite inject_Z_opp).
  rewrite Qfloor_Z. lia.
Qed.

Lemma ceilZ_fraction (x : Qc) :
  of_int (floorZ x) < x → ceilZ x = (floorZ x + 1)%Z.
Proof.
  intros Hlt. pose proof (floorZ_lt x) as Hu.
  unfold ceilZ, Qceiling.
  assert (Qfloor (- this x) = floorZ (- x)) as ->.
  { unfold floorZ. by rewrite this_opp. }
  rewrite (floorZ_unique (- x) (- (floorZ x + 1))); [lia| |].
  - unfold of_int. rewrite Z2Qc_inj_opp. fold (of_int (floorZ x + 1)).
    qc_to_q. lra.
  - replace (- (floorZ x + 1) + 1)%Z with (- floorZ x)%Z by lia.
    unfold of_int. rewrite Z2Qc_inj_opp. fold (of_int (floorZ x)).
    qc_to_q. lra.
Qed.

Lemma closest_rank_interpolate (series : list Qc) (p : Qc) :
  series ≠ [] → 0 ≤ p → p ≤ of_int 100 →
  closest_rank_percentile series p
  = Some (interpolate (Numpy.sort series)
            (Numpy.get_virtual_index (length series) (p / of_int 100))).
Proof.
  intros Hne H0 H100. unfold closest_rank_percentile.
  assert (0 < length series)%nat as Hn by (destruct series; simpl; [done|lia]).
  fold (Numpy.sort series).
  replace (p / of_int 100 * (of_nat (length series) - 1))
    with (Numpy.get_virtual_index (length series) (p / of_int 100))
    by (unfold Numpy.get_virtual_index; ring).
  set (v := Numpy.get_virtual_index (length series) (p / of_int 100)).
  pose proof (virtual_index_nonneg _ p Hn H0) as Hv0.
  pose proof (virtual_index_le _ p Hn H100) as Hvn. fold v in Hv0, Hvn.
  pose proof (floorZ_le v) as Hfl. pose proof (floorZ_lt v) as Hfu.
  pose proof (sort_length series) as Hlen.
  assert (0 ≤ floorZ v)%Z as Hf0.
  { assert (of_int 0 < of_int (floorZ v + 1)) as Hlt.
    { rewrite of_int_0. eapply Qcle_lt_trans; eauto. }
    apply (proj2 (of_int_lt _ _)) in Hlt. lia. }
  assert (floorZ v ≤ Z.of_nat (length series) - 1)%Z as Hfn.
  { apply (proj2 (of_int_le _ _)). etrans; [exact Hfl|].
    unfold of_int. by rewrite Z2Qc_inj_sub, Z2Qc_inj_1. }
  unfold interpolate.
  rewrite (order_stat_lookup _ (Z.to_nat (floorZ v))) by lia. simpl.
  destruct (decide (of_int (floorZ v) = v)) as [Hint|Hfrac].
  - rewrite <- Hint at 1. rewrite ceilZ_integer.
    rewrite (order_stat_lookup _ (Z.to_nat (floorZ v))) by lia. simpl.
    f_equal. replace (v - of_int (floorZ v)) with 0 by (rewrite Hint; ring). ring.
  - assert (of_int (floorZ v) < v) as Hlt.
    { apply Qcle_lt_or_eq in Hfl as [?|?]; done. }
    rewrite ceilZ_fraction by done.
    assert (floorZ v + 1 ≤ Z.of_nat (length series) - 1)%Z.
    { assert (of_int (floorZ v) < of_int (Z.of_nat (length series) - 1)) as Hlt'.
      { eapply Qclt_le_trans; [exact Hlt|].
        unfold of_int. by rewrite Z2Qc_inj_sub, Z2Qc_inj_1. }
      apply (proj2 (of_int_lt _ _)) in Hlt'. lia. }
    replace (Z.to_nat (floorZ v + 1)) with (S (Z.to_nat (floorZ v))) by lia.
    rewrite (order_stat_lookup _ (S (Z.to_nat (floorZ v)))) by lia. done.
Qed.

(** ** Shuffling and drawing without replacement *)

Section random_state.
Context {G : Type} `{BitGenerator G}.

Lemma transpose_inj i j : Inj (=) (=) (transpose i j).
Proof. intros a b. unfold transpose. repeat case_decide; congruence. Qed.

Lemma swap_lookup {A} (x : list A) (i j k : nat) :
  (i < length x)%nat → (j < length x)%nat →
  RandomState.swap x i j !! k = x !! transpose i j k.
Proof.
  intros Hi Hj. unfold RandomState.swap, transpose.
  destruct (lookup_lt_is_Some_2 x i Hi) as [xi Hxi].
  destruct (lookup_lt_is_Some_2 x j Hj) as [xj Hxj].
  rewrite Hxi, Hxj. rewrite !list_lookup_insert, !length_insert.
  repeat case_decide; destruct_and?; simplify_eq; try done; exfalso; lia.
Qed.

Lemma swap_Permutation {A} (x : list A) (i j : nat) :
  RandomState.swap x i j ≡ₚ x.
Proof.
  destruct (decide (i < length x ∧ j < length x)%nat) as [[Hi Hj]|Hout].
  - apply Permutation_inj. split.
    + unfold RandomState.swap.
      destruct (x !! i), (x !! j); by rewrite ?length_insert.
    + exists (transpose i j). split; [apply transpose_inj|].
      intros k. by apply swap_lookup.
  - unfold RandomState.swap.
    destruct (x !! i) eqn:Hxi, (x !! j) eqn:Hxj; try done.
    apply lookup_lt_Some in Hxi, Hxj. lia.
Qed.

Lemma shuffle_raw_Permutation {A} (i : nat) (x : list A) (g : G) :
  (RandomState.shuffle_raw i x g).1 ≡ₚ x.
Proof.
  revert x g. induction i as [|i IH]; intros x g; simpl; [done|].
  destruct (random_interval g (S i)) as [j g'].
  rewrite IH. apply swap_Permutation.
Qed.

Lemma permutation_Permutation (n : nat) (g : G) :
  (RandomState.permutation n g).1 ≡ₚ seq 0 n.
Proof. apply shuffle_raw_Permutation. Qed.

Lemma take_indices_ok {A} (a : list A) (idx : list nat) :
  Forall (λ i, i < length a)%nat idx →
  ∃ r, RandomState.take_indices a idx = Ok r
       ∧ Forall2 (λ i x, a !! i = Some x) idx r.
Proof.
  intros Hidx. unfold RandomState.take_indices.
  destruct (mapM (λ i, a !! i) idx) as [r|] eqn:Hr.
  - exists r. split; [done|]. by apply mapM_Some.
  - apply mapM_None in Hr. apply Exists_exists in Hr as (i & Hi & Hnone).
    rewrite Forall_forall in Hidx. apply Hidx in Hi.
    apply lookup_ge_None in Hnone. lia.
Qed.

Lemma lookup_seq_all {A} (a : list A) (r : list A) :
  Forall2 (λ i x, a !! i = Some x) (seq 0 (length a)) r → r = a.
Proof.
  intros Hr. pose proof Hr as Hlen. apply Forall2_length in Hlen.
  rewrite length_seq in Hlen. apply list_eq. intros k.
  destruct (decide (k < length a)%nat) as [Hk|Hk].
  - destruct (lookup_lt_is_Some_2 a k Hk) as [y Hy].
    destruct (Forall2_lookup_l _ _ _ k k Hr) as (z & Hz & Hlook).
    { apply lookup_seq. lia. }
    congruence.
  - rewrite (lookup_ge_None_2 a) by lia.
    apply lookup_ge_None_2. lia.
Qed.

(** What an index list selects is, as a multiset, what any
    rearrangement of it selects. *)
Lemma take_indices_Permutation {A} (a : list A) (idx idx' : list nat) (r r' : list A) :
  idx ≡ₚ idx' →
  Forall2 (λ i x, a !! i = Some x) idx r →
  Forall2 (λ i x, a !! i = Some x) idx' r' →
  r ≡ₚ r'.
Proof.
  intros Hperm. revert r r'.
  induction Hperm as [|i idx idx' Hp IH|i j idx|idx1 idx2 idx3 H12 IH12 H23 IH23];
    intros r r' Hr Hr'.
  - by inv Hr; inv Hr'.
  - inv Hr; inv Hr'. simplify_eq. f_equiv. by apply IH.
  - inv Hr; inv Hr'.
    repeat match goal with
           | Hf : Forall2 _ (_ :: _) _ |- _ => inv Hf
           end.
    simplify_eq.
    assert (l'0 = l'1) as ->.
    { eapply Forall2_unique; [done..|]. intros ??? ? ?; congruence. }
    apply perm_swap.
  - assert (∃ r2, Forall2 (λ i x, a !! i = Some x) idx2 r2) as [r2 Hr2].
    { assert (Forall (λ i, i < length a)%nat idx2) as Hall.
      { rewrite <- H12. eapply Forall2_Forall_l; [exact Hr|].
        apply Forall_true. intros ?? Hl. by apply lookup_lt_Some in Hl. }
      destruct (take_indices_ok a idx2 Hall) as (r2 & _ & ?). by exists r2. }
    etrans; [by apply IH12|by apply IH23].
Qed.
End random_state.

Section choice.
Context {G : Type} `{BitGenerator G}.

Lemma choice_raises (a : list Qc) (size : Z) (g : G) :
  (Z.of_nat (length a) < size)%Z →
  ∃ msg, RandomState.choice a size g = (Raise (ValueError msg), g).
Proof.
  intros Hlt. unfold RandomState.choice.
  destruct (bool_decide (length a = 0%nat) && negb (size =? 0)%Z); [by eexists|].
  apply Z.ltb_lt in Hlt. rewrite Hlt. by eexists.
Qed.

Lemma choice_ok (a : list Qc) (size : Z) (g : G) :
  (0 ≤ size ≤ Z.of_nat (length a))%Z →
  ∃ sampled,
    RandomState.choice a size g
    = (Ok sampled, (RandomState.permutation (length a) g).2)
    ∧ Forall2 (λ i x, a !! i = Some x)
        (take (Z.to_nat size) (RandomState.permutation (length a) g).1)
        sampled.
Proof.
  intros [H0 Hle]. unfold RandomState.choice.
  assert (bool_decide (length a = 0%nat) && negb (size =? 0)%Z = false) as ->.
  { apply andb_false_iff. destruct (decide (length a = 0%nat)) as [Hz|Hnz].
    - right. apply negb_false_iff, Z.eqb_eq. lia.
    - left. by apply bool_decide_eq_false. }
  replace (Z.of_nat (length a) <? size)%Z with false
    by (symmetry; apply Z.ltb_ge; lia).
  replace (size <? 0)%Z with false by (symmetry; apply Z.ltb_ge; lia).
  pose proof (permutation_Permutation (length a) g) as Hperm.
  destruct (RandomState.permutation (length a) g) as [perm g'] eqn:Hp.
  simpl in *.
  destruct (take_indices_ok a (take (Z.to_nat size) perm)) as (r & -> & Hr).
  { apply Forall_take. rewrite Hperm. apply Forall_seq. lia. }
  by exists r.
Qed.

(** The indexes of a draw are pairwise distinct positions of the
    population. *)
Lemma choice_indexes (n size : nat) (g : G) :
  let idx := take size (RandomState.permutation n g).1 in
  NoDup idx ∧ Forall (λ i, i < n)%nat idx ∧ length idx = (size `min` n)%nat.
Proof.
  pose proof (permutation_Permutation n g) as Hperm. simpl.
  split; [|split].
  - eapply sublist_NoDup; [|apply sublist_take]. rewrite Hperm. apply NoDup_seq.
  - apply Forall_take. rewrite Hperm. apply Forall_seq. lia.
  - rewrite length_take, Hperm, length_seq. done.
Qed.

(** A draw is a sub-multiset of the population. *)
Lemma selection_submseteq (a : list Qc) (n size : nat) (g : G) (sampled : list Qc) :
  n = length a →
  Forall2 (λ i x, a !! i = Some x)
    (take size (RandomState.permutation n g).1) sampled →
  sampled ⊆+ a.
Proof.
  intros -> Hs.
  pose proof (permutation_Permutation (length a) g) as Hperm.
  set (perm := (RandomState.permutation (length a) g).1) in *.
  destruct (take_indices_ok a (drop size perm)) as (rest & _ & Hrest).
  { apply Forall_drop. rewrite Hperm. apply Forall_seq. lia. }
  destruct (take_indices_ok a (seq 0 (length a))) as (all & _ & Hall).
  { apply Forall_seq. lia. }
  apply lookup_seq_all in Hall as Hall'. subst all.
  assert (sampled ++ rest ≡ₚ a) as <-.
  { eapply (take_indices_Permutation a (take size perm ++ drop size perm));
      [by rewrite take_drop|by apply Forall2_app|done]. }
  by apply submseteq_inserts_r.
Qed.
End choice.

(** ** The two-sample test of a series against a rearrangement of itself *)

Section ks.
Context `{KSDistributions}.

Lemma np_round_floor (x : Qc) : (floorZ x ≤ np_round x)%Z.
Proof. unfold np_round. repeat case_decide; try destruct (Z.even _); lia. Qed.

Lemma np_round_0 : np_round 0 = 0%Z.
Proof. by vm_compute. Qed.

Lemma np_round_ge_1 (x : Qc) : 1 ≤ x → (1 ≤ np_round x)%Z.
Proof.
  intros Hx. pose proof (np_round_floor x). pose proof (floorZ_lt x) as Hlt.
  assert (of_int 1 < of_int (floorZ x + 1)) as Hlt'.
  { rewrite of_int_1. by eapply Qcle_lt_trans. }
  apply (proj2 (of_int_lt _ _)) in Hlt'. lia.
Qed.

Lemma np_extrema_zero (cs : list Qc) :
  Forall (λ c, c = 0) cs → Scipy.np_max 0 cs = 0 ∧ Scipy.np_min 0 cs = 0.
Proof.
  induction 1 as [|c cs -> _ IH]; [done|].
  cbn [Scipy.np_max Scipy.np_min].
  rewrite !decide_False by apply (irreflexivity Qclt). done.
Qed.

Lemma kstwo_sf_zero (n : Z) : (1 ≤ n)%Z → Scipy.kstwo_sf 0 n = 1.
Proof.
  intros Hn. unfold Scipy.kstwo_sf.
  replace (n <? 1)%Z with false by (symmetry; apply Z.ltb_ge; lia).
  rewrite decide_True; [done|].
  unfold Qcdiv. apply Qcmult_nonneg_nonneg; [by vm_compute|].
  apply Qclt_le_weak, Qcinv_pos. rewrite <- of_int_0.
  apply (proj1 (of_int_lt _ _)). lia.
Qed.

Lemma zip_with_minus_diag (f : Qc → Qc) (l : list Qc) :
  zip_with Qcminus (f <$> l) (f <$> l) = (λ _, 0) <$> l.
Proof.
  induction l as [|x l IH]; csimpl; [done|]. f_equal; [ring|done].
Qed.

Lemma ks_2samp_same_data (data1 data2 : list Qc) :
  data1 ≡ₚ data2 → data2 ≠ [] → Scipy.ks_2samp data1 data2 = Ok (0, 1).
Proof.
  intros Hperm Hne. unfold Scipy.ks_2samp.
  rewrite (sort_Permutation data1 data2 Hperm).
  set (d := Numpy.sort data2). set (n := length d).
  assert (0 < n)%nat as Hn.
  { subst n d. rewrite sort_length. destruct data2; simpl; [done|lia]. }
  assert (n `min` n ≠ 0)%nat as Hmin by lia.
  rewrite bool_decide_eq_false_2 by done.
  assert (zip_with Qcminus
            ((λ v, of_nat (Scipy.searchsorted_right d v) / of_nat n) <$> (d ++ d))
            ((λ v, of_nat (Scipy.searchsorted_right d v) / of_nat n) <$> (d ++ d))
          = (λ _, 0) <$> (d ++ d)) as ->.
  { apply zip_with_minus_diag. }
  assert (∃ cs, (λ _ : Qc, 0 : Qc) <$> (d ++ d) = 0 :: cs
                ∧ Forall (λ c, c = 0) cs) as (cs & -> & Hcs).
  { destruct d as [|x d'] eqn:Hd; [subst n; simpl in Hn; lia|].
    eexists. split; [reflexivity|]. apply Forall_fmap, Forall_true. done. }
  destruct (np_extrema_zero cs Hcs) as [-> ->].
  replace (np_clip (- 0) 0 1) with (0 : Qc) by (by vm_compute).
  rewrite decide_False by apply (irreflexivity Qclt).
  rewrite Nat.max_id, Nat.min_id. fold n.
  assert (np_clip 1 0 1 = 1) as Hclip by (by vm_compute).
  destruct (Z.of_nat n <=? Scipy.MAX_AUTO_N)%Z eqn:Hauto.
  - unfold Scipy.attempt_exact_2kssamp.
    rewrite Qcmult_0_l, np_round_0. simpl.
    rewrite Hclip. do 2 f_equal. rewrite of_int_0. unfold Qcdiv. ring.
  - rewrite kstwo_sf_zero; [by rewrite Hclip|].
    apply np_round_ge_1. apply Z.leb_gt in Hauto.
    unfold Scipy.MAX_AUTO_N in Hauto.
    assert (of_int 2 ≤ of_nat n) as H2.
    { unfold of_nat. apply (proj1 (of_int_le _ _)). lia. }
    assert (0 < of_nat n + of_nat n) as Hpos.
    { assert (of_int 2 = 2) as He by (apply Qc_is_canon; reflexivity).
      rewrite He in H2. qc_to_q. lra. }
    apply (Qcmult_le_mono_pos_r _ _ (of_nat n + of_nat n)); [done|].
    unfold Qcdiv. rewrite <- Qcmult_assoc, (Qcmult_comm (/ _)), Qcmult_inv_r.
    + assert (of_int 2 = 2) as He by (apply Qc_is_canon; reflexivity).
      rewrite He in H2. generalize dependent (of_nat n). intros. qc_to_q. nra.
    + intros Heq. rewrite Heq in Hpos. by apply (irreflexivity Qclt) in Hpos.
Qed.
End ks.

(** ** The exceedance count *)

Lemma count_loop_spec (sampled_values : list Qc) :
  KSFinal.count_loop sampled_values
  = (Z.of_nat (length (filter (λ z, of_int 200 < z) sampled_values)),
     Z.of_nat (length sampled_values)).
Proof.
  unfold KSFinal.count_loop.
  assert (∀ l (fr tot : Z),
    foldl (λ '(count_fr, count_tot) (z : Qc),
             let count_tot := (count_tot + 1)%Z in
             if decide (of_int 200 < z) then ((count_fr + 1)%Z, count_tot)
             else (count_fr, count_tot)) (fr, tot) l
    = ((fr + Z.of_nat (length (filter (λ z : Qc, (of_int 200 < z)%Qc) l)))%Z,
       (tot + Z.of_nat (length l))%Z)) as Hgen.
  { induction l as [|z l IH]; intros fr tot; simpl.
    - f_equal; lia.
    - rewrite filter_cons. case_decide; rewrite IH; simpl; f_equal; lia. }
  rewrite Hgen. f_equal.
Qed.

(** ** The statement monad *)

Lemma bind_ok {St A B} (m : Py St A) (f : A → Py St B) st a st' :
  m st = (Ok a, st') → (m ≫= f) st = f a st'.
Proof. intros Hm. unfold mbind, Py_bind. by rewrite Hm. Qed.

Lemma bind_raise {St A B} (m : Py St A) (f : A → Py St B) st e st' :
  m st = (Raise e, st') → (m ≫= f) st = (Raise e, st').
Proof. intros Hm. unfold mbind, Py_bind. by rewrite Hm. Qed.

Lemma bind_assoc {St A B C} (m : Py St A) (f : A → Py St B) (g : B → Py St C) st :
  ((m ≫= f) ≫= g) st = (m ≫= λ x, f x ≫= g) st.
Proof. unfold mbind, Py_bind. by destruct (m st) as [[a|e] st']. Qed.

Lemma percentile_ok (series : list Qc) (p : Z) :
  series ≠ [] → (0 ≤ p ≤ 100)%Z → ∃ x, Numpy.percentile series (of_int p) = Ok x.
Proof.
  intros Hne [H0 H100]. eexists. apply percentile_interpolate; [done| |].
  - rewrite <- of_int_0. by apply (proj1 (of_int_le _ _)).
  - by apply (proj1 (of_int_le _ _)).
Qed.


(** ** Stepping through statements *)

Section stepping.
Context {G : Type} `{BitGenerator G}.
Context {Var ArrVar NumVar : Type}.
Context `{EqDecision Var, EqDecision ArrVar, EqDecision NumVar}.
Local Abbreviation St := (Interp G (Namespace Var ArrVar NumVar)).
Implicit Types (st : St) (v : Var) (a : ArrVar) (n : NumVar).

Lemma lists_set_list v v' l st :
  lists (globals (set_list v l st)) v' = if decide (v = v') then l else lists (globals st) v'.
Proof. unfold set_list; simpl. unfold insert, fn_insert. done. Qed.
Lemma lists_set_list_eq v l st : lists (globals (set_list v l st)) v = l.
Proof. rewrite lists_set_list. by rewrite decide_True. Qed.
Lemma lists_set_list_ne v v' l st :
  v ≠ v' → lists (globals (set_list v l st)) v' = lists (globals st) v'.
Proof. intros. rewrite lists_set_list. by rewrite decide_False. Qed.
Lemma arrs_set_list v l st : arrs (globals (set_list v l st)) = arrs (globals st).
Proof. done. Qed.
Lemma nums_set_list v l st : nums (globals (set_list v l st)) = nums (globals st).
Proof. done. Qed.
Lemma bitgen_set_list v l st : bitgen (set_list v l st) = bitgen st.
Proof. done. Qed.
Lemma draws_set_list v l st : draws (set_list v l st) = draws st.
Proof. done. Qed.

Lemma arrs_set_arr_eq a l st : arrs (globals (set_arr a l st)) a = l.
Proof. unfold set_arr; simpl. apply fn_lookup_insert. Qed.
Lemma arrs_set_arr_ne a a' l st :
  a ≠ a' → arrs (globals (set_arr a l st)) a' = arrs (globals st) a'.
Proof. intros. unfold set_arr; simpl. by apply fn_lookup_insert_ne. Qed.
Lemma lists_set_arr a l st : lists (globals (set_arr a l st)) = lists (globals st).
Proof. done. Qed.
Lemma nums_set_arr a l st : nums (globals (set_arr a l st)) = nums (globals st).
Proof. done. Qed.
Lemma bitgen_set_arr a l st : bitgen (set_arr a l st) = bitgen st.
Proof. done. Qed.
Lemma draws_set_arr a l st : draws (set_arr a l st) = draws st.
Proof. done. Qed.

Lemma nums_set_num_eq n x st : nums (globals (set_num n x st)) n = x.
Proof. unfold set_num; simpl. apply fn_lookup_insert. Qed.
Lemma nums_set_num_ne n n' x st :
  n ≠ n' → nums (globals (set_num n x st)) n' = nums (globals st) n'.
Proof. intros. unfold set_num; simpl. by apply fn_lookup_insert_ne. Qed.
Lemma lists_set_num n x st : lists (globals (set_num n x st)) = lists (globals st).
Proof. done. Qed.
Lemma arrs_set_num n x st : arrs (globals (set_num n x st)) = arrs (globals st).
Proof. done. Qed.
Lemma bitgen_set_num n x st : bitgen (set_num n x st) = bitgen st.
Proof. done. Qed.
Lemma draws_set_num n x st : draws (set_num n x st) = draws st.
Proof. done. Qed.

Lemma bind_read {B} v (f : list Qc → Py St B) st :
  (read v ≫= f) st = f (lists (globals st) v) st.
Proof. done. Qed.
Lemma bind_read_num {B} n (f : Qc → Py St B) st :
  (read_num n ≫= f) st = f (nums (globals st) n) st.
Proof. done. Qed.
Lemma bind_assign {B} v l (f : () → Py St B) st :
  (assign v l ≫= f) st = f () (set_list v l st).
Proof. done. Qed.
Lemma bind_append {B} v x (f : () → Py St B) st :
  (append v x ≫= f) st = f () (set_list v (lists (globals st) v ++ [x]) st).
Proof. done. Qed.
Lemma bind_append_arr {B} a l (f : () → Py St B) st :
  (append_arr a l ≫= f) st = f () (set_arr a (arrs (globals st) a ++ [l]) st).
Proof. done. Qed.
Lemma bind_assign_num {B} n x (f : () → Py St B) st :
  (assign_num n x ≫= f) st = f () (set_num n x st).
Proof. done. Qed.
Lemma bind_call_ok {A B} (r : Result A) (f : A → Py St B) st x :
  r = Ok x → (call r ≫= f) st = f x st.
Proof. by intros ->. Qed.
Lemma bind_call_raise {A B} (r : Result A) (f : A → Py St B) st e :
  r = Raise e → (call r ≫= f) st = (Raise e, st).
Proof. by intros ->. Qed.
Lemma bind_ret {A B} (x : A) (f : A → Py St B) st : (mret x ≫= f) st = f x st.
Proof. done. Qed.
End stepping.

#[global] Opaque set_list set_arr set_num.

Ltac store_simpl :=
  repeat first
    [ rewrite lists_set_list_eq
    | rewrite lists_set_list_ne by done
    | rewrite arrs_set_list | rewrite nums_set_list
    | rewrite bitgen_set_list | rewrite draws_set_list
    | rewrite arrs_set_arr_eq
    | rewrite arrs_set_arr_ne by done
    | rewrite lists_set_arr | rewrite nums_set_arr
    | rewrite bitgen_set_arr | rewrite draws_set_arr
    | rewrite nums_set_num_eq
    | rewrite nums_set_num_ne by done
    | rewrite lists_set_num | rewrite arrs_set_num
    | rewrite bitgen_set_num | rewrite draws_set_num ].

(** One statement forward; percentile calls are resolved from the
    context. *)
Ltac py_step :=
  first
    [ rewrite bind_assoc
    | rewrite bind_read | rewrite bind_read_num | rewrite bind_assign
    | rewrite bind_append | rewrite bind_append_arr | rewrite bind_assign_num
    | rewrite bind_ret
    | erewrite bind_call_ok by (store_simpl; eassumption) ];
  store_simpl.

Section gm.
Context {G : Type} `{BitGenerator G}.
Import Gm.
Local Abbreviation St := (Interp G (Namespace Var ArrVar NumVar)).

Lemma Gm_summarize_spec (st : St) :
  lists (globals st) cur_sample_gm_means ≠ [] →
  ∃ st', summarize st = (Ok (), st')
    ∧ appends_percentile st st' sample_gm_lower_bounds
        (lists (globals st) cur_sample_gm_means) 5
    ∧ appends_percentile st st' sample_gm_upper_bounds
        (lists (globals st) cur_sample_gm_means) 95
    ∧ lists (globals st') cur_sample_gm_means = lists (globals st) cur_sample_gm_means
    ∧ arrs (globals st') = arrs (globals st)
    ∧ nums (globals st') = nums (globals st)
    ∧ bitgen st' = bitgen st ∧ draws st' = draws st.
Proof.
  intros Hne.
  destruct (percentile_ok _ 5 Hne ltac:(lia)) as [lo Hlo].
  destruct (percentile_ok _ 95 Hne ltac:(lia)) as [hi Hhi].
  unfold summarize, appends_percentile.
  do 5 py_step. unfold append.
  eexists. split; [reflexivity|]. store_simpl.
  split; [by exists lo|]. split; [by exists hi|]. done.
Qed.
End gm.

Lemma for_each_app {St A} (l1 l2 : list A) (body : A → Py St ()) (st : St) :
  for_each (l1 ++ l2) body st
  = match for_each l1 body st with
    | (Ok _, st') => for_each l2 body st'
    | (Raise e, st') => (Raise e, st')
    end.
Proof.
  revert st. induction l1 as [|x l1 IH]; intros st; [done|].
  cbn [for_each app]. unfold mbind, Py_bind.
  destruct (body x st) as [[[]|e] st']; [apply IH|done].
Qed.

Lemma for_each_cons_raise {St A} (x : A) (l : list A) (body : A → Py St ()) st e st' :
  body x st = (Raise e, st') → for_each (x :: l) body st = (Raise e, st').
Proof. intros Hb. cbn [for_each]. by apply bind_raise. Qed.

Lemma for_each_invariant {St A} (I : nat → St → Prop) (l : list A)
    (body : A → Py St ()) :
  (∀ k x st, l !! k = Some x → I k st →
             ∃ st', body x st = (Ok (), st') ∧ I (S k) st') →
  ∀ st, I 0%nat st →
        ∃ st', for_each l body st = (Ok (), st') ∧ I (length l) st'.
Proof.
  revert I. induction l as [|x l IH]; intros I Hstep st HI.
  - by exists st.
  - destruct (Hstep 0%nat x st eq_refl HI) as (st1 & Hx & HI1).
    destruct (IH (λ k, I (S k))) with (st := st1) as (st2 & Hl & HI2); [|done|].
    + intros k y st' Hk. by apply (Hstep (S k)).
    + exists st2. split; [|done].
      cbn [for_each]. by rewrite (bind_ok _ _ _ _ _ Hx).
Qed.

Section ks_total.
Context `{KSDistributions}.

Lemma ks_2samp_ok (data1 data2 : list Qc) :
  data1 ≠ [] → data2 ≠ [] → ∃ d p, Scipy.ks_2samp data1 data2 = Ok (d, p).
Proof.
  intros H1 H2. unfold Scipy.ks_2samp. rewrite !sort_length.
  assert (0 < length data1)%nat by (destruct data1; simpl; [done|lia]).
  assert (0 < length data2)%nat by (destruct data2; simpl; [done|lia]).
  rewrite bool_decide_eq_false_2 by lia.
  destruct (Numpy.sort data1) as [|x d1] eqn:Hd1.
  { pose proof (sort_length data1) as Hl. rewrite Hd1 in Hl. simpl in Hl. lia. }
  csimpl.
  destruct (Z.of_nat _ <=? _)%Z;
    [destruct (Scipy.attempt_exact_2kssamp _ _ _ _) as [[??]?]|];
    by eexists _, _.
Qed.
End ks_total.

Lemma of_nat_pos (n : nat) : (0 < n)%nat → 0 < of_nat n.
Proof.
  intros Hn. unfold of_nat. rewrite <- Z2Qc_inj_0.
  apply (proj1 (Z2Qc_inj_lt _ _)). lia.
Qed.

Lemma of_nat_neq_0 (n : nat) : (0 < n)%nat → of_nat n ≠ 0.
Proof.
  intros Hn Heq. apply of_nat_pos in Hn. rewrite Heq in Hn.
  by apply (irreflexivity Qclt) in Hn.
Qed.

Lemma percent_above_200_spec (sampled_values : list Qc) :
  sampled_values ≠ [] →
  KSFinal.percent_above_200 sampled_values
  = Ok (of_int 100
        * of_nat (length (filter (λ z, of_int 200 < z) sampled_values))
        / of_nat (length sampled_values)).
Proof.
  intros Hne. unfold KSFinal.percent_above_200. rewrite count_loop_spec.
  unfold truediv. fold (of_nat (length sampled_values)).
  rewrite decide_False; [done|].
  apply of_nat_neq_0. destruct sampled_values; simpl; [done|lia].
Qed.

Section draws.
Context {G : Type} `{BitGenerator G}.
Context {Var ArrVar NumVar : Type}.
Local Abbreviation St := (Interp G (Namespace Var ArrVar NumVar)).

Lemma np_random_choice_ok (a : list Qc) (size : Z) (st : St) :
  (0 ≤ size ≤ Z.of_nat (length a))%Z →
  ∃ sampled,
    np_random_choice a size st
    = (Ok sampled,
       {| bitgen := (RandomState.permutation (length a) (bitgen st)).2;
          draws := draws st ++ [sampled];
          globals := globals st |})
    ∧ length sampled = Z.to_nat size
    ∧ sampled ⊆+ a.
Proof.
  intros Hsize. unfold np_random_choice.
  destruct (choice_ok a size (bitgen st) Hsize) as (sampled & -> & Hsel).
  exists sampled. split; [done|]. split.
  - apply Forall2_length in Hsel as <-.
    destruct (choice_indexes (length a) (Z.to_nat size) (bitgen st))
      as (_ & _ & ->). lia.
  - by eapply selection_submseteq.
Qed.

Lemma np_random_choice_raises (a : list Qc) (size : Z) (st : St) :
  (Z.of_nat (length a) < size)%Z →
  ∃ msg, np_random_choice a size st = (Raise (ValueError msg), st).
Proof.
  intros Hsize. unfold np_random_choice.
  destruct (choice_raises a size (bitgen st) Hsize) as (msg & ->).
  exists msg. by destruct st.
Qed.
End draws.

Section ksfinal.
Context {G : Type} `{BitGenerator G} `{KSDistributions}.
Import KSFinal.
Local Abbreviation St := (Interp G (Namespace Var ArrVar NumVar)).

Lemma KSFinal_iteration_ok (rnp : list Qc) (s : Z) (i : nat) (st : St) :
  (0 < s ≤ Z.of_nat (length rnp))%Z →
  ∃ sampled fr d p st',
    iteration rnp s i st = (Ok (), st')
    ∧ sampled ⊆+ rnp ∧ length sampled = Z.to_nat s
    ∧ percent_above_200 sampled = Ok fr
    ∧ Scipy.kstest sampled rnp = Ok (d, p)
    ∧ draws st' = draws st ++ [sampled]
    ∧ bitgen st' = (RandomState.permutation (length rnp) (bitgen st)).2
    ∧ lists (globals st') cur_fr_above_200
      = lists (globals st) cur_fr_above_200 ++ [fr]
    ∧ lists (globals st') cur_sample_ksd
      = lists (globals st) cur_sample_ksd ++ [d]
    ∧ lists (globals st') cur_sample_ksp
      = lists (globals st) cur_sample_ksp ++ [p]
    ∧ (∀ v, v ≠ cur_fr_above_200 → v ≠ cur_sample_ksd → v ≠ cur_sample_ksp →
            lists (globals st') v = lists (globals st) v)
    ∧ arrs (globals st') = arrs (globals st)
    ∧ nums (globals st') = nums (globals st).
Proof.
  intros Hs.
  destruct (np_random_choice_ok rnp s st ltac:(lia))
    as (sampled & Hdraw & Hlen & Hsub).
  assert (sampled ≠ []) as Hne by (intros ->; simpl in Hlen; lia).
  assert (rnp ≠ []) as Hpop by (intros ->; simpl in Hs; lia).
  destruct (ks_2samp_ok sampled rnp Hne Hpop) as (d & p & Hks).
  pose proof (percent_above_200_spec sampled Hne) as Hfr.
  unfold iteration. rewrite (bind_ok _ _ _ _ _ Hdraw).
  erewrite bind_call_ok by exact Hfr. py_step.
  erewrite bind_call_ok by exact Hks. py_step. unfold append.
  eexists sampled, _, d, p, _.
  split; [reflexivity|]. store_simpl. simpl.
  repeat (split; [done|]).
  split; [|done]. intros v ???. by store_simpl.
Qed.

Lemma KSFinal_iteration_raises (rnp : list Qc) (s : Z) (i : nat) (st : St) :
  (Z.of_nat (length rnp) < s)%Z →
  ∃ msg, iteration rnp s i st = (Raise (ValueError msg), st).
Proof.
  intros Hs. destruct (np_random_choice_raises rnp s st Hs) as (msg & Hdraw).
  exists msg. unfold iteration. by rewrite (bind_raise _ _ _ _ _ Hdraw).
Qed.

Lemma KSFinal_summarize_spec (st : St) :
  lists (globals st) cur_sample_ksd ≠ [] →
  lists (globals st) cur_sample_ksp ≠ [] →
  lists (globals st) cur_fr_above_200 ≠ [] →
  ∃ st', summarize st = (Ok (), st')
    ∧ appends_percentile st st' sample_ksd_lower_bounds
        (lists (globals st) cur_sample_ksd) 5
    ∧ appends_percentile st st' sample_ksd_upper_bounds
        (lists (globals st) cur_sample_ksd) 95
    ∧ appends_percentile st st' sample_ksd_medians
        (lists (globals st) cur_sample_ksd) 50
    ∧ appends_percentile st st' sample_ksp_lower_bounds
        (lists (globals st) cur_sample_ksp) 5
    ∧ appends_percentile st st' sample_ksp_upper_bounds
        (lists (globals st) cur_sample_ksp) 95
    ∧ appends_percentile st st' sample_ksp_medians
        (lists (globals st) cur_sample_ksp) 50
    ∧ appends_percentile st st' fr_above_200
        (lists (globals st) cur_fr_above_200) 50
    ∧ appends_percentile st st' fr_above_200_lower_bounds
        (lists (globals st) cur_fr_above_200) 5
    ∧ appends_percentile st st' fr_above_200_upper_bounds
        (lists (globals st) cur_fr_above_200) 95
    ∧ arrs (globals st') sample_arrs_ksd
      = arrs (globals st) sample_arrs_ksd ++ [lists (globals st) cur_sample_ksd]
    ∧ arrs (globals st') sample_arrs_ksp
      = arrs (globals st) sample_arrs_ksp ++ [lists (globals st) cur_sample_ksp]
    ∧ lists (globals st') cur_sample_ksd = lists (globals st) cur_sample_ksd
    ∧ lists (globals st') cur_sample_ksp = lists (globals st) cur_sample_ksp
    ∧ lists (globals st') cur_fr_above_200 = lists (globals st) cur_fr_above_200
    ∧ nums (globals st') = nums (globals st)
    ∧ bitgen st' = bitgen st ∧ draws st' = draws st.
Proof.
  intros Hd Hp Hf.
  destruct (percentile_ok _ 5 Hd ltac:(lia)) as [dl Hdl].
  destruct (percentile_ok _ 95 Hd ltac:(lia)) as [du Hdu].
  destruct (percentile_ok _ 50 Hd ltac:(lia)) as [dm Hdm].
  destruct (percentile_ok _ 5 Hp ltac:(lia)) as [pl Hpl].
  destruct (percentile_ok _ 95 Hp ltac:(lia)) as [pu Hpu].
  destruct (percentile_ok _ 50 Hp ltac:(lia)) as [pm Hpm].
  destruct (percentile_ok _ 50 Hf ltac:(lia)) as [fm Hfm].
  destruct (percentile_ok _ 5 Hf ltac:(lia)) as [fl Hfl].
  destruct (percentile_ok _ 95 Hf ltac:(lia)) as [fu Hfu].
  unfold summarize, appends_percentile.
  do 30 py_step. unfold append.
  eexists. split; [reflexivity|]. store_simpl.
  repeat (split; [by eauto|]). done.
Qed.
End ksfinal.

Section ks_script.
Context {G : Type} `{BitGenerator G} `{KSDistributions}.
Import KS.
Local Abbreviation St := (Interp G (Namespace Var ArrVar NumVar)).

Lemma KS_iteration_ok (rnp : list Qc) (s : Z) (i : nat) (st : St) :
  (0 < s ≤ Z.of_nat (length rnp))%Z →
  ∃ sampled d p st',
    iteration rnp s i st = (Ok (), st')
    ∧ sampled ⊆+ rnp ∧ length sampled = Z.to_nat s
    ∧ Scipy.kstest sampled rnp = Ok (d, p)
    ∧ draws st' = draws st ++ [sampled]
    ∧ bitgen st' = (RandomState.permutation (length rnp) (bitgen st)).2
    ∧ lists (globals st') cur_sample_ksd
      = lists (globals st) cur_sample_ksd ++ [d]
    ∧ lists (globals st') cur_sample_ksp
      = lists (globals st) cur_sample_ksp ++ [p]
    ∧ (∀ v, v ≠ cur_sample_ksd → v ≠ cur_sample_ksp →
            lists (globals st') v = lists (globals st) v)
    ∧ arrs (globals st') = arrs (globals st).
Proof.
  intros Hs.
  destruct (np_random_choice_ok rnp s st ltac:(lia))
    as (sampled & Hdraw & Hlen & Hsub).
  assert (sampled ≠ []) as Hne by (intros ->; simpl in Hlen; lia).
  assert (rnp ≠ []) as Hpop by (intros ->; simpl in Hs; lia).
  destruct (ks_2samp_ok sampled rnp Hne Hpop) as (d & p & Hks).
  unfold iteration. rewrite (bind_ok _ _ _ _ _ Hdraw).
  erewrite bind_call_ok by exact Hks. py_step. cbn [fst snd].
  case_decide.
  - do 4 py_step. unfold append.
    eexists sampled, d, p, _.
    split; [reflexivity|]. store_simpl. simpl.
    repeat (split; [done|]).
    split; [|done]. intros v ??. by store_simpl.
  - do 2 py_step. unfold append.
    eexists sampled, d, p, _.
    split; [reflexivity|]. store_simpl. simpl.
    repeat (split; [done|]).
    split; [|done]. intros v ??. by store_simpl.
Qed.

Lemma KS_summarize_spec (st : St) :
  lists (globals st) cur_sample_ksd ≠ [] →
  lists (globals st) cur_sample_ksp ≠ [] →
  ∃ st', summarize st = (Ok (), st')
    ∧ appends_percentile st st' sample_ksd_lower_bounds
        (lists (globals st) cur_sample_ksd) 5
    ∧ appends_percentile st st' sample_ksd_upper_bounds
        (lists (globals st) cur_sample_ksd) 95
    ∧ appends_percentile st st' sample_ksd_medians
        (lists (globals st) cur_sample_ksd) 50
    ∧ appends_percentile st st' sample_ksp_lower_bounds
        (lists (globals st) cur_sample_ksp) 5
    ∧ appends_percentile st st' sample_ksp_upper_bounds
        (lists (globals st) cur_sample_ksp) 95
    ∧ appends_percentile st st' sample_ksp_medians
        (lists (globals st) cur_sample_ksp) 50
    ∧ arrs (globals st') sample_arrs_ksd
      = arrs (globals st) sample_arrs_ksd ++ [lists (globals st) cur_sample_ksd]
    ∧ arrs (globals st') sample_arrs_ksp
      = arrs (globals st) sample_arrs_ksp ++ [lists (globals st) cur_sample_ksp]
    ∧ bitgen st' = bitgen st ∧ draws st' = draws st.
Proof.
  intros Hd Hp.
  destruct (percentile_ok _ 5 Hd ltac:(lia)) as [dl Hdl].
  destruct (percentile_ok _ 95 Hd ltac:(lia)) as [du Hdu].
  destruct (percentile_ok _ 50 Hd ltac:(lia)) as [dm Hdm].
  destruct (percentile_ok _ 5 Hp ltac:(lia)) as [pl Hpl].
  destruct (percentile_ok _ 95 Hp ltac:(lia)) as [pu Hpu].
  destruct (percentile_ok _ 50 Hp ltac:(lia)) as [pm Hpm].
  unfold summarize, appends_percentile.
  do 21 py_step. unfold append_arr.
  eexists. split; [reflexivity|]. store_simpl.
  repeat (split; [by eauto|]). done.
Qed.
End ks_script.

Section gm_script.
Context {G : Type} `{BitGenerator G}.
Import Gm.
Local Abbreviation St := (Interp G (Namespace Var ArrVar NumVar)).

Lemma Gm_iteration_raises (rnp : list Qc) (s : Z) (i : nat) (st : St) :
  (Z.of_nat (length rnp) < s)%Z →
  ∃ msg, iteration rnp s i st = (Raise (ValueError msg), st).
Proof.
  intros Hs. destruct (np_random_choice_raises rnp s st Hs) as (msg & Hdraw).
  exists msg. unfold iteration. by rewrite (bind_raise _ _ _ _ _ Hdraw).
Qed.

(** An entry whose first draw fails: only [cur_sample_gm_means] has
    been rebound, to the empty list. *)
Lemma Gm_sweep_entry_raises (rnp : list Qc) (num_iterations : nat) (s : Z) (st : St) :
  (0 < num_iterations)%nat → (Z.of_nat (length rnp) < s)%Z →
  ∃ msg, sweep_entry rnp num_iterations s st
         = (Raise (ValueError msg), set_list cur_sample_gm_means [] st).
Proof.
  intros Hn Hs. unfold sweep_entry. py_step.
  destruct num_iterations as [|n]; [lia|].
  destruct (Gm_iteration_raises rnp s 0 (set_list cur_sample_gm_means [] st) Hs)
    as (msg & Hit).
  exists msg. apply bind_raise. unfold for_range. cbn [seq].
  by apply for_each_cons_raise.
Qed.
End gm_script.

Section ksfinal_script.
Context {G : Type} `{BitGenerator G} `{KSDistributions} `{PyMath}.
Import KSFinal.
Local Abbreviation St := (Interp G (Namespace Var ArrVar NumVar)).

Lemma of_int_mul (a b : Z) : of_int (a * b) = of_int a * of_int b.
Proof. apply Z2Qc_inj_mul. Qed.

Lemma KSFinal_critical_value_ok (s : Z) :
  s ≠ 0%Z →
  critical_value s
  = Ok (decimal 136 100
        * pow_half ((of_int s + of_int 1000000) / (of_int s * of_int 1000000))).
Proof.
  intros Hs. unfold critical_value, truediv.
  rewrite decide_False; [done|].
  rewrite <- of_int_mul, <- of_int_0. intros Heq%Z2Qc_inj. lia.
Qed.

Lemma KSFinal_sweep_entry_raises (rnp : list Qc) (num_iterations : nat) (s : Z) (st : St) :
  (0 < num_iterations)%nat → (Z.of_nat (length rnp) < s)%Z →
  ∃ msg crit,
    sweep_entry rnp num_iterations s st
    = (Raise (ValueError msg),
       set_num count_above_crit 0
         (set_num crit_value crit
            (set_list cur_fr_above_200 []
               (set_list cur_sample_ksp []
                  (set_list cur_sample_ksd [] st))))).
Proof.
  intros Hn Hs. unfold sweep_entry. do 3 py_step.
  erewrite bind_call_ok by (apply KSFinal_critical_value_ok; lia).
  do 2 py_step.
  destruct num_iterations as [|n]; [lia|].
  edestruct (KSFinal_iteration_raises rnp s 0) as (msg & Hit); [exact Hs|].
  exists msg. eexists. apply bind_raise. unfold for_range. cbn [seq].
  apply for_each_cons_raise. exact Hit.
Qed.
End ksfinal_script.

Lemma percentile_singleton (x p : Qc) :
  0 ≤ p → p ≤ of_int 100 → Numpy.percentile [x] p = Ok x.
Proof.
  intros H0 H100. rewrite percentile_interpolate by done. f_equal.
  assert (Numpy.get_virtual_index (length [x]) (p / of_int 100) = 0) as ->.
  { unfold Numpy.get_virtual_index. simpl.
    assert (of_nat 1 = 1) as -> by (apply Qc_is_canon; reflexivity). ring. }
  unfold interpolate.
  assert (floorZ 0 = 0%Z) as -> by reflexivity.
  assert (Numpy.sort [x] = [x]) as -> by reflexivity.
  unfold order_stat. simpl. ring.
Qed.

Lemma percentile_singleton_int (x : Qc) (p : Z) :
  (0 ≤ p ≤ 100)%Z → Numpy.percentile [x] (of_int p) = Ok x.
Proof.
  intros [H0 H100]. apply percentile_singleton.
  - rewrite <- of_int_0. by apply (proj1 (of_int_le _ _)).
  - by apply (proj1 (of_int_le _ _)).
Qed.

Lemma appends_percentile_singleton {G V A N : Type}
    (st st' : Interp G (Namespace V A N)) (v : V) (x : Qc) (p : Z) :
  (0 ≤ p ≤ 100)%Z → appends_percentile st st' v [x] p →
  lists (globals st') v = lists (globals st) v ++ [x].
Proof.
  intros Hp (y & Hy & ->). rewrite percentile_singleton_int in Hy by done.
  by simplify_eq.
Qed.

(** A draw of the whole population is a rearrangement of it. *)
Lemma full_draw_Permutation (rnp sampled : list Qc) :
  sampled ⊆+ rnp → length sampled = length rnp → sampled ≡ₚ rnp.
Proof. intros Hsub Hlen. apply submseteq_length_Permutation; [done|lia]. Qed.

Section full_population.
Context {G : Type} `{BitGenerator G} `{KSDistributions} `{PyMath}.

Lemma KSFinal_iteration_full_population (rnp : list Qc) (i : nat)
    (st : Interp G (Namespace KSFinal.Var KSFinal.ArrVar KSFinal.NumVar)) :
  rnp ≠ [] →
  ∃ st', KSFinal.iteration rnp (Z.of_nat (length rnp)) i st = (Ok (), st')
    ∧ lists (globals st') KSFinal.cur_sample_ksd
      = lists (globals st) KSFinal.cur_sample_ksd ++ [0]
    ∧ lists (globals st') KSFinal.cur_sample_ksp
      = lists (globals st) KSFinal.cur_sample_ksp ++ [1].
Proof.
  intros Hne.
  assert (0 < length rnp)%nat by (destruct rnp; simpl; [done|lia]).
  destruct (KSFinal_iteration_ok rnp (Z.of_nat (length rnp)) i st ltac:(lia))
    as (sampled & fr & d & p & st' & Hrun & Hsub & Hlen & _ & Hks & _ & _ & _
        & Hd & Hp & _).
  rewrite Nat2Z.id in Hlen.
  unfold Scipy.kstest in Hks.
  rewrite (ks_2samp_same_data sampled rnp) in Hks
    by (by apply full_draw_Permutation || done).
  simplify_eq. by exists st'.
Qed.

Lemma KS_iteration_full_population (rnp : list Qc) (i : nat)
    (st : Interp G (Namespace KS.Var KS.ArrVar KS.NumVar)) :
  rnp ≠ [] →
  ∃ st', KS.iteration rnp (Z.of_nat (length rnp)) i st = (Ok (), st')
    ∧ lists (globals st') KS.cur_sample_ksd
      = lists (globals st) KS.cur_sample_ksd ++ [0]
    ∧ lists (globals st') KS.cur_sample_ksp
      = lists (globals st) KS.cur_sample_ksp ++ [1].
Proof.
  intros Hne.
  assert (0 < length rnp)%nat by (destruct rnp; simpl; [done|lia]).
  destruct (KS_iteration_ok rnp (Z.of_nat (length rnp)) i st ltac:(lia))
    as (sampled & d & p & st' & Hrun & Hsub & Hlen & Hks & _ & _ & Hd & Hp & _).
  rewrite Nat2Z.id in Hlen.
  unfold Scipy.kstest in Hks.
  rewrite (ks_2samp_same_data sampled rnp) in Hks
    by (by apply full_draw_Permutation || done).
  simplify_eq. by exists st'.
Qed.

(** The whole entry for [s = len(rnp)] and one iteration. *)
Lemma KSFinal_entry_full_population (rnp : list Qc)
    (st : Interp G (Namespace KSFinal.Var KSFinal.ArrVar KSFinal.NumVar)) :
  rnp ≠ [] →
  ∃ st', KSFinal.sweep_entry rnp 1 (Z.of_nat (length rnp)) st = (Ok (), st')
    ∧ arrs (globals st') KSFinal.sample_arrs_ksd
      = arrs (globals st) KSFinal.sample_arrs_ksd ++ [[0]]
    ∧ arrs (globals st') KSFinal.sample_arrs_ksp
      = arrs (globals st) KSFinal.sample_arrs_ksp ++ [[1]]
    ∧ lists (globals st') KSFinal.sample_ksd_medians
      = lists (globals st) KSFinal.sample_ksd_medians ++ [0]
    ∧ lists (globals st') KSFinal.sample_ksp_medians
      = lists (globals st) KSFinal.sample_ksp_medians ++ [1].
Proof.
  intros Hne.
  assert (0 < length rnp)%nat by (destruct rnp; simpl; [done|lia]).
  unfold KSFinal.sweep_entry. do 3 py_step.
  erewrite bind_call_ok by (apply KSFinal_critical_value_ok; lia).
  do 2 py_step.
  unfold for_range. cbn [seq for_each]. rewrite bind_assoc.
  match goal with
  | |- context [(KSFinal.iteration _ _ _ ≫= _) ?s] => set (st0 := s)
  end.
  destruct (KSFinal_iteration_ok rnp (Z.of_nat (length rnp)) 0 st0 ltac:(lia))
    as (sampled & fr & d & p & st1 & Hrun & Hsub & Hlen & _ & Hks & _ & _ & Hfr
        & Hd & Hp & Hother & Harrs & _).
  rewrite Nat2Z.id in Hlen. unfold Scipy.kstest in Hks.
  rewrite (ks_2samp_same_data sampled rnp) in Hks
    by (by apply full_draw_Permutation || done).
  simplify_eq.
  rewrite (bind_ok _ _ _ _ _ Hrun). rewrite bind_ret.
  subst st0. revert Hfr Hd Hp Hother Harrs. store_simpl. simpl.
  intros Hfr Hd Hp Hother Harrs.
  destruct (KSFinal_summarize_spec st1) as (st' & Hsum & Hres);
    [by rewrite Hd|by rewrite Hp|by rewrite Hfr|].
  exists st'. split; [done|].
  destruct Hres as (_ & _ & Hdm & _ & _ & Hpm & _ & _ & _ & Had & Hap & _).
  rewrite Hd in Hdm, Had. rewrite Hp in Hpm, Hap.
  apply appends_percentile_singleton in Hdm; [|lia].
  apply appends_percentile_singleton in Hpm; [|lia].
  rewrite Had, Hap, Hdm, Hpm, Harrs, !Hother by done.
  by store_simpl.
Qed.
End full_population.

Section ks_entry.
Context {G : Type} `{BitGenerator G} `{KSDistributions} `{PyMath}.

Lemma KS_critical_value_ok (s : Z) :
  s ≠ 0%Z →
  KS.critical_value s
  = Ok (decimal 136 100
        * pow_half ((of_int s + of_int 1000000) / (of_int s * of_int 1000000))).
Proof.
  intros Hs. unfold KS.critical_value, truediv.
  rewrite decide_False; [done|].
  rewrite <- of_int_mul, <- of_int_0. intros Heq%Z2Qc_inj. lia.
Qed.

Lemma KS_entry_full_population (rnp : list Qc)
    (st : Interp G (Namespace KS.Var KS.ArrVar KS.NumVar)) :
  rnp ≠ [] →
  ∃ st', KS.sweep_entry rnp 1 (Z.of_nat (length rnp)) st = (Ok (), st')
    ∧ arrs (globals st') KS.sample_arrs_ksd
      = arrs (globals st) KS.sample_arrs_ksd ++ [[0]]
    ∧ arrs (globals st') KS.sample_arrs_ksp
      = arrs (globals st) KS.sample_arrs_ksp ++ [[1]]
    ∧ lists (globals st') KS.sample_ksd_medians
      = lists (globals st) KS.sample_ksd_medians ++ [0]
    ∧ lists (globals st') KS.sample_ksp_medians
      = lists (globals st) KS.sample_ksp_medians ++ [1].
Proof.
  intros Hne.
  assert (0 < length rnp)%nat by (destruct rnp; simpl; [done|lia]).
  unfold KS.sweep_entry. do 2 py_step.
  erewrite bind_call_ok by (apply KS_critical_value_ok; lia).
  do 2 py_step.
  unfold for_range. cbn [seq for_each]. rewrite bind_assoc.
  match goal with
  | |- context [(KS.iteration _ _ _ ≫= _) ?s] => set (st0 := s)
  end.
  destruct (KS_iteration_ok rnp (Z.of_nat (length rnp)) 0 st0 ltac:(lia))
    as (sampled & d & p & st1 & Hrun & Hsub & Hlen & Hks & _ & _
        & Hd & Hp & Hother & Harrs).
  rewrite Nat2Z.id in Hlen. unfold Scipy.kstest in Hks.
  rewrite (ks_2samp_same_data sampled rnp) in Hks
    by (by apply full_draw_Permutation || done).
  simplify_eq.
  rewrite (bind_ok _ _ _ _ _ Hrun). rewrite bind_ret.
  subst st0. revert Hd Hp Hother Harrs. store_simpl. simpl.
  intros Hd Hp Hother Harrs.
  destruct (KS_summarize_spec st1) as (st' & Hsum & Hres);
    [by rewrite Hd|by rewrite Hp|].
  exists st'. split; [done|].
  destruct Hres as (_ & _ & Hdm & _ & _ & Hpm & Had & Hap & _).
  rewrite Hd in Hdm, Had. rewrite Hp in Hpm, Hap.
  apply appends_percentile_singleton in Hdm; [|lia].
  apply appends_percentile_singleton in Hpm; [|lia].
  rewrite Had, Hap, Hdm, Hpm, Harrs, !Hother by done.
  by store_simpl.
Qed.
End ks_entry.

(** ** Runs that differ only in their scalar variables *)

Section agreement.
Context {G : Type} `{BitGenerator G}.
Context {Var ArrVar NumVar : Type}.
Context `{EqDecision Var, EqDecision ArrVar, EqDecision NumVar}.
Local Abbreviation St := (Interp G (Namespace Var ArrVar NumVar)).

(** Same generator state, same trace, same lists; the scalars are
    free. *)
Definition agree (st1 st2 : St) : Prop :=
  bitgen st1 = bitgen st2 ∧ draws st1 = draws st2
  ∧ (∀ v, lists (globals st1) v = lists (globals st2) v)
  ∧ (∀ a, arrs (globals st1) a = arrs (globals st2) a).

Definition agree_out {A} (RA : A → A → Prop) (o1 o2 : Result A * St) : Prop :=
  agree o1.2 o2.2
  ∧ match o1.1, o2.1 with
    | Ok a1, Ok a2 => RA a1 a2
    | Raise e1, Raise e2 => e1 = e2
    | _, _ => False
    end.

Definition corresponds {A} (RA : A → A → Prop) (m1 m2 : Py St A) : Prop :=
  ∀ st1 st2, agree st1 st2 → agree_out RA (m1 st1) (m2 st2).

Lemma corresponds_bind {A B} (RA : A → A → Prop) (RB : B → B → Prop)
    (m1 m2 : Py St A) (f1 f2 : A → Py St B) :
  corresponds RA m1 m2 →
  (∀ a1 a2, RA a1 a2 → corresponds RB (f1 a1) (f2 a2)) →
  corresponds RB (m1 ≫= f1) (m2 ≫= f2).
Proof.
  intros Hm Hf st1 st2 Hst. specialize (Hm st1 st2 Hst).
  unfold mbind, Py_bind.
  destruct (m1 st1) as [[a1|e1] st1'], (m2 st2) as [[a2|e2] st2'];
    destruct Hm as [Hag Hres]; simpl in *; try done.
  by apply Hf.
Qed.

Lemma corresponds_ret {A} (RA : A → A → Prop) (a1 a2 : A) :
  RA a1 a2 → corresponds RA (mret a1) (mret a2).
Proof. intros Ha st1 st2 Hst. by split. Qed.

Lemma corresponds_call {A} (r : Result A) : corresponds eq (call r) (call r).
Proof. intros st1 st2 Hst. split; [done|]. by destruct r. Qed.

Lemma corresponds_read (v : Var) : corresponds eq (read v) (read v).
Proof. intros st1 st2 Hst. split; [done|]. simpl. apply Hst. Qed.

Lemma corresponds_read_num (n : NumVar) :
  corresponds (λ _ _, True) (read_num n) (read_num n).
Proof. intros st1 st2 Hst. by split. Qed.

Lemma corresponds_assign (v : Var) (l : list Qc) :
  corresponds eq (assign v l) (assign v l).
Proof.
  intros st1 st2 (Hg & Hd & Hl & Ha). split; [|done]. simpl.
  repeat split; store_simpl; try done.
  intros v'. rewrite !lists_set_list. by case_decide.
Qed.

Lemma corresponds_append (v : Var) (x : Qc) :
  corresponds eq (append v x) (append v x).
Proof.
  intros st1 st2 (Hg & Hd & Hl & Ha). split; [|done]. simpl.
  repeat split; store_simpl; try done.
  intros v'. rewrite !lists_set_list, Hl. by case_decide.
Qed.

Lemma corresponds_append_arr (a : ArrVar) (l : list Qc) :
  corresponds eq (append_arr a l) (append_arr a l).
Proof.
  intros st1 st2 (Hg & Hd & Hl & Ha). split; [|done]. simpl.
  repeat split; store_simpl; try done.
  intros a'. destruct (decide (a = a')) as [->|Hne].
  - by rewrite !arrs_set_arr_eq, Ha.
  - by rewrite !arrs_set_arr_ne.
Qed.

Lemma corresponds_assign_num (n : NumVar) (x1 x2 : Qc) :
  corresponds eq (assign_num n x1) (assign_num n x2).
Proof.
  intros st1 st2 (Hg & Hd & Hl & Ha). split; [|done]. simpl.
  repeat split; by store_simpl.
Qed.

Lemma corresponds_choice (a : list Qc) (size : Z) :
  corresponds eq (np_random_choice a size) (np_random_choice a size).
Proof.
  intros st1 st2 (Hg & Hd & Hl & Ha). unfold np_random_choice.
  rewrite Hg, Hd.
  destruct (RandomState.choice a size (bitgen st2)) as [[sampled|e] g'];
    by repeat split.
Qed.

Lemma corresponds_for_each {A} (l : list A) (b1 b2 : A → Py St ()) :
  (∀ x, corresponds eq (b1 x) (b2 x)) →
  corresponds eq (for_each l b1) (for_each l b2).
Proof.
  intros Hb. induction l as [|x l IH]; cbn [for_each].
  - by apply corresponds_ret.
  - eapply corresponds_bind; [apply Hb|]. by intros.
Qed.
End agreement.

Ltac corr_prim :=
  first
    [ apply corresponds_append | apply corresponds_assign
    | apply corresponds_append_arr | apply corresponds_assign_num
    | apply corresponds_call | apply corresponds_read
    | apply corresponds_read_num | apply corresponds_choice
    | by apply corresponds_ret ].

Ltac corr :=
  repeat first
    [ corr_prim
    | eapply corresponds_bind; [solve [corr_prim]|intros ? ? ?; simplify_eq] ].

Section noninterference.
Context {G : Type} `{BitGenerator G} `{KSDistributions}.
Variables (M1 M2 : PyMath).

Lemma KSFinal_critical_value_corresponds (s : Z) :
  corresponds (Var := KSFinal.Var) (ArrVar := KSFinal.ArrVar)
    (NumVar := KSFinal.NumVar) (G := G) (λ _ _, True)
    (call (@KSFinal.critical_value M1 s))
    (call (@KSFinal.critical_value M2 s)).
Proof.
  intros st1 st2 Hst. split; [done|]. simpl.
  unfold KSFinal.critical_value. by destruct (truediv _ _).
Qed.

Lemma KSFinal_iteration_corresponds (rnp : list Qc) (s : Z) (i : nat) :
  corresponds (G := G) eq (KSFinal.iteration rnp s i) (KSFinal.iteration rnp s i).
Proof. unfold KSFinal.iteration. corr. Qed.

Lemma KSFinal_summarize_corresponds :
  corresponds (G := G) eq KSFinal.summarize KSFinal.summarize.
Proof. unfold KSFinal.summarize. corr. Qed.

Lemma KSFinal_sweep_corresponds (rnp : list Qc) (num_iterations : nat)
    (sample_sizes : list Z) :
  corresponds (G := G) eq
    (@KSFinal.sweep G _ _ M1 rnp num_iterations sample_sizes)
    (@KSFinal.sweep G _ _ M2 rnp num_iterations sample_sizes).
Proof.
  unfold KSFinal.sweep. apply corresponds_for_each. intros s.
  unfold KSFinal.sweep_entry.
  do 3 (eapply corresponds_bind; [solve [corr_prim]|intros ? ? _]).
  eapply corresponds_bind; [apply KSFinal_critical_value_corresponds|].
  intros crit1 crit2 _.
  do 2 (eapply corresponds_bind; [solve [corr_prim]|intros ? ? _]).
  eapply corresponds_bind; [|intros ? ? _; apply KSFinal_summarize_corresponds].
  apply corresponds_for_each. intros i. apply KSFinal_iteration_corresponds.
Qed.

Lemma KS_critical_value_corresponds (s : Z) :
  corresponds (Var := KS.Var) (ArrVar := KS.ArrVar)
    (NumVar := KS.NumVar) (G := G) (λ _ _, True)
    (call (@KS.critical_value M1 s))
    (call (@KS.critical_value M2 s)).
Proof.
  intros st1 st2 Hst. split; [done|]. simpl.
  unfold KS.critical_value. by destruct (truediv _ _).
Qed.

(** The [count_above_crit] update touches scalars only. *)
Lemma KS_count_corresponds_skip :
  corresponds (G := G) (Var := KS.Var) (ArrVar := KS.ArrVar) eq
    (count ← read_num KS.count_above_crit;
     assign_num KS.count_above_crit (count + 1))
    (mret ()).
Proof.
  intros st1 st2 (Hg & Hd & Hl & Ha). split; [|done]. simpl.
  repeat split; by store_simpl.
Qed.

Lemma KS_skip_corresponds_count :
  corresponds (G := G) (Var := KS.Var) (ArrVar := KS.ArrVar) eq
    (mret ())
    (count ← read_num KS.count_above_crit;
     assign_num KS.count_above_crit (count + 1)).
Proof.
  intros st1 st2 (Hg & Hd & Hl & Ha). split; [|done]. simpl.
  repeat split; by store_simpl.
Qed.

Lemma KS_count_corresponds :
  corresponds (G := G) (Var := KS.Var) (ArrVar := KS.ArrVar) eq
    (count ← read_num KS.count_above_crit;
     assign_num KS.count_above_crit (count + 1))
    (count ← read_num KS.count_above_crit;
     assign_num KS.count_above_crit (count + 1)).
Proof.
  intros st1 st2 (Hg & Hd & Hl & Ha). split; [|done]. simpl.
  repeat split; by store_simpl.
Qed.

Lemma KS_iteration_corresponds (rnp : list Qc) (s : Z) (i : nat) :
  corresponds (G := G) eq (KS.iteration rnp s i) (KS.iteration rnp s i).
Proof.
  unfold KS.iteration.
  eapply corresponds_bind; [solve [corr_prim]|intros sampled ? <-].
  eapply corresponds_bind; [solve [corr_prim]|intros ks ? <-].
  eapply corresponds_bind; [apply corresponds_read_num|intros crit1 crit2 _].
  eapply corresponds_bind with (RA := eq); [|intros ? ? _; corr].
  repeat case_decide;
    [ apply KS_count_corresponds | apply KS_count_corresponds_skip
    | apply KS_skip_corresponds_count | by apply corresponds_ret ].
Qed.

Lemma KS_summarize_corresponds :
  corresponds (G := G) eq KS.summarize KS.summarize.
Proof. unfold KS.summarize. corr. Qed.

Lemma KS_sweep_corresponds (rnp : list Qc) (num_iterations : nat)
    (sample_sizes : list Z) :
  corresponds (G := G) eq
    (@KS.sweep G _ _ M1 rnp num_iterations sample_sizes)
    (@KS.sweep G _ _ M2 rnp num_iterations sample_sizes).
Proof.
  unfold KS.sweep. apply corresponds_for_each. intros s.
  unfold KS.sweep_entry.
  do 2 (eapply corresponds_bind; [solve [corr_prim]|intros ? ? _]).
  eapply corresponds_bind; [apply KS_critical_value_corresponds|].
  intros crit1 crit2 _.
  do 2 (eapply corresponds_bind; [solve [corr_prim]|intros ? ? _]).
  eapply corresponds_bind; [|intros ? ? _; apply KS_summarize_corresponds].
  apply corresponds_for_each. intros i. apply KS_iteration_corresponds.
Qed.
End noninterference.

Lemma agree_refl {G V A N : Type} (st : Interp G (Namespace V A N)) : agree st st.
Proof. by repeat split. Qed.

(** * The claims *)

(** Deciding a closed equation over [Qc] by evaluation. *)
Ltac by_compute :=
  match goal with
  | |- ?P => apply (bool_decide_eq_true_1 P); vm_compute; reflexivity
  end.

(** Orders between integer literals. *)
Ltac of_int_order :=
  rewrite <- ?of_int_0;
  first [apply (proj1 (of_int_le _ _)) | apply (proj1 (of_int_lt _ _))]; lia.

(** ** Running the scripts *)

(** A subsample 50, 300 of the population 50, 250, 300: D = 1/6. *)
Example ks_2samp_two_of_three :
  @Scipy.ks_2samp Demo.ks [of_int 50; of_int 300] demo_rnp
  = Ok (decimal 1 6, 1).
Proof. by_compute. Qed.

(** [bootstrap_radon_levels_KS_FINAL.py] on the population 50, 250, 300
    with two iterations and the sample sizes 2 and 3: four draws, and one
    median of the D-statistic per sample size. *)
Example ksfinal_run_two_sizes :
  let r := @KSFinal.run Z Demo.lcg Demo.ks Demo.math demo_rnp 2 [2; 3]%Z 2024%Z in
  r.1 = Ok ()
  ∧ length (draws r.2) = 4%nat
  ∧ lists (globals r.2) KSFinal.sample_ksd_medians = [decimal 1 4; 0]
  ∧ lists (globals r.2) KSFinal.sample_ksp_medians = [1; 1]
  ∧ arrs (globals r.2) KSFinal.sample_arrs_ksd
    = [[decimal 1 3; decimal 1 6]; [0; 0]].
Proof. cbv zeta. repeat split; by_compute. Qed.

(** The same run with the sample size 5 between them stops there. *)
Example ksfinal_run_stops_at_oversized_sample :
  let r := @KSFinal.run Z Demo.lcg Demo.ks Demo.math demo_rnp 2 [2; 5; 3]%Z 2024%Z in
  r.1 = Raise (ValueError
          "Cannot take a larger sample than population when 'replace=False'")
  ∧ length (draws r.2) = 2%nat
  ∧ lists (globals r.2) KSFinal.sample_ksd_medians = [decimal 1 4].
Proof. cbv zeta. repeat split; by_compute. Qed.

(** [bootstrap_radon_levels.py] with three iterations and the sample
    sizes 1, 2 and 3. *)
Example gm_run_three_sizes :
  let r := @Gm.run Z Demo.lcg demo_rnp 3 [1; 2; 3]%Z 7%Z in
  r.1 = Ok ()
  ∧ lists (globals r.2) Gm.sample_gm_lower_bounds
    = [of_int 250; of_int 185; of_int 250]
  ∧ lists (globals r.2) Gm.sample_gm_upper_bounds
    = [of_int 295; of_int 275; of_int 250].
Proof. cbv zeta. repeat split; by_compute. Qed.

(** ** Whole entries of [bootstrap_radon_levels_KS_FINAL.py] *)

Section ksfinal_entry.
Context {G : Type} `{BitGenerator G} `{KSDistributions} `{PyMath}.
Local Abbreviation St := (Interp G (Namespace KSFinal.Var KSFinal.ArrVar KSFinal.NumVar)).

(** The resampling loop: [n] iterations make [n] draws and grow each raw
    series by [n] values; nothing else changes. *)
Lemma KSFinal_resampling_loop_ok (rnp : list Qc) (s : Z) (n : nat) (st : St) :
  (0 < s ≤ Z.of_nat (length rnp))%Z →
  ∃ st', for_range n (KSFinal.iteration rnp s) st = (Ok (), st')
    ∧ length (draws st') = (length (draws st) + n)%nat
    ∧ length (lists (globals st') KSFinal.cur_sample_ksd)
      = (length (lists (globals st) KSFinal.cur_sample_ksd) + n)%nat
    ∧ length (lists (globals st') KSFinal.cur_sample_ksp)
      = (length (lists (globals st) KSFinal.cur_sample_ksp) + n)%nat
    ∧ length (lists (globals st') KSFinal.cur_fr_above_200)
      = (length (lists (globals st) KSFinal.cur_fr_above_200) + n)%nat
    ∧ (∀ v, v ≠ KSFinal.cur_fr_above_200 → v ≠ KSFinal.cur_sample_ksd →
            v ≠ KSFinal.cur_sample_ksp →
            lists (globals st') v = lists (globals st) v)
    ∧ arrs (globals st') = arrs (globals st)
    ∧ nums (globals st') = nums (globals st).
Proof.
  intros Hs. unfold for_range.
  destruct (for_each_invariant
    (λ k st',
       length (draws st') = (length (draws st) + k)%nat
       ∧ length (lists (globals st') KSFinal.cur_sample_ksd)
         = (length (lists (globals st) KSFinal.cur_sample_ksd) + k)%nat
       ∧ length (lists (globals st') KSFinal.cur_sample_ksp)
         = (length (lists (globals st) KSFinal.cur_sample_ksp) + k)%nat
       ∧ length (lists (globals st') KSFinal.cur_fr_above_200)
         = (length (lists (globals st) KSFinal.cur_fr_above_200) + k)%nat
       ∧ (∀ v, v ≠ KSFinal.cur_fr_above_200 → v ≠ KSFinal.cur_sample_ksd →
               v ≠ KSFinal.cur_sample_ksp →
               lists (globals st') v = lists (globals st) v)
       ∧ arrs (globals st') = arrs (globals st)
       ∧ nums (globals st') = nums (globals st))
    (seq 0 n) (KSFinal.iteration rnp s)) with (st := st)
    as (st' & Hrun & Hinv).
  - intros k i st0 _ (Hdr & Hd & Hp & Hf & Hother & Harrs & Hnums).
    destruct (KSFinal_iteration_ok rnp s i st0 Hs)
      as (sampled & fr & d & p & st1 & Hit & _ & _ & _ & _ & Hdr1 & _
          & Hf1 & Hd1 & Hp1 & Hother1 & Harrs1 & Hnums1).
    exists st1. split; [exact Hit|].
    rewrite Hdr1, Hf1, Hd1, Hp1, !length_app, Hdr, Hd, Hp, Hf, Harrs1, Hnums1.
    simpl. repeat (split; [lia || done|]).
    split; [|done]. intros v ???. rewrite Hother1 by done. by apply Hother.
  - repeat (split; [lia || done|]). done.
  - rewrite length_seq in Hinv. by exists st'.
Qed.

(** A whole entry for a sample size the population can serve. *)
Lemma KSFinal_sweep_entry_ok (rnp : list Qc) (num_iterations : nat) (s : Z) (st : St) :
  (0 < num_iterations)%nat → (0 < s ≤ Z.of_nat (length rnp))%Z →
  ∃ st' ksd ksp,
    KSFinal.sweep_entry rnp num_iterations s st = (Ok (), st')
    ∧ length ksd = num_iterations ∧ length ksp = num_iterations
    ∧ length (draws st') = (length (draws st) + num_iterations)%nat
    ∧ arrs (globals st') KSFinal.sample_arrs_ksd
      = arrs (globals st) KSFinal.sample_arrs_ksd ++ [ksd]
    ∧ arrs (globals st') KSFinal.sample_arrs_ksp
      = arrs (globals st) KSFinal.sample_arrs_ksp ++ [ksp]
    ∧ (∃ x, Numpy.percentile ksd (of_int 50) = Ok x
            ∧ lists (globals st') KSFinal.sample_ksd_medians
              = lists (globals st) KSFinal.sample_ksd_medians ++ [x])
    ∧ (∃ x, Numpy.percentile ksp (of_int 50) = Ok x
            ∧ lists (globals st') KSFinal.sample_ksp_medians
              = lists (globals st) KSFinal.sample_ksp_medians ++ [x]).
Proof.
  intros Hn Hs. unfold KSFinal.sweep_entry. do 3 py_step.
  erewrite bind_call_ok by (apply KSFinal_critical_value_ok; lia).
  do 2 py_step.
  match goal with
  | |- context [(for_range _ _ ≫= _) ?s0] => set (st0 := s0)
  end.
  destruct (KSFinal_resampling_loop_ok rnp s num_iterations st0 Hs)
    as (st1 & Hloop & Hdr & Hd & Hp & Hf & Hother & Harrs & Hnums).
  rewrite (bind_ok _ _ _ _ _ Hloop).
  subst st0. revert Hdr Hd Hp Hf Hother Harrs. store_simpl. simpl.
  intros Hdr Hd Hp Hf Hother Harrs.
  destruct (KSFinal_summarize_spec st1) as (st' & Hsum & Hres).
  { intros Heq. rewrite Heq in Hd. simpl in Hd. lia. }
  { intros Heq. rewrite Heq in Hp. simpl in Hp. lia. }
  { intros Heq. rewrite Heq in Hf. simpl in Hf. lia. }
  destruct Hres as (_ & _ & (dm & Hdm & Hdml) & _ & _ & (pm & Hpm & Hpml) & _ & _ & _
                    & Had & Hap & _ & _ & _ & _ & _ & Hdraws).
  exists st', (lists (globals st1) KSFinal.cur_sample_ksd),
    (lists (globals st1) KSFinal.cur_sample_ksp).
  split; [exact Hsum|]. split; [exact Hd|]. split; [exact Hp|].
  split; [by rewrite Hdraws|].
  rewrite Had, Hap, Harrs. store_simpl.
  split; [done|]. split; [done|].
  split.
  - exists dm. split; [done|]. rewrite Hdml, Hother by done. by store_simpl.
  - exists pm. split; [done|]. rewrite Hpml, Hother by done. by store_simpl.
Qed.
End ksfinal_entry.

(** ** Single-iteration entries of [bootstrap_radon_levels.py] *)

Section gm_entry.
Context {G : Type} `{BitGenerator G}.
Local Abbreviation St := (Interp G (Namespace Gm.Var Gm.ArrVar Gm.NumVar)).

Lemma Gm_iteration_ok (rnp : list Qc) (s : Z) (i : nat) (st : St) :
  (0 < s ≤ Z.of_nat (length rnp))%Z →
  ∃ sampled m st',
    Gm.iteration rnp s i st = (Ok (), st')
    ∧ sampled ⊆+ rnp ∧ length sampled = Z.to_nat s
    ∧ Numpy.percentile sampled (of_int 50) = Ok m
    ∧ draws st' = draws st ++ [sampled]
    ∧ lists (globals st') Gm.cur_sample_gm_means
      = lists (globals st) Gm.cur_sample_gm_means ++ [m]
    ∧ (∀ v, v ≠ Gm.cur_sample_gm_means →
            lists (globals st') v = lists (globals st) v).
Proof.
  intros Hs.
  destruct (np_random_choice_ok rnp s st ltac:(lia))
    as (sampled & Hdraw & Hlen & Hsub).
  assert (sampled ≠ []) as Hne by (intros ->; simpl in Hlen; lia).
  destruct (percentile_ok sampled 50 Hne ltac:(lia)) as [m Hm].
  unfold Gm.iteration. rewrite (bind_ok _ _ _ _ _ Hdraw).
  erewrite bind_call_ok by exact Hm. unfold append.
  eexists sampled, m, _. split; [reflexivity|]. store_simpl. simpl.
  repeat (split; [done|]). intros v ?. by store_simpl.
Qed.

(** One entry of the sweep with a single iteration. *)
Lemma Gm_entry_one_iteration (rnp : list Qc) (s : Z) (st : St) :
  (0 < s ≤ Z.of_nat (length rnp))%Z →
  ∃ st', Gm.sweep_entry rnp 1 s st = (Ok (), st').
Proof.
  intros Hs. unfold Gm.sweep_entry. py_step.
  unfold for_range. cbn [seq for_each]. rewrite bind_assoc.
  match goal with
  | |- context [(Gm.iteration _ _ _ ≫= _) ?s0] => set (st0 := s0)
  end.
  destruct (Gm_iteration_ok rnp s 0 st0 Hs)
    as (sampled & m & st1 & Hrun & _ & _ & _ & _ & Hcur & _).
  rewrite (bind_ok _ _ _ _ _ Hrun), bind_ret.
  destruct (Gm_summarize_spec st1) as (st' & Hsum & _).
  { rewrite Hcur. by destruct (lists (globals st0) Gm.cur_sample_gm_means). }
  by exists st'.
Qed.
End gm_entry.

Lemma for_each_singleton {St A} (x : A) (body : A → Py St ()) (st st' : St) :
  body x st = (Ok (), st') → for_each [x] body st = (Ok (), st').
Proof. intros Hb. cbn [for_each]. by rewrite (bind_ok _ _ _ _ _ Hb). Qed.

Lemma demo_ksfinal_sweep_ok :
  @KSFinal.sweep Z Demo.lcg Demo.ks Demo.math demo_rnp 1 [3%Z] demo_ksfinal_init
  = (Ok (), demo_ksfinal_done).
Proof.
  destruct (@KSFinal_entry_full_population Z Demo.lcg Demo.ks Demo.math
              demo_rnp demo_ksfinal_init) as (st' & Hrun & _); [discriminate|].
  change (Z.of_nat (length demo_rnp)) with 3%Z in Hrun.
  unfold demo_ksfinal_done, KSFinal.sweep.
  by rewrite (for_each_singleton _ _ _ _ Hrun).
Qed.

Lemma demo_gm_sweep_ok :
  @Gm.sweep Z Demo.lcg demo_rnp 1 [3%Z] demo_gm_init = (Ok (), demo_gm_done).
Proof.
  destruct (@Gm_entry_one_iteration Z Demo.lcg demo_rnp 3 demo_gm_init)
    as (st' & Hrun); [simpl; lia|].
  unfold demo_gm_done, Gm.sweep.
  by rewrite (for_each_singleton _ _ _ _ Hrun).
Qed.

(** ** C1 *)

(** Claim C1, as amended.  Closing a sweep entry whose raw series are
    non-empty, [bootstrap_radon_levels_KS_FINAL.py] appends to each of its
    nine bound lists exactly one value: the 5th, 50th and 95th percentile
    of the KS D series, of the KS p-value series and of the exceedance
    series.  [bootstrap_radon_levels.py] appends the 5th and the 95th
    percentile of its series of medians to its two bound lists and leaves
    its third list variable, the raw series, as it was: it keeps no 50th
    percentile. *)
Theorem summaries_append_percentiles {G : Type} `{BitGenerator G}
    (st : Interp G (Namespace KSFinal.Var KSFinal.ArrVar KSFinal.NumVar))
    (gm : Interp G (Namespace Gm.Var Gm.ArrVar Gm.NumVar)) :
  lists (globals st) KSFinal.cur_sample_ksd ≠ [] →
  lists (globals st) KSFinal.cur_sample_ksp ≠ [] →
  lists (globals st) KSFinal.cur_fr_above_200 ≠ [] →
  lists (globals gm) Gm.cur_sample_gm_means ≠ [] →
  (∃ st', KSFinal.summarize st = (Ok (), st')
     ∧ appends_percentile st st' KSFinal.sample_ksd_lower_bounds
         (lists (globals st) KSFinal.cur_sample_ksd) 5
     ∧ appends_percentile st st' KSFinal.sample_ksd_medians
         (lists (globals st) KSFinal.cur_sample_ksd) 50
     ∧ appends_percentile st st' KSFinal.sample_ksd_upper_bounds
         (lists (globals st) KSFinal.cur_sample_ksd) 95
     ∧ appends_percentile st st' KSFinal.sample_ksp_lower_bounds
         (lists (globals st) KSFinal.cur_sample_ksp) 5
     ∧ appends_percentile st st' KSFinal.sample_ksp_medians
         (lists (globals st) KSFinal.cur_sample_ksp) 50
     ∧ appends_percentile st st' KSFinal.sample_ksp_upper_bounds
         (lists (globals st) KSFinal.cur_sample_ksp) 95
     ∧ appends_percentile st st' KSFinal.fr_above_200_lower_bounds
         (lists (globals st) KSFinal.cur_fr_above_200) 5
     ∧ appends_percentile st st' KSFinal.fr_above_200
         (lists (globals st) KSFinal.cur_fr_above_200) 50
     ∧ appends_percentile st st' KSFinal.fr_above_200_upper_bounds
         (lists (globals st) KSFinal.cur_fr_above_200) 95)
  ∧ (∃ gm', Gm.summarize gm = (Ok (), gm')
       ∧ appends_percentile gm gm' Gm.sample_gm_lower_bounds
           (lists (globals gm) Gm.cur_sample_gm_means) 5
       ∧ appends_percentile gm gm' Gm.sample_gm_upper_bounds
           (lists (globals gm) Gm.cur_sample_gm_means) 95
       ∧ lists (globals gm') Gm.cur_sample_gm_means
         = lists (globals gm) Gm.cur_sample_gm_means).
Proof.
  intros Hd Hp Hf Hg. split.
  - destruct (KSFinal_summarize_spec st Hd Hp Hf)
      as (st' & Hrun & H1 & H2 & H3 & H4 & H5 & H6 & H7 & H8 & H9 & _).
    by exists st'.
  - destruct (Gm_summarize_spec gm Hg) as (gm' & Hrun & Hlo & Hhi & Hcur & _).
    by exists gm'.
Qed.

(** Claim C1, as amended, on a concrete pair of states. *)
Lemma summaries_append_percentiles_witness :
  lists (globals (demo_ksfinal_state [0; decimal 1 2] [1; decimal 1 4] [of_int 50]))
    KSFinal.cur_sample_ksd ≠ []
  ∧ lists (globals (demo_gm_state demo_series)) Gm.cur_sample_gm_means ≠ []
  ∧ (∃ st',
       KSFinal.summarize
         (demo_ksfinal_state [0; decimal 1 2] [1; decimal 1 4] [of_int 50])
       = (Ok (), st')
       ∧ appends_percentile
           (demo_ksfinal_state [0; decimal 1 2] [1; decimal 1 4] [of_int 50]) st'
           KSFinal.sample_ksd_medians [0; decimal 1 2] 50)
  ∧ (∃ gm',
       Gm.summarize (demo_gm_state demo_series) = (Ok (), gm')
       ∧ appends_percentile (demo_gm_state demo_series) gm'
           Gm.sample_gm_lower_bounds demo_series 5
       ∧ appends_percentile (demo_gm_state demo_series) gm'
           Gm.sample_gm_upper_bounds demo_series 95).
Proof.
  split; [discriminate|]. split; [discriminate|].
  destruct (@summaries_append_percentiles Z Demo.lcg
              (demo_ksfinal_state [0; decimal 1 2] [1; decimal 1 4] [of_int 50])
              (demo_gm_state demo_series))
    as [(st' & Hrun & _ & Hmed & _) (gm' & Hgm & Hlo & Hhi & _)];
    [discriminate..|].
  split; [exists st'; exact (conj Hrun Hmed)
         |exists gm'; exact (conj Hgm (conj Hlo Hhi))].
Defined.

(** Claim C1 as stated fails on [bootstrap_radon_levels.py]: for the raw
    series 0, 1, 2, 3, 4 the 50th percentile is 2, the entry records 1/5
    and 19/5, and no list other than the raw series grows by the
    median. *)
Lemma gm_summary_records_no_median :
  ∃ gm', Gm.summarize (demo_gm_state demo_series) = (Ok (), gm')
    ∧ Numpy.percentile demo_series (of_int 50) = Ok (of_int 2)
    ∧ lists (globals gm') Gm.sample_gm_lower_bounds = [decimal 1 5]
    ∧ lists (globals gm') Gm.sample_gm_upper_bounds = [decimal 19 5]
    ∧ lists (globals gm') Gm.cur_sample_gm_means = demo_series
    ∧ ¬ ∃ v, v ≠ Gm.cur_sample_gm_means
             ∧ appends_percentile (demo_gm_state demo_series) gm' v
                 demo_series 50.
Proof.
  destruct (Gm_summarize_spec (demo_gm_state demo_series))
    as (gm' & Hrun & (lo & Hlo & Hlower) & (hi & Hhi & Hupper) & Hcur & _);
    [discriminate|].
  assert (Numpy.percentile demo_series (of_int 50) = Ok (of_int 2)) as Hmed
    by by_compute.
  assert (Numpy.percentile demo_series (of_int 5) = Ok (decimal 1 5)) as Hlo'
    by by_compute.
  assert (Numpy.percentile demo_series (of_int 95) = Ok (decimal 19 5)) as Hhi'
    by by_compute.
  change (lists (globals (demo_gm_state demo_series)) Gm.cur_sample_gm_means)
    with demo_series in Hlo, Hhi, Hcur.
  change (lists (globals (demo_gm_state demo_series)) Gm.sample_gm_lower_bounds
          ++ [lo]) with [lo] in Hlower.
  change (lists (globals (demo_gm_state demo_series)) Gm.sample_gm_upper_bounds
          ++ [hi]) with [hi] in Hupper.
  rewrite Hlo' in Hlo. injection Hlo as <-.
  rewrite Hhi' in Hhi. injection Hhi as <-.
  exists gm'. split; [exact Hrun|]. split; [exact Hmed|].
  split; [exact Hlower|]. split; [exact Hupper|]. split; [exact Hcur|].
  intros (v & Hv & x & Hx & Hl). rewrite Hmed in Hx. injection Hx as <-.
  destruct v.
  - change (lists (globals (demo_gm_state demo_series)) Gm.sample_gm_lower_bounds
            ++ [of_int 2]) with [of_int 2] in Hl.
    rewrite Hlower in Hl. injection Hl; intros; discriminate.
  - change (lists (globals (demo_gm_state demo_series)) Gm.sample_gm_upper_bounds
            ++ [of_int 2]) with [of_int 2] in Hl.
    rewrite Hupper in Hl. injection Hl; intros; discriminate.
  - exact (Hv eq_refl).
Qed.

(** ** C2 *)

(** Claim C2.  For a subsample of size at least 1 the median statistic of
    [bootstrap_radon_levels.py], [np.percentile(sampled_values, 50)],
    returns a value, and it is the 50th percentile by linear interpolation
    between the closest ranks (rank [50/100 * (n - 1)], between the
    elements at the floor and the ceiling of the rank); for a single
    element it is that element. *)
Theorem median_is_closest_rank_percentile (sampled_values : list Qc) :
  sampled_values ≠ [] →
  (∃ m, Numpy.percentile sampled_values (of_int 50) = Ok m
        ∧ closest_rank_percentile sampled_values (of_int 50) = Some m)
  ∧ (∀ x, sampled_values = [x] →
          Numpy.percentile sampled_values (of_int 50) = Ok x).
Proof.
  intros Hne.
  assert (0 ≤ of_int 50) as H0 by of_int_order.
  assert (of_int 50 ≤ of_int 100) as H100 by of_int_order.
  split.
  - eexists. split.
    + by apply percentile_interpolate.
    + by apply closest_rank_interpolate.
  - intros x ->. by apply percentile_singleton.
Qed.

(** Claim C2 on the subsample 3, 1, 2, 8. *)
Lemma median_is_closest_rank_percentile_witness :
  (∃ m, Numpy.percentile [of_int 3; of_int 1; of_int 2; of_int 8] (of_int 50) = Ok m
        ∧ closest_rank_percentile [of_int 3; of_int 1; of_int 2; of_int 8] (of_int 50)
          = Some m)
  ∧ (∀ x, [of_int 3; of_int 1; of_int 2; of_int 8] = [x] →
          Numpy.percentile [of_int 3; of_int 1; of_int 2; of_int 8] (of_int 50) = Ok x).
Proof.
  apply (median_is_closest_rank_percentile
           [of_int 3; of_int 1; of_int 2; of_int 8]).
  discriminate.
Defined.

(** ** C3 *)

(** Claim C3.  Summarizing a rearrangement of a non-empty series gives the
    same 5th, 50th and 95th percentile as summarizing the series, and all
    three exist. *)
Theorem percentile_summary_permutation_invariant (series series' : list Qc) :
  series ≠ [] → series ≡ₚ series' →
  Numpy.percentile series' (of_int 5) = Numpy.percentile series (of_int 5)
  ∧ Numpy.percentile series' (of_int 50) = Numpy.percentile series (of_int 50)
  ∧ Numpy.percentile series' (of_int 95) = Numpy.percentile series (of_int 95)
  ∧ ∃ lower median upper,
      Numpy.percentile series (of_int 5) = Ok lower
      ∧ Numpy.percentile series (of_int 50) = Ok median
      ∧ Numpy.percentile series (of_int 95) = Ok upper.
Proof.
  intros Hne Hperm. symmetry in Hperm.
  repeat (split; [by apply percentile_Permutation|]).
  destruct (percentile_ok series 5 Hne ltac:(lia)) as [lo Hlo].
  destruct (percentile_ok series 50 Hne ltac:(lia)) as [med Hmed].
  destruct (percentile_ok series 95 Hne ltac:(lia)) as [hi Hhi].
  by exists lo, med, hi.
Qed.

(** Claim C3 on the series 1, 2, 3 and its rearrangement 3, 1, 2. *)
Lemma percentile_summary_permutation_invariant_witness :
  [of_int 1; of_int 2; of_int 3] ≡ₚ [of_int 3; of_int 1; of_int 2]
  ∧ Numpy.percentile [of_int 3; of_int 1; of_int 2] (of_int 5)
    = Numpy.percentile [of_int 1; of_int 2; of_int 3] (of_int 5)
  ∧ Numpy.percentile [of_int 3; of_int 1; of_int 2] (of_int 50)
    = Numpy.percentile [of_int 1; of_int 2; of_int 3] (of_int 50)
  ∧ Numpy.percentile [of_int 3; of_int 1; of_int 2] (of_int 95)
    = Numpy.percentile [of_int 1; of_int 2; of_int 3] (of_int 95).
Proof.
  assert ([of_int 1; of_int 2; of_int 3] ≡ₚ [of_int 3; of_int 1; of_int 2])
    as Hperm.
  { symmetry. apply (Permutation_cons_append [of_int 1; of_int 2] (of_int 3)). }
  split; [exact Hperm|].
  destruct (percentile_summary_permutation_invariant
              [of_int 1; of_int 2; of_int 3] [of_int 3; of_int 1; of_int 2])
    as (H5 & H50 & H95 & _); [discriminate|exact Hperm|].
  exact (conj H5 (conj H50 H95)).
Defined.

(** ** C4 *)

(** Claim C4.  For a population of size [N] and a requested size
    [n >= 0], [np.random.choice(a, size=n, replace=False)] returns [n]
    elements at pairwise distinct positions of the population (as a
    multiset, part of the population) when [n <= N], and raises (a
    [ValueError], with the generator untouched) exactly when [n > N]. *)
Theorem choice_without_replacement {G : Type} `{BitGenerator G}
    (a : list Qc) (n : Z) (g : G) :
  (0 ≤ n)%Z →
  ((n ≤ Z.of_nat (length a))%Z →
     ∃ sampled idx g',
       RandomState.choice a n g = (Ok sampled, g')
       ∧ length sampled = Z.to_nat n
       ∧ NoDup idx
       ∧ Forall2 (λ i x, a !! i = Some x) idx sampled
       ∧ sampled ⊆+ a)
  ∧ ((Z.of_nat (length a) < n)%Z →
     ∃ msg, RandomState.choice a n g = (Raise (ValueError msg), g))
  ∧ (is_ok (RandomState.choice a n g).1 = false ↔ (Z.of_nat (length a) < n)%Z).
Proof.
  intros Hn.
  assert ((n ≤ Z.of_nat (length a))%Z →
     ∃ sampled idx g',
       RandomState.choice a n g = (Ok sampled, g')
       ∧ length sampled = Z.to_nat n
       ∧ NoDup idx
       ∧ Forall2 (λ i x, a !! i = Some x) idx sampled
       ∧ sampled ⊆+ a) as Hok.
  { intros Hle.
    destruct (choice_ok a n g) as (sampled & Hrun & Hsel); [lia|].
    destruct (choice_indexes (length a) (Z.to_nat n) g) as (Hnd & _ & Hlen).
    eexists sampled, (take (Z.to_nat n) (RandomState.permutation (length a) g).1), _.
    split; [exact Hrun|]. split; [|split; [done|split; [done|]]].
    - apply Forall2_length in Hsel as <-. rewrite Hlen. lia.
    - by eapply selection_submseteq. }
  split; [exact Hok|]. split; [apply choice_raises|].
  split.
  - intros Hfail. destruct (decide (Z.of_nat (length a) < n)%Z) as [|Hge]; [done|].
    destruct Hok as (sampled & idx & g' & Hrun & _); [lia|].
    by rewrite Hrun in Hfail.
  - intros Hlt. destruct (choice_raises a n g Hlt) as (msg & ->). done.
Qed.

(** Claim C4 on a population of three: a draw of two, and a refused draw
    of five. *)
Lemma choice_without_replacement_witness :
  (0 ≤ 2)%Z
  ∧ (∃ sampled idx g',
       @RandomState.choice Z Demo.lcg demo_rnp 2 2024%Z = (Ok sampled, g')
       ∧ length sampled = 2%nat
       ∧ NoDup idx
       ∧ Forall2 (λ i x, demo_rnp !! i = Some x) idx sampled
       ∧ sampled ⊆+ demo_rnp)
  ∧ (∃ msg, @RandomState.choice Z Demo.lcg demo_rnp 5 2024%Z
            = (Raise (ValueError msg), 2024%Z)).
Proof.
  split; [lia|]. split.
  - destruct (@choice_without_replacement Z Demo.lcg demo_rnp 2 2024%Z)
      as (Hok & _); [lia|]. apply Hok. simpl. lia.
  - destruct (@choice_without_replacement Z Demo.lcg demo_rnp 5 2024%Z)
      as (_ & Hraise & _); [lia|]. apply Hraise. simpl. lia.
Defined.

(** ** C5 *)

(** Claim C5.  One iteration of the resampling loop of
    [bootstrap_radon_levels_KS_FINAL.py] makes exactly one draw (the trace
    grows by one subsample), and the exceedance percentage, the KS
    D-statistic and the KS p-value it appends are all computed from that
    subsample. *)
Theorem iteration_statistics_share_one_draw
    {G : Type} `{BitGenerator G} `{KSDistributions}
    (rnp : list Qc) (s : Z) (i : nat)
    (st : Interp G (Namespace KSFinal.Var KSFinal.ArrVar KSFinal.NumVar)) :
  (0 < s ≤ Z.of_nat (length rnp))%Z →
  ∃ sampled fr d p st',
    KSFinal.iteration rnp s i st = (Ok (), st')
    ∧ draws st' = draws st ++ [sampled]
    ∧ KSFinal.percent_above_200 sampled = Ok fr
    ∧ Scipy.kstest sampled rnp = Ok (d, p)
    ∧ lists (globals st') KSFinal.cur_fr_above_200
      = lists (globals st) KSFinal.cur_fr_above_200 ++ [fr]
    ∧ lists (globals st') KSFinal.cur_sample_ksd
      = lists (globals st) KSFinal.cur_sample_ksd ++ [d]
    ∧ lists (globals st') KSFinal.cur_sample_ksp
      = lists (globals st) KSFinal.cur_sample_ksp ++ [p].
Proof.
  intros Hs.
  destruct (KSFinal_iteration_ok rnp s i st Hs)
    as (sampled & fr & d & p & st' & Hrun & _ & _ & Hfr & Hks & Hdraws & _
        & Hcf & Hcd & Hcp & _).
  by exists sampled, fr, d, p, st'.
Qed.

(** Claim C5 on a population of three and sample size two. *)
Lemma iteration_statistics_share_one_draw_witness :
  (0 < 2 ≤ Z.of_nat (length demo_rnp))%Z
  ∧ ∃ sampled fr d p st',
      @KSFinal.iteration Z Demo.lcg Demo.ks demo_rnp 2 0 demo_ksfinal_init
      = (Ok (), st')
      ∧ draws st' = draws demo_ksfinal_init ++ [sampled]
      ∧ KSFinal.percent_above_200 sampled = Ok fr
      ∧ @Scipy.kstest Demo.ks sampled demo_rnp = Ok (d, p)
      ∧ lists (globals st') KSFinal.cur_fr_above_200
        = lists (globals demo_ksfinal_init) KSFinal.cur_fr_above_200 ++ [fr]
      ∧ lists (globals st') KSFinal.cur_sample_ksd
        = lists (globals demo_ksfinal_init) KSFinal.cur_sample_ksd ++ [d]
      ∧ lists (globals st') KSFinal.cur_sample_ksp
        = lists (globals demo_ksfinal_init) KSFinal.cur_sample_ksp ++ [p].
Proof.
  assert (0 < 2 ≤ Z.of_nat (length demo_rnp))%Z as Hs by (simpl; lia).
  split; [exact Hs|].
  exact (@iteration_statistics_share_one_draw Z Demo.lcg Demo.ks
           demo_rnp 2 0%nat demo_ksfinal_init Hs).
Defined.

(** ** C6 *)

(** Claim C6.  On a non-empty subsample the exceedance statistic is
    [100 * count / len], where [count] is the number of values strictly
    above 200; a value equal to 200 adds to the length and not to the
    count. *)
Theorem percent_above_200_formula (sampled_values : list Qc) :
  sampled_values ≠ [] →
  KSFinal.percent_above_200 sampled_values
  = Ok (of_int 100
        * of_nat (length (filter (λ z, of_int 200 < z) sampled_values))
        / of_nat (length sampled_values))
  ∧ KSFinal.percent_above_200 (of_int 200 :: sampled_values)
    = Ok (of_int 100
          * of_nat (length (filter (λ z, of_int 200 < z) sampled_values))
          / of_nat (S (length sampled_values))).
Proof.
  intros Hne. split; [by apply percent_above_200_spec|].
  rewrite percent_above_200_spec by done.
  rewrite filter_cons, decide_False; [done|].
  apply (irreflexivity Qclt).
Qed.

(** Claim C6 on the population 50, 250, 300. *)
Lemma percent_above_200_formula_witness :
  demo_rnp ≠ []
  ∧ KSFinal.percent_above_200 demo_rnp
    = Ok (of_int 100
          * of_nat (length (filter (λ z, of_int 200 < z) demo_rnp))
          / of_nat (length demo_rnp)).
Proof.
  split; [discriminate|].
  apply (percent_above_200_formula demo_rnp). discriminate.
Defined.

(** ** C7 *)

(** Claim C7.  The two-sample KS test of a rearrangement of a non-empty
    population against the population returns D = 0 and p-value = 1; and
    an entry of the sweep with the sample size equal to the population
    size and one iteration stores the raw series [[0]] of D-statistics and
    [[1]] of p-values, in [bootstrap_radon_levels_KS_FINAL.py] and in
    [bootstrap_radon_levels_KS.py]. *)
Theorem full_population_sample_ks
    {G : Type} `{BitGenerator G} `{KSDistributions} `{PyMath}
    (rnp sampled : list Qc)
    (st : Interp G (Namespace KSFinal.Var KSFinal.ArrVar KSFinal.NumVar))
    (st_ks : Interp G (Namespace KS.Var KS.ArrVar KS.NumVar)) :
  rnp ≠ [] →
  (sampled ≡ₚ rnp → Scipy.kstest sampled rnp = Ok (0, 1))
  ∧ (∃ st', KSFinal.sweep_entry rnp 1 (Z.of_nat (length rnp)) st = (Ok (), st')
       ∧ arrs (globals st') KSFinal.sample_arrs_ksd
         = arrs (globals st) KSFinal.sample_arrs_ksd ++ [[0]]
       ∧ arrs (globals st') KSFinal.sample_arrs_ksp
         = arrs (globals st) KSFinal.sample_arrs_ksp ++ [[1]])
  ∧ (∃ st', KS.sweep_entry rnp 1 (Z.of_nat (length rnp)) st_ks = (Ok (), st')
       ∧ arrs (globals st') KS.sample_arrs_ksd
         = arrs (globals st_ks) KS.sample_arrs_ksd ++ [[0]]
       ∧ arrs (globals st') KS.sample_arrs_ksp
         = arrs (globals st_ks) KS.sample_arrs_ksp ++ [[1]]).
Proof.
  intros Hne. split; [|split].
  - intros Hperm. by apply ks_2samp_same_data.
  - destruct (KSFinal_entry_full_population rnp st Hne)
      as (st' & Hrun & Hd & Hp & _). by exists st'.
  - destruct (KS_entry_full_population rnp st_ks Hne)
      as (st' & Hrun & Hd & Hp & _). by exists st'.
Qed.

(** Claim C7 on the population 50, 250, 300. *)
Lemma full_population_sample_ks_witness :
  demo_rnp ≠ []
  ∧ (∃ st', @KSFinal.sweep_entry Z Demo.lcg Demo.ks Demo.math demo_rnp 1
              (Z.of_nat (length demo_rnp)) demo_ksfinal_init = (Ok (), st')
       ∧ arrs (globals st') KSFinal.sample_arrs_ksd
         = arrs (globals demo_ksfinal_init) KSFinal.sample_arrs_ksd ++ [[0]]
       ∧ arrs (globals st') KSFinal.sample_arrs_ksp
         = arrs (globals demo_ksfinal_init) KSFinal.sample_arrs_ksp ++ [[1]]).
Proof.
  split; [discriminate|].
  apply (@full_population_sample_ks Z Demo.lcg Demo.ks Demo.math
           demo_rnp demo_rnp demo_ksfinal_init demo_ks_state).
  discriminate.
Defined.

(** ** C8 *)

(** Claim C8, as amended.  For a sample size [s > 0] both KS scripts
    compute the critical value [1.36 * pow((s + 10^6) / (s * 10^6), 0.5)],
    with the population size fixed at the constant [10^6]; and the value
    influences nothing else: two runs of a sweep that differ only in what
    [pow(., 0.5)] returns end with the same outcome, the same generator
    state, the same trace of draws and the same lists (raw series and
    bounds). *)
Theorem critical_value_formula_and_noninterference
    {G : Type} `{BitGenerator G} `{KSDistributions} (M1 M2 : PyMath)
    (rnp : list Qc) (num_iterations : nat) (sample_sizes : list Z) (s : Z)
    (st : Interp G (Namespace KSFinal.Var KSFinal.ArrVar KSFinal.NumVar))
    (st_ks : Interp G (Namespace KS.Var KS.ArrVar KS.NumVar)) :
  (0 < s)%Z →
  @KSFinal.critical_value M1 s
  = Ok (decimal 136 100
        * @pow_half M1 ((of_int s + of_int 1000000) / (of_int s * of_int 1000000)))
  ∧ @KS.critical_value M1 s
    = Ok (decimal 136 100
          * @pow_half M1 ((of_int s + of_int 1000000) / (of_int s * of_int 1000000)))
  ∧ agree_out eq
      (@KSFinal.sweep G _ _ M1 rnp num_iterations sample_sizes st)
      (@KSFinal.sweep G _ _ M2 rnp num_iterations sample_sizes st)
  ∧ agree_out eq
      (@KS.sweep G _ _ M1 rnp num_iterations sample_sizes st_ks)
      (@KS.sweep G _ _ M2 rnp num_iterations sample_sizes st_ks).
Proof.
  intros Hs. split; [apply KSFinal_critical_value_ok; lia|].
  split; [apply KS_critical_value_ok; lia|]. split.
  - apply KSFinal_sweep_corresponds, agree_refl.
  - apply KS_sweep_corresponds, agree_refl.
Qed.

(** Claim C8, as amended, for sample size 5 and two sweeps over the
    population 50, 250, 300. *)
Lemma critical_value_formula_and_noninterference_witness :
  (0 < 5)%Z
  ∧ @KSFinal.critical_value Demo.math 5
    = Ok (decimal 136 100
          * Demo.sqrt9 ((of_int 5 + of_int 1000000) / (of_int 5 * of_int 1000000)))
  ∧ agree_out eq
      (@KSFinal.sweep Z Demo.lcg Demo.ks Demo.math demo_rnp 2 [2; 3]%Z
         demo_ksfinal_init)
      (@KSFinal.sweep Z Demo.lcg Demo.ks {| pow_half := λ x, x |} demo_rnp 2
         [2; 3]%Z demo_ksfinal_init).
Proof.
  split; [lia|].
  destruct (@critical_value_formula_and_noninterference Z Demo.lcg Demo.ks
              Demo.math {| pow_half := λ x, x |} demo_rnp 2 [2; 3]%Z 5
              demo_ksfinal_init demo_ks_state)
    as (Hcrit & _ & Hsweep & _); [lia|].
  exact (conj Hcrit Hsweep).
Defined.

(** Claim C8 as stated fails when the population does not have [10^6]
    elements: for a population of two and sample size 2 the formula
    [1.36 * sqrt((n + N) / (n * N))] gives 1.36, and the script computes
    [1.36 * sqrt(0.500001)]. *)
Lemma critical_value_uses_constant_population_size :
  @KSFinal.critical_value Demo.math 2
  = Ok (decimal 136 100 * Demo.sqrt9 (decimal 500001 1000000))
  ∧ decimal 136 100
    * Demo.sqrt9 ((of_int 2 + of_nat (length [of_int 50; of_int 250]))
                  / (of_int 2 * of_nat (length [of_int 50; of_int 250])))
    = decimal 136 100
  ∧ @KSFinal.critical_value Demo.math 2 ≠ Ok (decimal 136 100).
Proof.
  split; [by_compute|]. split; [by_compute|].
  intros Heq. apply (bool_decide_eq_true_2 _) in Heq. vm_compute in Heq.
  discriminate.
Qed.

(** ** C9 *)

(** Claim C9.  When the sizes before [s] were swept without error and
    the population is smaller than [s], the sweep over those sizes, [s]
    and any further sizes raises at [s]: the generator, the trace of
    draws and every result list are as they were after the earlier sizes,
    and the raw-series variables of the failed entry are empty.  This
    holds in [bootstrap_radon_levels_KS_FINAL.py] and in
    [bootstrap_radon_levels.py]. *)
Theorem sweep_aborts_on_failed_draw
    {G : Type} `{BitGenerator G} `{KSDistributions} `{PyMath}
    (rnp : list Qc) (num_iterations : nat) (done_sizes rest : list Z) (s : Z)
    (st st1 : Interp G (Namespace KSFinal.Var KSFinal.ArrVar KSFinal.NumVar))
    (gm gm1 : Interp G (Namespace Gm.Var Gm.ArrVar Gm.NumVar)) :
  (0 < num_iterations)%nat →
  (Z.of_nat (length rnp) < s)%Z →
  KSFinal.sweep rnp num_iterations done_sizes st = (Ok (), st1) →
  Gm.sweep rnp num_iterations done_sizes gm = (Ok (), gm1) →
  (∃ msg st2,
     KSFinal.sweep rnp num_iterations (done_sizes ++ s :: rest) st
     = (Raise (ValueError msg), st2)
     ∧ bitgen st2 = bitgen st1 ∧ draws st2 = draws st1
     ∧ arrs (globals st2) = arrs (globals st1)
     ∧ lists (globals st2) KSFinal.cur_sample_ksd = []
     ∧ lists (globals st2) KSFinal.cur_sample_ksp = []
     ∧ lists (globals st2) KSFinal.cur_fr_above_200 = []
     ∧ ∀ v, v ≠ KSFinal.cur_sample_ksd → v ≠ KSFinal.cur_sample_ksp →
            v ≠ KSFinal.cur_fr_above_200 →
            lists (globals st2) v = lists (globals st1) v)
  ∧ (∃ msg gm2,
       Gm.sweep rnp num_iterations (done_sizes ++ s :: rest) gm
       = (Raise (ValueError msg), gm2)
       ∧ bitgen gm2 = bitgen gm1 ∧ draws gm2 = draws gm1
       ∧ lists (globals gm2) Gm.cur_sample_gm_means = []
       ∧ ∀ v, v ≠ Gm.cur_sample_gm_means →
              lists (globals gm2) v = lists (globals gm1) v).
Proof.
  intros Hn Hs Hdone Hgm. split.
  - destruct (KSFinal_sweep_entry_raises rnp num_iterations s st1 Hn Hs)
      as (msg & crit & Hraise).
    eexists msg, _. unfold KSFinal.sweep in *. rewrite for_each_app, Hdone.
    split; [by apply for_each_cons_raise|].
    store_simpl. repeat (split; [done|]).
    intros v ???. by store_simpl.
  - destruct (Gm_sweep_entry_raises rnp num_iterations s gm1 Hn Hs)
      as (msg & Hraise).
    eexists msg, _. unfold Gm.sweep in *. rewrite for_each_app, Hgm.
    split; [by apply for_each_cons_raise|].
    store_simpl. repeat (split; [done|]).
    intros v ?. by store_simpl.
Qed.

(** Claim C9 on the population 50, 250, 300 and the sizes 3, 5, 1. *)
Lemma sweep_aborts_on_failed_draw_witness :
  (Z.of_nat (length demo_rnp) < 5)%Z
  ∧ @KSFinal.sweep Z Demo.lcg Demo.ks Demo.math demo_rnp 1 [3%Z] demo_ksfinal_init
    = (Ok (), demo_ksfinal_done)
  ∧ @Gm.sweep Z Demo.lcg demo_rnp 1 [3%Z] demo_gm_init = (Ok (), demo_gm_done)
  ∧ (∃ msg st2,
       @KSFinal.sweep Z Demo.lcg Demo.ks Demo.math demo_rnp 1 ([3] ++ 5 :: [1])%Z
         demo_ksfinal_init
       = (Raise (ValueError msg), st2)
       ∧ draws st2 = draws demo_ksfinal_done
       ∧ arrs (globals st2) = arrs (globals demo_ksfinal_done)
       ∧ lists (globals st2) KSFinal.sample_ksd_medians
         = lists (globals demo_ksfinal_done) KSFinal.sample_ksd_medians)
  ∧ (∃ msg gm2,
       @Gm.sweep Z Demo.lcg demo_rnp 1 ([3] ++ 5 :: [1])%Z demo_gm_init
       = (Raise (ValueError msg), gm2)
       ∧ draws gm2 = draws demo_gm_done
       ∧ lists (globals gm2) Gm.sample_gm_lower_bounds
         = lists (globals demo_gm_done) Gm.sample_gm_lower_bounds).
Proof.
  assert (Z.of_nat (length demo_rnp) < 5)%Z as Hs by (simpl; lia).
  split; [exact Hs|]. split; [exact demo_ksfinal_sweep_ok|].
  split; [exact demo_gm_sweep_ok|].
  destruct (@sweep_aborts_on_failed_draw Z Demo.lcg Demo.ks Demo.math
              demo_rnp 1 [3%Z] [1%Z] 5 demo_ksfinal_init demo_ksfinal_done
              demo_gm_init demo_gm_done)
    as [(msg & st2 & Hrun & _ & Hdraws & Harrs & _ & _ & _ & Hlists)
        (msg' & gm2 & Hgm & _ & Hgdraws & _ & Hglists)];
    [lia|exact Hs|exact demo_ksfinal_sweep_ok|exact demo_gm_sweep_ok|].
  split.
  - exists msg, st2.
    exact (conj Hrun (conj Hdraws (conj Harrs
             (Hlists KSFinal.sample_ksd_medians ltac:(discriminate)
                ltac:(discriminate) ltac:(discriminate))))).
  - exists msg', gm2.
    exact (conj Hgm (conj Hgdraws
             (Hglists Gm.sample_gm_lower_bounds ltac:(discriminate)))).
Defined.

(** ** C10 *)

(** Claim C10.  For a non-empty series the three percentiles exist and
    are ordered: 5th <= 50th <= 95th. *)
Theorem confidence_bound_ordered (series : list Qc) :
  series ≠ [] →
  ∃ lower median upper,
    Numpy.percentile series (of_int 5) = Ok lower
    ∧ Numpy.percentile series (of_int 50) = Ok median
    ∧ Numpy.percentile series (of_int 95) = Ok upper
    ∧ lower ≤ median ∧ median ≤ upper.
Proof.
  intros Hne.
  assert (0 ≤ of_int 5) as H0 by of_int_order.
  assert (of_int 5 ≤ of_int 50) as H1 by of_int_order.
  assert (of_int 50 ≤ of_int 95) as H2 by of_int_order.
  assert (of_int 95 ≤ of_int 100) as H3 by of_int_order.
  destruct (percentile_mono series (of_int 5) (of_int 50) Hne H0 H1)
    as (lo & med & Hlo & Hmed & Hle1); [by etrans|].
  destruct (percentile_mono series (of_int 50) (of_int 95) Hne)
    as (med' & hi & Hmed' & Hhi & Hle2); [by etrans|done..|].
  rewrite Hmed in Hmed'. simplify_eq.
  by exists lo, med', hi.
Qed.

(** Claim C10 on the series 0, 1, 2, 3, 4. *)
Lemma confidence_bound_ordered_witness :
  demo_series ≠ []
  ∧ ∃ lower median upper,
      Numpy.percentile demo_series (of_int 5) = Ok lower
      ∧ Numpy.percentile demo_series (of_int 50) = Ok median
      ∧ Numpy.percentile demo_series (of_int 95) = Ok upper
      ∧ lower ≤ median ∧ median ≤ upper.
Proof.
  split; [discriminate|].
  apply (confidence_bound_ordered demo_series). discriminate.
Defined.

(** * Further properties of the scripts *)

(** ** Percentiles and the values they are computed from *)

Lemma between_refl (x : Qc) : between x x x.
Proof. split; apply Qcle_refl. Qed.

Lemma between_eq (c x : Qc) : between c c x → x = c.
Proof. intros [H1 H2]. by apply Qcle_antisym. Qed.

Lemma order_stat_elem (sorted : list Qc) (k : nat) :
  sorted ≠ [] → order_stat sorted k ∈ sorted.
Proof.
  intros Hne. eapply list_elem_of_lookup_2. by apply order_stat_lookup_min.
Qed.

Lemma interpolate_between (sorted : list Qc) (v lo hi : Qc) :
  StronglySorted Qcle sorted → sorted ≠ [] →
  Forall (between lo hi) sorted → between lo hi (interpolate sorted v).
Proof.
  intros Hs Hne Hall. unfold interpolate.
  pose proof (floorZ_le v) as Hl. pose proof (floorZ_lt v) as Hu.
  rewrite of_int_add, of_int_1 in Hu.
  set (k := Z.to_nat (floorZ v)).
  pose proof (order_stat_mono sorted k (S k) Hs ltac:(lia)) as Hab.
  rewrite list.Forall_forall in Hall.
  destruct (Hall _ (order_stat_elem sorted k Hne)) as [Ha1 Ha2].
  destruct (Hall _ (order_stat_elem sorted (S k) Hne)) as [Hb1 Hb2].
  generalize dependent (order_stat sorted k).
  generalize dependent (order_stat sorted (S k)).
  generalize dependent (of_int (floorZ v)).
  intros f ? ? b ? ? a ? ? ?. unfold between. split; qc_to_q; nra.
Qed.

Lemma percentile_between (series : list Qc) (p lo hi : Qc) :
  series ≠ [] → 0 ≤ p → p ≤ of_int 100 →
  Forall (between lo hi) series →
  ∃ x, Numpy.percentile series p = Ok x ∧ between lo hi x.
Proof.
  intros Hne H0 H100 Hall. eexists. split.
  - by apply percentile_interpolate.
  - apply interpolate_between.
    + apply sort_Sorted.
    + intros Heq. apply Hne. apply length_zero_iff_nil.
      by rewrite <- sort_length, Heq.
    + unfold Numpy.sort. by rewrite merge_sort_Permutation.
Qed.

Lemma percentile_constant (series : list Qc) (p c : Qc) :
  series ≠ [] → 0 ≤ p → p ≤ of_int 100 →
  Forall (λ x, x = c) series → Numpy.percentile series p = Ok c.
Proof.
  intros Hne H0 H100 Hall.
  destruct (percentile_between series p c c Hne H0 H100) as (x & Hx & Hb).
  - eapply list.Forall_impl; [exact Hall|]. intros ? ->. apply between_refl.
  - by rewrite Hx, (between_eq _ _ Hb).
Qed.

Lemma Qcmax_ge_r (x y : Qc) : y ≤ Qcmax x y.
Proof. unfold Qcmax. case_decide; [apply Qcle_refl|]. by apply Qclt_le_weak, Qcnot_le_lt. Qed.

Lemma np_clip_between (x lo hi : Qc) : lo ≤ hi → between lo hi (np_clip x lo hi).
Proof.
  intros Hle. unfold np_clip, Qcmin. pose proof (Qcmax_ge_r x lo).
  case_decide; split; try done; try apply Qcle_refl.
Qed.

Section ks_range.
Context `{KSDistributions}.

Lemma np_max_le (x hi : Qc) (l : list Qc) :
  x ≤ hi → Forall (λ y, y ≤ hi) l → Scipy.np_max x l ≤ hi.
Proof.
  intros Hx Hl. revert x Hx. induction Hl as [|y l Hy _ IH]; intros x Hx; [done|].
  cbn [Scipy.np_max]. apply IH. by case_decide.
Qed.

Lemma searchsorted_right_le (data : list Qc) (v : Qc) :
  (Scipy.searchsorted_right data v ≤ length data)%nat.
Proof. induction data as [|x data IH]; simpl; [lia|]. case_decide; lia. Qed.

Lemma np_round_nonneg (x : Qc) : 0 ≤ x → (0 ≤ np_round x)%Z.
Proof.
  intros Hx. pose proof (np_round_floor x). pose proof (floorZ_lt x) as Hlt.
  assert (of_int 0 < of_int (floorZ x + 1)) as Hlt'.
  { rewrite of_int_0. by eapply Qcle_lt_trans. }
  apply (proj2 (of_int_lt _ _)) in Hlt'. lia.
Qed.

Lemma np_round_le (x : Qc) (k : Z) : x ≤ of_int k → (np_round x ≤ k)%Z.
Proof.
  intros Hx. pose proof (floorZ_le x) as Hfl.
  assert (floorZ x ≤ k)%Z as Hfk by (apply (proj2 (of_int_le _ _)); by etrans).
  destruct (decide (floorZ x = k)) as [Heq|Hne].
  - assert (x = of_int k) as ->.
    { apply Qcle_antisym; [done|]. by rewrite <- Heq. }
    unfold np_round. rewrite Heq.
    replace (of_int k - of_int k) with (0 : Qc) by ring.
    rewrite decide_True; [lia|]. by vm_compute.
  - unfold np_round. repeat case_decide; try destruct (Z.even _); lia.
Qed.
End ks_range.

(** ** The range of the KS results and of the exceedance percentage *)

Lemma Qcdiv_mul_cancel (x y : Qc) : y ≠ 0 → x / y * y = x.
Proof.
  intros Hy. unfold Qcdiv.
  by rewrite <- Qcmult_assoc, (Qcmult_comm (/ y)), Qcmult_inv_r, Qcmult_1_r.
Qed.

Lemma Qcdiv_between_0_1 (x y : Qc) : 0 ≤ x → x ≤ y → 0 < y → between 0 1 (x / y).
Proof.
  intros H0 Hxy Hy.
  assert (y ≠ 0) as Hne.
  { intros ->. by apply (irreflexivity Qclt) in Hy. }
  split; apply (Qcmult_le_mono_pos_r _ _ y Hy); rewrite Qcdiv_mul_cancel by done.
  - by rewrite Qcmult_0_l.
  - by rewrite Qcmult_1_l.
Qed.

Lemma of_nat_le (a b : nat) : (a ≤ b)%nat → of_nat a ≤ of_nat b.
Proof. intros Hab. unfold of_nat. apply (proj1 (Z2Qc_inj_le _ _)). lia. Qed.

Lemma Ok_inj {A} (a b : A) : Ok a = Ok b → a = b.
Proof. by intros [= ->]. Qed.

Lemma Ok_pair_inj {A B} (a a' : A) (b b' : B) :
  Ok (a, b) = Ok (a', b') → a = a' ∧ b = b'.
Proof. by intros [= -> ->]. Qed.

Section ks_between.
Context `{KSDistributions}.

Lemma cdf_between (data : list Qc) (v : Qc) :
  data ≠ [] →
  between 0 1 (of_nat (Scipy.searchsorted_right data v) / of_nat (length data)).
Proof.
  intros Hne. apply Qcdiv_between_0_1.
  - apply of_nat_nonneg.
  - apply of_nat_le, searchsorted_right_le.
  - apply of_nat_pos. destruct data; simpl; [done|lia].
Qed.

Lemma cddiffs_le_1 (f g : Qc → Qc) (l : list Qc) :
  (∀ v, between 0 1 (f v)) → (∀ v, between 0 1 (g v)) →
  Forall (λ c, c ≤ 1) (zip_with Qcminus (f <$> l) (g <$> l)).
Proof.
  intros Hf Hg. induction l as [|v l IH]; csimpl; [done|].
  constructor; [|done].
  destruct (Hf v) as [_ Hf1]. destruct (Hg v) as [Hg0 _].
  generalize dependent (f v). generalize dependent (g v). intros.
  qc_to_q. lra.
Qed.

Lemma attempt_exact_statistic (n1 n2 g : nat) (d : Qc) :
  (Scipy.attempt_exact_2kssamp n1 n2 g d).1.2
  = of_int (np_round (d * of_nat (n1 `div` g * n2)%nat)) * 1
    / of_nat (n1 `div` g * n2)%nat.
Proof.
  unfold Scipy.attempt_exact_2kssamp.
  destruct (_ =? _)%Z; [done|].
  destruct (paths_outside_prob _ _ _); [|done].
  by destruct (_ && _).
Qed.

Lemma attempt_exact_between (n1 n2 : nat) (d : Qc) :
  (0 < n1)%nat → (0 < n2)%nat → between 0 1 d →
  between 0 1 (Scipy.attempt_exact_2kssamp n1 n2 (Nat.gcd n1 n2) d).1.2.
Proof.
  intros Hn1 Hn2 [Hd0 Hd1]. rewrite attempt_exact_statistic.
  set (lcm := (n1 `div` Nat.gcd n1 n2 * n2)%nat).
  assert (0 < lcm)%nat as Hlcm.
  { subst lcm. apply Nat.mul_pos_pos; [|done].
    apply Nat.div_str_pos. split.
    - assert (Nat.gcd n1 n2 ≠ 0)%nat; [|lia].
      intros Hz. apply Nat.gcd_eq_0_l in Hz. lia.
    - apply Nat.divide_pos_le; [done|]. apply Nat.gcd_divide_l. }
  pose proof (of_nat_pos lcm Hlcm) as Hpos.
  rewrite Qcmult_1_r. apply Qcdiv_between_0_1; [| |done].
  - rewrite <- of_int_0. apply (proj1 (of_int_le _ _)).
    apply np_round_nonneg. by apply Qcmult_nonneg_nonneg; [|apply Qclt_le_weak].
  - unfold of_nat at 2. apply (proj1 (of_int_le _ _)). apply np_round_le.
    change (of_int (Z.of_nat lcm)) with (of_nat lcm).
    etrans; [apply (Qcmult_le_mono_nonneg_r _ 1); [by apply Qclt_le_weak|done]|].
    rewrite Qcmult_1_l. apply Qcle_refl.
Qed.

Lemma ks_2samp_between (data1 data2 : list Qc) (d p : Qc) :
  Scipy.ks_2samp data1 data2 = Ok (d, p) → between 0 1 d ∧ between 0 1 p.
Proof.
  unfold Scipy.ks_2samp. cbv zeta.
  set (d1 := Numpy.sort data1). set (d2 := Numpy.sort data2).
  case_bool_decide as Hmin; [done|].
  assert (0 < length d1)%nat as Hn1 by lia.
  assert (0 < length d2)%nat as Hn2 by lia.
  assert (d1 ≠ []) as Hne1 by (intros Heq; rewrite Heq in Hn1; simpl in Hn1; lia).
  assert (d2 ≠ []) as Hne2 by (intros Heq; rewrite Heq in Hn2; simpl in Hn2; lia).
  pose proof (cddiffs_le_1
    (λ v, of_nat (Scipy.searchsorted_right d1 v) / of_nat (length d1))
    (λ v, of_nat (Scipy.searchsorted_right d2 v) / of_nat (length d2))
    (d1 ++ d2) (λ v, cdf_between d1 v Hne1) (λ v, cdf_between d2 v Hne2)) as Hdiffs.
  cbv beta in Hdiffs.
  match type of Hdiffs with
  | Forall _ ?z => destruct z as [|c cs]; [done|]
  end.
  apply list.Forall_cons in Hdiffs as [Hc Hcs].
  pose proof (np_max_le c 1 cs Hc Hcs) as Hmax.
  pose proof (np_clip_between (- Scipy.np_min c cs) 0 1 ltac:(by vm_compute)) as [Hmin0 Hmin1].
  set (minS := np_clip (- Scipy.np_min c cs) 0 1) in *.
  set (maxS := Scipy.np_max c cs) in *.
  assert (between 0 1 (if decide (maxS < minS) then minS else maxS)) as Hd0.
  { case_decide as Hlt; [done|]. split; [|done].
    apply Qcnot_lt_le in Hlt. by etrans. }
  set (d0 := if decide (maxS < minS) then minS else maxS) in *.
  pose proof (attempt_exact_between (length d1) (length d2) d0 Hn1 Hn2 Hd0) as Hex.
  clearbody d0.
  destruct (_ <=? _)%Z.
  - destruct (Scipy.attempt_exact_2kssamp _ _ _ _) as [[success d'] prob].
    simpl in Hex. intros [<- <-]%Ok_pair_inj. split; [exact Hex|].
    apply np_clip_between. by vm_compute.
  - intros [<- <-]%Ok_pair_inj. split; [exact Hd0|].
    apply np_clip_between. by vm_compute.
Qed.

Lemma kstest_between (rvs cdf : list Qc) (d p : Qc) :
  Scipy.kstest rvs cdf = Ok (d, p) → between 0 1 d ∧ between 0 1 p.
Proof. apply ks_2samp_between. Qed.
End ks_between.

Lemma percent_above_200_between (sampled_values : list Qc) (fr : Qc) :
  KSFinal.percent_above_200 sampled_values = Ok fr → between 0 (of_int 100) fr.
Proof.
  destruct (decide (sampled_values = [])) as [->|Hne]; [by vm_compute|].
  rewrite percent_above_200_spec by done. intros [= <-].
  assert (0 < length sampled_values)%nat as Hn
    by (destruct sampled_values; simpl; [done|lia]).
  pose proof (of_nat_pos _ Hn) as Hpos.
  pose proof (of_nat_le _ _ (length_filter (λ z, of_int 200 < z) sampled_values)) as Hle.
  pose proof (of_nat_nonneg (length (filter (λ z, of_int 200 < z) sampled_values))) as H0.
  destruct (Qcdiv_between_0_1 _ _ H0 Hle Hpos) as [Hq0 Hq1].
  unfold Qcdiv in *. rewrite <- Qcmult_assoc.
  generalize dependent (of_nat (length (filter (λ z, of_int 200 < z) sampled_values))
                        * / of_nat (length sampled_values)).
  intros q Hq0 Hq1.
  assert (0 ≤ of_int 100) as Hh by (by vm_compute).
  generalize dependent (of_int 100). intros h Hh.
  split; qc_to_q; nra.
Qed.

(** ** Sweeps that stop at the first sample size they cannot serve *)

Lemma valid_size_true (rnp : list Qc) (s : Z) :
  valid_size rnp s = true ↔ (0 < s ≤ Z.of_nat (length rnp))%Z.
Proof. unfold valid_size. rewrite andb_true_iff, Z.ltb_lt, Z.leb_le. done. Qed.

Lemma valid_size_false (rnp : list Qc) (s : Z) :
  valid_size rnp s = false ↔ (s ≤ 0 ∨ Z.of_nat (length rnp) < s)%Z.
Proof. unfold valid_size. rewrite andb_false_iff, Z.ltb_ge, Z.leb_gt. done. Qed.

Lemma served_all (rnp : list Qc) (sizes : list Z) :
  served rnp sizes = sizes ↔ Forall (λ s, 0 < s ≤ Z.of_nat (length rnp))%Z sizes.
Proof.
  induction sizes as [|s sizes IH]; simpl; [done|].
  rewrite list.Forall_cons, <- IH, <- valid_size_true.
  destruct (valid_size rnp s).
  - split; [by intros [= ->]|by intros [_ ->]].
  - split; [done|by intros [? _]].
Qed.

(** A loop over sample sizes whose body succeeds on the valid sizes and
    raises on the others runs the leading valid sizes and stops. *)
Lemma for_each_served {St} (rnp : list Qc) (body : Z → Py St ())
    (Q : Z → Prop) (R : list Z → St → St → Prop) :
  (∀ st, R [] st st) →
  (∀ s l st1 st2 st3, R [s] st1 st2 → R l st2 st3 → R (s :: l) st1 st3) →
  (∀ s st, Q s → valid_size rnp s = true →
           ∃ st', body s st = (Ok (), st') ∧ R [s] st st') →
  (∀ s st, Q s → valid_size rnp s = false →
           ∃ e st', body s st = (Raise e, st') ∧ R [] st st') →
  ∀ sizes st, Forall Q sizes → ∃ r st',
    for_each sizes body st = (r, st')
    ∧ R (served rnp sizes) st st'
    ∧ (r = Ok () ↔ served rnp sizes = sizes).
Proof.
  intros Hrefl Htrans Hok Hraise sizes.
  induction sizes as [|s sizes IH]; intros st HQ.
  - exists (Ok ()), st. simpl. by eauto.
  - apply list.Forall_cons in HQ as [Hs HQ].
    cbn [for_each served]. destruct (valid_size rnp s) eqn:Hv.
    + destruct (Hok s st Hs Hv) as (st1 & Hrun & HR1).
      destruct (IH st1 HQ) as (r & st2 & Hrest & HR2 & Hiff).
      exists r, st2. rewrite (bind_ok _ _ _ _ _ Hrun).
      split; [done|]. split; [by eapply Htrans|].
      rewrite Hiff. split; [by intros ->|by intros [= ->]].
    + destruct (Hraise s st Hs Hv) as (e & st1 & Hrun & HR1).
      exists (Raise e), st1. rewrite (bind_raise _ _ _ _ _ Hrun).
      split; [done|]. split; [done|]. split; [done|done].
Qed.

Lemma fmap_const_replicate {A B} (f : A → B) (c : B) (l : list A) :
  Forall (λ x, f x = c) l → f <$> l = replicate (length l) c.
Proof. induction 1 as [|x l Hx _ IH]; csimpl; [done|]. by rewrite Hx, IH. Qed.

Section draws_more.
Context {G : Type} `{BitGenerator G}.
Context {Var ArrVar NumVar : Type}.
Local Abbreviation St := (Interp G (Namespace Var ArrVar NumVar)).

(** A sample size below zero or above the population size is refused,
    and the generator is not advanced. *)
Lemma np_random_choice_refuses (a : list Qc) (size : Z) (st : St) :
  (size < 0 ∨ Z.of_nat (length a) < size)%Z →
  ∃ msg, np_random_choice a size st = (Raise (ValueError msg), st).
Proof.
  intros Hsize. unfold np_random_choice, RandomState.choice.
  destruct (bool_decide (length a = 0%nat) && negb (size =? 0)%Z);
    [eexists; by destruct st|].
  destruct (Z.of_nat (length a) <? size)%Z eqn:Hbig; [eexists; by destruct st|].
  apply Z.ltb_ge in Hbig.
  replace (size <? 0)%Z with true by (symmetry; apply Z.ltb_lt; lia).
  eexists; by destruct st.
Qed.
End draws_more.

(** ** The test model's summary of the population *)


(** ** Whole sweeps of [bootstrap_radon_levels_KS_FINAL.py] *)

Section ksfinal_sweep.
Context {G : Type} `{BitGenerator G} `{KSDistributions} `{PyMath}.
Import KSFinal.
Local Abbreviation St := (Interp G (Namespace Var ArrVar NumVar)).

Lemma KSFinal_resampling_loop_spec (rnp : list Qc) (s : Z) (n : nat) (st : St) :
  (0 < s ≤ Z.of_nat (length rnp))%Z →
  ∃ st' trials ksd ksp fr,
    for_range n (iteration rnp s) st = (Ok (), st')
    ∧ draws st' = draws st ++ trials
    ∧ length trials = n
    ∧ Forall (λ t, length t = Z.to_nat s ∧ t ⊆+ rnp) trials
    ∧ KSFinal_statistics rnp trials ksd ksp fr
    ∧ lists (globals st') cur_sample_ksd = lists (globals st) cur_sample_ksd ++ ksd
    ∧ lists (globals st') cur_sample_ksp = lists (globals st) cur_sample_ksp ++ ksp
    ∧ lists (globals st') cur_fr_above_200
      = lists (globals st) cur_fr_above_200 ++ fr
    ∧ (∀ v, v ≠ cur_fr_above_200 → v ≠ cur_sample_ksd → v ≠ cur_sample_ksp →
            lists (globals st') v = lists (globals st) v)
    ∧ arrs (globals st') = arrs (globals st)
    ∧ nums (globals st') = nums (globals st).
Proof.
  intros Hs. unfold for_range.
  destruct (for_each_invariant
    (λ k st',
       ∃ trials ksd ksp fr,
         draws st' = draws st ++ trials
         ∧ length trials = k
         ∧ Forall (λ t, length t = Z.to_nat s ∧ t ⊆+ rnp) trials
         ∧ KSFinal_statistics rnp trials ksd ksp fr
         ∧ lists (globals st') cur_sample_ksd
           = lists (globals st) cur_sample_ksd ++ ksd
         ∧ lists (globals st') cur_sample_ksp
           = lists (globals st) cur_sample_ksp ++ ksp
         ∧ lists (globals st') cur_fr_above_200
           = lists (globals st) cur_fr_above_200 ++ fr
         ∧ (∀ v, v ≠ cur_fr_above_200 → v ≠ cur_sample_ksd → v ≠ cur_sample_ksp →
                 lists (globals st') v = lists (globals st) v)
         ∧ arrs (globals st') = arrs (globals st)
         ∧ nums (globals st') = nums (globals st))
    (seq 0 n) (iteration rnp s)) with (st := st)
    as (st' & Hrun & Hinv).
  - intros k i st0 _
      (trials & ksd & ksp & fr & Hdr & Hlen & Hall & (Hsd & Hsp & Hsf)
       & Hd & Hp & Hf & Hother & Harrs & Hnums).
    destruct (KSFinal_iteration_ok rnp s i st0 Hs)
      as (sampled & f & d & p & st1 & Hit & Hsub & Hslen & Hfr & Hks & Hdr1 & _
          & Hf1 & Hd1 & Hp1 & Hother1 & Harrs1 & Hnums1).
    exists st1. split; [exact Hit|].
    exists (trials ++ [sampled]), (ksd ++ [d]), (ksp ++ [p]), (fr ++ [f]).
    rewrite Hdr1, Hf1, Hd1, Hp1, Hdr, Hd, Hp, Hf, Harrs1, Hnums1, !length_app.
    rewrite <- !(assoc_L (++)). simpl.
    split; [done|]. split; [lia|].
    split; [apply Forall_app; split; [done|by repeat constructor]|].
    split.
    { split; [|split]; (apply Forall2_app; [done|]); repeat constructor; eauto. }
    repeat (split; [done|]).
    split; [|done]. intros v ???. rewrite Hother1 by done. by apply Hother.
  - exists [], [], [], []. rewrite !app_nil_r.
    repeat (split; [done || by repeat constructor|]). done.
  - rewrite length_seq in Hinv.
    destruct Hinv as (trials & ksd & ksp & fr & Hinv).
    by exists st', trials, ksd, ksp, fr.
Qed.

Lemma KSFinal_statistics_length (rnp : list Qc) trials ksd ksp fr :
  KSFinal_statistics rnp trials ksd ksp fr →
  length ksd = length trials ∧ length ksp = length trials
  ∧ length fr = length trials.
Proof.
  intros (Hd & Hp & Hf).
  apply Forall2_length in Hd, Hp, Hf. by rewrite <- Hd, <- Hp, <- Hf.
Qed.

(** A whole entry for a sample size the population can serve. *)
Lemma KSFinal_sweep_entry_spec (rnp : list Qc) (num_iterations : nat) (s : Z) (st : St) :
  (0 < num_iterations)%nat → (0 < s ≤ Z.of_nat (length rnp))%Z →
  ∃ st' trials ksd ksp fr,
    sweep_entry rnp num_iterations s st = (Ok (), st')
    ∧ draws st' = draws st ++ trials
    ∧ length trials = num_iterations
    ∧ Forall (λ t, length t = Z.to_nat s ∧ t ⊆+ rnp) trials
    ∧ KSFinal_statistics rnp trials ksd ksp fr
    ∧ appends_percentile st st' sample_ksd_lower_bounds ksd 5
    ∧ appends_percentile st st' sample_ksd_upper_bounds ksd 95
    ∧ appends_percentile st st' sample_ksd_medians ksd 50
    ∧ appends_percentile st st' sample_ksp_lower_bounds ksp 5
    ∧ appends_percentile st st' sample_ksp_upper_bounds ksp 95
    ∧ appends_percentile st st' sample_ksp_medians ksp 50
    ∧ appends_percentile st st' fr_above_200 fr 50
    ∧ appends_percentile st st' fr_above_200_lower_bounds fr 5
    ∧ appends_percentile st st' fr_above_200_upper_bounds fr 95
    ∧ arrs (globals st') sample_arrs_ksd = arrs (globals st) sample_arrs_ksd ++ [ksd]
    ∧ arrs (globals st') sample_arrs_ksp = arrs (globals st) sample_arrs_ksp ++ [ksp]
    ∧ lists (globals st') cur_sample_ksd = ksd
    ∧ lists (globals st') cur_sample_ksp = ksp
    ∧ lists (globals st') cur_fr_above_200 = fr.
Proof.
  intros Hn Hs. unfold sweep_entry. do 3 py_step.
  erewrite bind_call_ok by (apply KSFinal_critical_value_ok; lia).
  do 2 py_step.
  match goal with
  | |- context [(for_range _ _ ≫= _) ?s0] => set (st0 := s0)
  end.
  destruct (KSFinal_resampling_loop_spec rnp s num_iterations st0 Hs)
    as (st1 & trials & ksd & ksp & fr & Hloop & Hdr & Hlen & Hall & Hstat
        & Hd & Hp & Hf & Hother & Harrs & Hnums).
  rewrite (bind_ok _ _ _ _ _ Hloop).
  destruct (KSFinal_statistics_length _ _ _ _ _ Hstat) as (Hld & Hlp & Hlf).
  subst st0. revert Hdr Hd Hp Hf Hother Harrs. store_simpl. simpl.
  intros Hdr Hd Hp Hf Hother Harrs.
  destruct (KSFinal_summarize_spec st1) as (st' & Hsum & Hres).
  { rewrite Hd. intros ->. simpl in Hld. lia. }
  { rewrite Hp. intros ->. simpl in Hlp. lia. }
  { rewrite Hf. intros ->. simpl in Hlf. lia. }
  rewrite Hd, Hp, Hf in Hres.
  destruct Hres as (A1 & A2 & A3 & A4 & A5 & A6 & A7 & A8 & A9
                    & Had & Hap & Hcd & Hcp & Hcf & _ & _ & Hdraws).
  exists st', trials, ksd, ksp, fr.
  split; [exact Hsum|]. split; [by rewrite Hdraws|].
  split; [done|]. split; [done|]. split; [done|].
  unfold appends_percentile in *.
  rewrite Had, Hap, Harrs. store_simpl.
  repeat match goal with
  | Ha : ∃ x, _ ∧ lists (globals st') ?v = _ |- (∃ x, _ ∧ lists (globals st') ?v = _) ∧ _ =>
      split; [destruct Ha as (x & Hx & ->); exists x; split; [done|];
              rewrite Hother by done; by store_simpl|]
  end.
  by rewrite Hcd, Hcp, Hcf.
Qed.

(** The critical value of the sample size 0 divides by zero. *)
Lemma KSFinal_critical_value_zero :
  critical_value 0 = Raise (ZeroDivisionError "float division by zero").
Proof.
  unfold critical_value, truediv. rewrite decide_True; [done|].
  rewrite of_int_0. ring.
Qed.

(** An entry for a sample size outside [1 .. len(rnp)]. *)
Lemma KSFinal_sweep_entry_refused (rnp : list Qc) (num_iterations : nat) (s : Z) (st : St) :
  (0 < num_iterations)%nat → (s ≤ 0 ∨ Z.of_nat (length rnp) < s)%Z →
  ∃ e st',
    sweep_entry rnp num_iterations s st = (Raise e, st')
    ∧ (if decide (s = 0%Z)
       then e = ZeroDivisionError "float division by zero"
            ∧ nums (globals st') = nums (globals st)
       else ∃ msg, e = ValueError msg)
    ∧ bitgen st' = bitgen st ∧ draws st' = draws st
    ∧ arrs (globals st') = arrs (globals st)
    ∧ lists (globals st') cur_sample_ksd = []
    ∧ lists (globals st') cur_sample_ksp = []
    ∧ lists (globals st') cur_fr_above_200 = []
    ∧ (∀ v, v ≠ cur_sample_ksd → v ≠ cur_sample_ksp → v ≠ cur_fr_above_200 →
            lists (globals st') v = lists (globals st) v).
Proof.
  intros Hn Hs. unfold sweep_entry. do 3 py_step.
  destruct (decide (s = 0%Z)) as [->|Hs0].
  - erewrite bind_call_raise by apply KSFinal_critical_value_zero.
    eexists _, _. split; [reflexivity|]. store_simpl.
    repeat (split; [done|]). intros v ???. by store_simpl.
  - erewrite bind_call_ok by (by apply KSFinal_critical_value_ok).
    do 2 py_step.
    destruct num_iterations as [|n]; [lia|].
    match goal with
    | |- context [(for_range _ _ ≫= _) ?s0] => set (st0 := s0)
    end.
    destruct (np_random_choice_refuses rnp s st0 ltac:(lia)) as (msg & Hdraw).
    assert (iteration rnp s 0 st0 = (Raise (ValueError msg), st0)) as Hit.
    { unfold iteration. by rewrite (bind_raise _ _ _ _ _ Hdraw). }
    exists (ValueError msg), st0. split.
    { apply bind_raise. unfold for_range. cbn [seq].
      by apply for_each_cons_raise. }
    subst st0. store_simpl. split; [by exists msg|].
    repeat (split; [done|]). intros v ???. by store_simpl.
Qed.
End ksfinal_sweep.

Lemma appends_percentile_between {G V A N : Type}
    (st st' : Interp G (Namespace V A N)) (v : V) (series : list Qc) (p : Z)
    (lo hi : Qc) :
  series ≠ [] → (0 ≤ p ≤ 100)%Z → Forall (between lo hi) series →
  appends_percentile st st' v series p →
  ∃ new, lists (globals st') v = lists (globals st) v ++ new
         ∧ length new = 1%nat ∧ Forall (between lo hi) new.
Proof.
  intros Hne [H0 H100] Hall (x & Hx & Hl).
  destruct (percentile_between series (of_int p) lo hi Hne) as (y & Hy & Hb);
    [rewrite <- of_int_0; by apply (proj1 (of_int_le _ _))
    |by apply (proj1 (of_int_le _ _))|done|].
  rewrite Hx in Hy. apply Ok_inj in Hy as ->.
  exists [y]. split; [done|]. split; [done|]. by apply Forall_singleton.
Qed.

Section ksfinal_progress.
Context {G : Type} `{BitGenerator G} `{KSDistributions} `{PyMath}.
Import KSFinal.
Local Abbreviation St := (Interp G (Namespace Var ArrVar NumVar)).

Lemma KSFinal_statistics_between (rnp : list Qc) trials ksd ksp fr :
  KSFinal_statistics rnp trials ksd ksp fr →
  Forall (between 0 1) ksd ∧ Forall (between 0 1) ksp
  ∧ Forall (between 0 (of_int 100)) fr.
Proof.
  intros (Hd & Hp & Hf). split; [|split].
  - eapply Forall2_Forall_r; [exact Hd|]. apply Forall_true.
    intros t d [p Hks]. by apply kstest_between in Hks as [? ?].
  - eapply Forall2_Forall_r; [exact Hp|]. apply Forall_true.
    intros t p [d Hks]. by apply kstest_between in Hks as [? ?].
  - eapply Forall2_Forall_r; [exact Hf|]. apply Forall_true.
    intros t f Hfr. by apply percent_above_200_between in Hfr.
Qed.

Lemma KSFinal_progress_refl (rnp : list Qc) (n : nat) (st : St) :
  KSFinal_progress rnp n [] st st.
Proof.
  split; [|split].
  - exists []. by rewrite app_nil_r.
  - intros v _. exists []. by rewrite app_nil_r.
  - intros a. exists []. by rewrite app_nil_r.
Qed.

Lemma KSFinal_progress_cons (rnp : list Qc) (n : nat) (s : Z) (l : list Z)
    (st1 st2 st3 : St) :
  KSFinal_progress rnp n [s] st1 st2 → KSFinal_progress rnp n l st2 st3 →
  KSFinal_progress rnp n (s :: l) st1 st3.
Proof.
  intros ((t1 & Hd1 & Hl1 & Hs1) & Hv1 & Ha1) ((t2 & Hd2 & Hl2 & Hs2) & Hv2 & Ha2).
  split; [|split].
  - exists (t1 ++ t2). rewrite Hd2, Hd1, (assoc_L (++)). split; [done|].
    split; [|by apply Forall_app].
    rewrite fmap_app, Hl1, Hl2. csimpl. by rewrite app_nil_r.
  - intros v Hv. destruct (Hv1 v Hv) as (n1 & E1 & L1 & R1).
    destruct (Hv2 v Hv) as (n2 & E2 & L2 & R2).
    exists (n1 ++ n2). rewrite E2, E1, (assoc_L (++)), length_app, L1, L2.
    split; [done|]. split; [done|]. by apply Forall_app.
  - intros a. destruct (Ha1 a) as (n1 & E1 & L1 & R1).
    destruct (Ha2 a) as (n2 & E2 & L2 & R2).
    exists (n1 ++ n2). rewrite E2, E1, (assoc_L (++)), length_app, L1, L2.
    split; [done|]. split; [done|]. by apply Forall_app.
Qed.

Lemma KSFinal_progress_entry (rnp : list Qc) (n : nat) (s : Z) (st : St) :
  (0 < n)%nat → valid_size rnp s = true →
  ∃ st', sweep_entry rnp n s st = (Ok (), st')
         ∧ KSFinal_progress rnp n [s] st st'.
Proof.
  intros Hn Hs%valid_size_true.
  destruct (KSFinal_sweep_entry_spec rnp n s st Hn Hs)
    as (st' & trials & ksd & ksp & fr & Hrun & Hdr & Hlen & Hall & Hstat
        & A1 & A2 & A3 & A4 & A5 & A6 & A7 & A8 & A9 & Had & Hap & _).
  exists st'. split; [done|].
  destruct (KSFinal_statistics_length _ _ _ _ _ Hstat) as (Hld & Hlp & Hlf).
  destruct (KSFinal_statistics_between _ _ _ _ _ Hstat) as (Hbd & Hbp & Hbf).
  assert (ksd ≠ []) as Hnd by (intros ->; simpl in Hld; lia).
  assert (ksp ≠ []) as Hnp by (intros ->; simpl in Hlp; lia).
  assert (fr ≠ []) as Hnf by (intros ->; simpl in Hlf; lia).
  split; [|split].
  - exists trials. split; [done|]. split.
    + csimpl. rewrite app_nil_r, <- Hlen. apply fmap_const_replicate.
      eapply list.Forall_impl; [exact Hall|]. by intros t [? _].
    + eapply list.Forall_impl; [exact Hall|]. by intros t [_ ?].
  - intros v Hv. destruct v; try discriminate; simpl;
      match goal with
      | A : appends_percentile st st' ?v ?series ?p
        |- ∃ new, lists (globals st') ?v = _ ∧ _ =>
          apply (appends_percentile_between st st' v series p);
            [assumption|lia|assumption|exact A]
      end.
  - intros a. destruct a.
    + exists [ksd]. split; [done|]. split; [done|].
      apply Forall_singleton. split; [lia|done].
    + exists [ksp]. split; [done|]. split; [done|].
      apply Forall_singleton. split; [lia|done].
Qed.

Lemma KSFinal_progress_refused (rnp : list Qc) (n : nat) (s : Z) (st : St) :
  (0 < n)%nat → valid_size rnp s = false →
  ∃ e st', sweep_entry rnp n s st = (Raise e, st')
           ∧ KSFinal_progress rnp n [] st st'.
Proof.
  intros Hn Hs%valid_size_false.
  destruct (KSFinal_sweep_entry_refused rnp n s st Hn ltac:(lia))
    as (e & st' & Hrun & _ & _ & Hdr & Harrs & _ & _ & _ & Hother).
  exists e, st'. split; [done|]. split; [|split].
  - exists []. by rewrite app_nil_r.
  - intros v Hv. exists []. rewrite app_nil_r. split; [|done].
    apply Hother; by destruct v.
  - intros a. exists []. by rewrite app_nil_r, Harrs.
Qed.

Lemma KSFinal_sweep_progress (rnp : list Qc) (n : nat) (sizes : list Z) (st : St) :
  (0 < n)%nat →
  ∃ r st', sweep rnp n sizes st = (r, st')
           ∧ KSFinal_progress rnp n (served rnp sizes) st st'
           ∧ (r = Ok () ↔ served rnp sizes = sizes).
Proof.
  intros Hn. unfold sweep.
  apply (for_each_served rnp (sweep_entry rnp n) (λ _, True)
           (KSFinal_progress rnp n)).
  - apply KSFinal_progress_refl.
  - apply KSFinal_progress_cons.
  - intros. by apply KSFinal_progress_entry.
  - intros. by apply KSFinal_progress_refused.
  - by apply Forall_true.
Qed.
End ksfinal_progress.


Lemma Forall2_constant {A B} (P : A → B → Prop) (c : B) (l : list A) (k : list B) :
  Forall2 P l k → Forall (λ x, ∀ y, P x y → y = c) l →
  k = replicate (length l) c.
Proof.
  intros HP. induction HP as [|x y l k Hxy _ IH]; intros Hall; [done|].
  apply list.Forall_cons in Hall as [Hx Hl]. simpl.
  by rewrite (Hx y Hxy), <- IH.
Qed.

Lemma percentile_replicate (n : nat) (c : Qc) (p : Z) :
  (0 < n)%nat → (0 ≤ p ≤ 100)%Z →
  Numpy.percentile (replicate n c) (of_int p) = Ok c.
Proof.
  intros Hn [H0 H100]. apply percentile_constant.
  - destruct n; [lia|done].
  - rewrite <- of_int_0. by apply (proj1 (of_int_le _ _)).
  - by apply (proj1 (of_int_le _ _)).
  - apply Forall_replicate. done.
Qed.

Lemma appends_percentile_replicate {G V A N : Type}
    (st st' : Interp G (Namespace V A N)) (v : V) (n : nat) (c : Qc) (p : Z) :
  (0 < n)%nat → (0 ≤ p ≤ 100)%Z →
  appends_percentile st st' v (replicate n c) p →
  lists (globals st') v = lists (globals st) v ++ [c].
Proof.
  intros Hn Hp (x & Hx & ->). rewrite percentile_replicate in Hx by done.
  by apply Ok_inj in Hx as ->.
Qed.

Section ksfinal_theorems.
Context {G : Type} `{BitGenerator G} `{KSDistributions} `{PyMath}.
Import KSFinal.
Local Abbreviation St := (Interp G (Namespace Var ArrVar NumVar)).

(** Property X1.  With at least one iteration per sample size, the sweep
    of [bootstrap_radon_levels_KS_FINAL.py] from any state gets through
    the sample sizes that precede the first one outside [1 .. len(rnp)]
    and completes exactly when there is none.  Whatever the outcome, the
    trace of draws has grown by [num_iterations] subsamples of the
    population per size swept, of that size and in the order of the
    sizes; every bound list has grown by one value per size swept and
    every table of raw series by one row of [num_iterations] values per
    size swept; what was recorded before is still there, unchanged. *)
Theorem ksfinal_sweep_serves_leading_sizes
    (rnp : list Qc) (num_iterations : nat) (sample_sizes : list Z) (st : St) :
  (0 < num_iterations)%nat →
  ∃ r st' trials,
    sweep rnp num_iterations sample_sizes st = (r, st')
    ∧ (r = Ok () ↔ Forall (λ s, 0 < s ≤ Z.of_nat (length rnp))%Z sample_sizes)
    ∧ draws st' = draws st ++ trials
    ∧ length <$> trials
      = served rnp sample_sizes ≫= (λ s, replicate num_iterations (Z.to_nat s))
    ∧ Forall (λ t, t ⊆+ rnp) trials
    ∧ (∀ v, v ≠ cur_sample_ksd → v ≠ cur_sample_ksp → v ≠ cur_fr_above_200 →
            ∃ new, lists (globals st') v = lists (globals st) v ++ new
                   ∧ length new = length (served rnp sample_sizes))
    ∧ (∀ a, ∃ rows, arrs (globals st') a = arrs (globals st) a ++ rows
                    ∧ length rows = length (served rnp sample_sizes)
                    ∧ Forall (λ row, length row = num_iterations) rows).
Proof.
  intros Hn.
  destruct (KSFinal_sweep_progress rnp num_iterations sample_sizes st Hn)
    as (r & st' & Hrun & ((trials & Hdr & Hlen & Hsub) & Hv & Ha) & Hiff).
  exists r, st', trials. split; [done|]. split; [by rewrite Hiff, served_all|].
  repeat (split; [done|]). split.
  - intros v ???. destruct (Hv v) as (new & ? & ? & _); [by destruct v|].
    by exists new.
  - intros a. destruct (Ha a) as (rows & ? & ? & Hrows).
    exists rows. split; [done|]. split; [done|].
    eapply list.Forall_impl; [exact Hrows|]. by intros row [? _].
Qed.

(** Property X2.  Whatever the sample sizes and however a run of
    [bootstrap_radon_levels_KS_FINAL.py] ends, every recorded bound of
    the KS D-statistic and of the KS p-value lies between 0 and 1, every
    recorded bound of the exceedance percentage lies between 0 and 100,
    and every value of the stored raw series lies between 0 and 1. *)
Theorem ksfinal_recorded_values_in_range
    (rnp : list Qc) (num_iterations : nat) (sample_sizes : list Z) (g : G) :
  (0 < num_iterations)%nat →
  let st' := (run rnp num_iterations sample_sizes g).2 in
  (∀ v, v ∈ [sample_ksd_lower_bounds; sample_ksd_medians; sample_ksd_upper_bounds;
             sample_ksp_lower_bounds; sample_ksp_medians; sample_ksp_upper_bounds] →
        Forall (between 0 1) (lists (globals st') v))
  ∧ (∀ v, v ∈ [fr_above_200_lower_bounds; fr_above_200; fr_above_200_upper_bounds] →
          Forall (between 0 (of_int 100)) (lists (globals st') v))
  ∧ (∀ a, Forall (Forall (between 0 1)) (arrs (globals st') a)).
Proof.
  intros Hn. unfold run.
  destruct (KSFinal_sweep_progress rnp num_iterations sample_sizes
              {| bitgen := g; draws := []; globals := initial_globals |} Hn)
    as (r & st' & -> & (_ & Hv & Ha) & _).
  cbn [snd]. split; [|split].
  - intros v Hin. rewrite !elem_of_cons, elem_of_nil in Hin.
    destruct (Hv v) as (new & -> & _ & Hr).
    { by destruct Hin as [->|[->|[->|[->|[->|[->|[]]]]]]]. }
    by destruct Hin as [->|[->|[->|[->|[->|[->|[]]]]]]].
  - intros v Hin. rewrite !elem_of_cons, elem_of_nil in Hin.
    destruct (Hv v) as (new & -> & _ & Hr).
    { by destruct Hin as [->|[->|[->|[]]]]. }
    by destruct Hin as [->|[->|[->|[]]]].
  - intros a. destruct (Ha a) as (rows & -> & _ & Hrows). simpl.
    eapply list.Forall_impl; [exact Hrows|]. by intros row [_ ?].
Qed.

End ksfinal_theorems.

(** Property X1 on the population 50, 250, 300, two iterations and the
    sample sizes 2, 5 and 3. *)
Lemma ksfinal_sweep_serves_leading_sizes_witness :
  (0 < 2)%nat
  ∧ ∃ r st' trials,
      @KSFinal.sweep Z Demo.lcg Demo.ks Demo.math demo_rnp 2 [2; 5; 3]%Z
        demo_ksfinal_init = (r, st')
      ∧ (r = Ok () ↔ Forall (λ s, 0 < s ≤ Z.of_nat (length demo_rnp))%Z [2; 5; 3]%Z)
      ∧ draws st' = draws demo_ksfinal_init ++ trials
      ∧ length <$> trials
        = served demo_rnp [2; 5; 3]%Z ≫= (λ s, replicate 2 (Z.to_nat s))
      ∧ Forall (λ t, t ⊆+ demo_rnp) trials
      ∧ (∀ v, v ≠ KSFinal.cur_sample_ksd → v ≠ KSFinal.cur_sample_ksp →
              v ≠ KSFinal.cur_fr_above_200 →
              ∃ new, lists (globals st') v
                     = lists (globals demo_ksfinal_init) v ++ new
                     ∧ length new = length (served demo_rnp [2; 5; 3]%Z))
      ∧ (∀ a, ∃ rows, arrs (globals st') a
                      = arrs (globals demo_ksfinal_init) a ++ rows
                      ∧ length rows = length (served demo_rnp [2; 5; 3]%Z)
                      ∧ Forall (λ row, length row = 2%nat) rows).
Proof.
  split; [lia|].
  apply (@ksfinal_sweep_serves_leading_sizes Z Demo.lcg Demo.ks Demo.math
           demo_rnp 2 [2; 5; 3]%Z demo_ksfinal_init).
  lia.
Defined.

(** Property X2 on the same run. *)
Lemma ksfinal_recorded_values_in_range_witness :
  (0 < 2)%nat
  ∧ (let st' := (@KSFinal.run Z Demo.lcg Demo.ks Demo.math demo_rnp 2
                   [2; 5; 3]%Z 2024%Z).2 in
     (∀ v, v ∈ [KSFinal.sample_ksd_lower_bounds; KSFinal.sample_ksd_medians;
                KSFinal.sample_ksd_upper_bounds; KSFinal.sample_ksp_lower_bounds;
                KSFinal.sample_ksp_medians; KSFinal.sample_ksp_upper_bounds] →
           Forall (between 0 1) (lists (globals st') v))
     ∧ (∀ v, v ∈ [KSFinal.fr_above_200_lower_bounds; KSFinal.fr_above_200;
                  KSFinal.fr_above_200_upper_bounds] →
             Forall (between 0 (of_int 100)) (lists (globals st') v))
     ∧ (∀ a, Forall (Forall (between 0 1)) (arrs (globals st') a))).
Proof.
  split; [lia|].
  apply (@ksfinal_recorded_values_in_range Z Demo.lcg Demo.ks Demo.math
           demo_rnp 2 [2; 5; 3]%Z 2024%Z).
  lia.
Defined.


(** ** Whole sweeps of [bootstrap_radon_levels.py] *)

Lemma Forall_submseteq {A} (P : A → Prop) (l k : list A) :
  l ⊆+ k → Forall P k → Forall P l.
Proof.
  intros Hsub Hk. rewrite list.Forall_forall in Hk |- *.
  intros x Hx. apply Hk. by eapply elem_of_submseteq.
Qed.

Section gm_sweep.
Context {G : Type} `{BitGenerator G}.
Import Gm.
Local Abbreviation St := (Interp G (Namespace Var ArrVar NumVar)).

Lemma Gm_resampling_loop_spec (rnp : list Qc) (s : Z) (n : nat) (st : St) :
  (0 < s ≤ Z.of_nat (length rnp))%Z →
  ∃ st' trials means,
    for_range n (iteration rnp s) st = (Ok (), st')
    ∧ draws st' = draws st ++ trials
    ∧ length trials = n
    ∧ Forall (λ t, length t = Z.to_nat s ∧ t ⊆+ rnp) trials
    ∧ Forall2 (λ t m, Numpy.percentile t (of_int 50) = Ok m) trials means
    ∧ lists (globals st') cur_sample_gm_means
      = lists (globals st) cur_sample_gm_means ++ means
    ∧ (∀ v, v ≠ cur_sample_gm_means →
            lists (globals st') v = lists (globals st) v).
Proof.
  intros Hs. unfold for_range.
  destruct (for_each_invariant
    (λ k st',
       ∃ trials means,
         draws st' = draws st ++ trials
         ∧ length trials = k
         ∧ Forall (λ t, length t = Z.to_nat s ∧ t ⊆+ rnp) trials
         ∧ Forall2 (λ t m, Numpy.percentile t (of_int 50) = Ok m) trials means
         ∧ lists (globals st') cur_sample_gm_means
           = lists (globals st) cur_sample_gm_means ++ means
         ∧ (∀ v, v ≠ cur_sample_gm_means →
                 lists (globals st') v = lists (globals st) v))
    (seq 0 n) (iteration rnp s)) with (st := st)
    as (st' & Hrun & Hinv).
  - intros k i st0 _ (trials & means & Hdr & Hlen & Hall & Hmeans & Hcur & Hother).
    destruct (Gm_iteration_ok rnp s i st0 Hs)
      as (sampled & m & st1 & Hit & Hsub & Hslen & Hm & Hdr1 & Hcur1 & Hother1).
    exists st1. split; [exact Hit|].
    exists (trials ++ [sampled]), (means ++ [m]).
    rewrite Hdr1, Hcur1, Hdr, Hcur, !length_app, <- !(assoc_L (++)). simpl.
    split; [done|]. split; [lia|].
    split; [apply Forall_app; split; [done|by apply Forall_singleton]|].
    split; [apply Forall2_app; [done|]; by repeat constructor|].
    split; [done|]. intros v ?. rewrite Hother1 by done. by apply Hother.
  - exists [], []. rewrite !app_nil_r.
    repeat (split; [done || by constructor|]). done.
  - rewrite length_seq in Hinv. destruct Hinv as (trials & means & Hinv).
    by exists st', trials, means.
Qed.

(** A whole entry for a sample size the population can serve. *)
Lemma Gm_sweep_entry_spec (rnp : list Qc) (num_iterations : nat) (s : Z) (st : St) :
  (0 < num_iterations)%nat → (0 < s ≤ Z.of_nat (length rnp))%Z →
  ∃ st' trials means,
    sweep_entry rnp num_iterations s st = (Ok (), st')
    ∧ draws st' = draws st ++ trials
    ∧ length trials = num_iterations
    ∧ Forall (λ t, length t = Z.to_nat s ∧ t ⊆+ rnp) trials
    ∧ Forall2 (λ t m, Numpy.percentile t (of_int 50) = Ok m) trials means
    ∧ appends_percentile st st' sample_gm_lower_bounds means 5
    ∧ appends_percentile st st' sample_gm_upper_bounds means 95
    ∧ lists (globals st') cur_sample_gm_means = means.
Proof.
  intros Hn Hs. unfold sweep_entry. py_step.
  match goal with
  | |- context [(for_range _ _ ≫= _) ?s0] => set (st0 := s0)
  end.
  destruct (Gm_resampling_loop_spec rnp s num_iterations st0 Hs)
    as (st1 & trials & means & Hloop & Hdr & Hlen & Hall & Hmeans & Hcur & Hother).
  rewrite (bind_ok _ _ _ _ _ Hloop).
  pose proof Hmeans as Hlm. apply Forall2_length in Hlm.
  subst st0. revert Hdr Hcur Hother. store_simpl. simpl.
  intros Hdr Hcur Hother.
  destruct (Gm_summarize_spec st1) as (st' & Hsum & Hres).
  { rewrite Hcur. intros ->. simpl in Hlm. lia. }
  rewrite Hcur in Hres.
  destruct Hres as ((lo & Hlo & Hlol) & (hi & Hhi & Hhil) & Hc & _ & _ & _ & Hdraws).
  exists st', trials, means.
  split; [exact Hsum|]. split; [by rewrite Hdraws|].
  repeat (split; [done|]).
  split; [|split; [|done]].
  - exists lo. split; [done|]. rewrite Hlol, Hother by done. by store_simpl.
  - exists hi. split; [done|]. rewrite Hhil, Hother by done. by store_simpl.
Qed.

(** An entry for a negative sample size or one above the population
    size. *)
Lemma Gm_sweep_entry_refused (rnp : list Qc) (num_iterations : nat) (s : Z) (st : St) :
  (0 < num_iterations)%nat → (s < 0 ∨ Z.of_nat (length rnp) < s)%Z →
  ∃ msg, sweep_entry rnp num_iterations s st
         = (Raise (ValueError msg), set_list cur_sample_gm_means [] st).
Proof.
  intros Hn Hs. unfold sweep_entry. py_step.
  destruct num_iterations as [|n]; [lia|].
  destruct (np_random_choice_refuses rnp s (set_list cur_sample_gm_means [] st) Hs)
    as (msg & Hdraw).
  exists msg. apply bind_raise. unfold for_range. cbn [seq].
  apply for_each_cons_raise. unfold iteration.
  by rewrite (bind_raise _ _ _ _ _ Hdraw).
Qed.

Lemma Gm_progress_refl (rnp : list Qc) (lo hi : Qc) (n : nat) (st : St) :
  Gm_progress rnp lo hi n [] st st.
Proof.
  split.
  - exists []. by rewrite app_nil_r.
  - intros v _. exists []. by rewrite app_nil_r.
Qed.

Lemma Gm_progress_cons (rnp : list Qc) (lo hi : Qc) (n : nat) (s : Z) (l : list Z)
    (st1 st2 st3 : St) :
  Gm_progress rnp lo hi n [s] st1 st2 → Gm_progress rnp lo hi n l st2 st3 →
  Gm_progress rnp lo hi n (s :: l) st1 st3.
Proof.
  intros ((t1 & Hd1 & Hl1 & Hs1) & Hv1) ((t2 & Hd2 & Hl2 & Hs2) & Hv2).
  split.
  - exists (t1 ++ t2). rewrite Hd2, Hd1, (assoc_L (++)). split; [done|].
    split; [|by apply Forall_app].
    rewrite fmap_app, Hl1, Hl2. csimpl. by rewrite app_nil_r.
  - intros v Hv. destruct (Hv1 v Hv) as (n1 & E1 & L1 & R1).
    destruct (Hv2 v Hv) as (n2 & E2 & L2 & R2).
    exists (n1 ++ n2). rewrite E2, E1, (assoc_L (++)), length_app, L1, L2.
    split; [done|]. split; [done|]. by apply Forall_app.
Qed.

Lemma Gm_medians_between (rnp : list Qc) (lo hi : Qc) (s : Z) trials means :
  (0 < s)%Z → Forall (between lo hi) rnp →
  Forall (λ t, length t = Z.to_nat s ∧ t ⊆+ rnp) trials →
  Forall2 (λ t m, Numpy.percentile t (of_int 50) = Ok m) trials means →
  Forall (between lo hi) means.
Proof.
  intros Hs Hrnp Hall Hmeans.
  eapply Forall2_Forall_r; [exact Hmeans|].
  eapply list.Forall_impl; [exact Hall|]. intros t [Hlen Hsub] m Hm.
  destruct (percentile_between t (of_int 50) lo hi) as (y & Hy & Hb).
  - intros ->. simpl in Hlen. lia.
  - by vm_compute.
  - by vm_compute.
  - by eapply Forall_submseteq.
  - rewrite Hm in Hy. by apply Ok_inj in Hy as ->.
Qed.

Lemma Gm_progress_entry (rnp : list Qc) (lo hi : Qc) (n : nat) (s : Z) (st : St) :
  (0 < n)%nat → Forall (between lo hi) rnp → valid_size rnp s = true →
  ∃ st', sweep_entry rnp n s st = (Ok (), st')
         ∧ Gm_progress rnp lo hi n [s] st st'.
Proof.
  intros Hn Hrnp Hs%valid_size_true.
  destruct (Gm_sweep_entry_spec rnp n s st Hn Hs)
    as (st' & trials & means & Hrun & Hdr & Hlen & Hall & Hmeans & A1 & A2 & _).
  exists st'. split; [done|].
  pose proof (Gm_medians_between rnp lo hi s trials means ltac:(lia) Hrnp Hall Hmeans)
    as Hb.
  assert (means ≠ []) as Hne.
  { apply Forall2_length in Hmeans. intros ->. simpl in Hmeans. lia. }
  split.
  - exists trials. split; [done|]. split.
    + csimpl. rewrite app_nil_r, <- Hlen. apply fmap_const_replicate.
      eapply list.Forall_impl; [exact Hall|]. by intros t [? _].
    + eapply list.Forall_impl; [exact Hall|]. by intros t [_ ?].
  - intros v Hv. destruct v; [| |done].
    + by apply (appends_percentile_between st st' _ means 5); [|lia| |].
    + by apply (appends_percentile_between st st' _ means 95); [|lia| |].
Qed.

Lemma Gm_progress_refused (rnp : list Qc) (lo hi : Qc) (n : nat) (s : Z) (st : St) :
  (0 < n)%nat → s ≠ 0%Z → valid_size rnp s = false →
  ∃ e st', sweep_entry rnp n s st = (Raise e, st')
           ∧ Gm_progress rnp lo hi n [] st st'.
Proof.
  intros Hn Hs0 Hs%valid_size_false.
  destruct (Gm_sweep_entry_refused rnp n s st Hn ltac:(lia)) as (msg & Hrun).
  eexists _, _. split; [exact Hrun|]. split.
  - exists []. store_simpl. by rewrite app_nil_r.
  - intros v Hv. exists []. store_simpl. by rewrite app_nil_r.
Qed.

Lemma Gm_sweep_progress (rnp : list Qc) (lo hi : Qc) (n : nat) (sizes : list Z) (st : St) :
  (0 < n)%nat → Forall (between lo hi) rnp → Forall (λ s, s ≠ 0%Z) sizes →
  ∃ r st', sweep rnp n sizes st = (r, st')
           ∧ Gm_progress rnp lo hi n (served rnp sizes) st st'
           ∧ (r = Ok () ↔ served rnp sizes = sizes).
Proof.
  intros Hn Hrnp Hsizes. unfold sweep.
  apply (for_each_served rnp (sweep_entry rnp n) (λ s, s ≠ 0%Z)
           (Gm_progress rnp lo hi n)).
  - apply Gm_progress_refl.
  - apply Gm_progress_cons.
  - intros. by apply Gm_progress_entry.
  - intros. by apply Gm_progress_refused.
  - done.
Qed.
End gm_sweep.

Lemma between_weaken (lo hi lo' hi' x : Qc) :
  lo' ≤ lo → hi ≤ hi' → between lo hi x → between lo' hi' x.
Proof. intros Hlo Hhi [H1 H2]. split; by etrans. Qed.

Lemma Qcmin_le_l (x y : Qc) : Qcmin x y ≤ x.
Proof.
  unfold Qcmin. case_decide; [apply Qcle_refl|].
  by apply Qclt_le_weak, Qcnot_le_lt.
Qed.
Lemma Qcmin_le_r (x y : Qc) : Qcmin x y ≤ y.
Proof. unfold Qcmin. case_decide; [done|apply Qcle_refl]. Qed.
Lemma Qcmax_ge_l (x y : Qc) : x ≤ Qcmax x y.
Proof. unfold Qcmax. case_decide; [done|apply Qcle_refl]. Qed.

(** Every finite series lies between two bounds. *)
Lemma list_bounded (l : list Qc) : ∃ lo hi, Forall (between lo hi) l.
Proof.
  induction l as [|x l (lo & hi & IH)]; [by exists 0, 0|].
  exists (Qcmin x lo), (Qcmax x hi). constructor.
  - split; [apply Qcmin_le_l|apply Qcmax_ge_l].
  - eapply list.Forall_impl; [exact IH|]. intros y.
    apply between_weaken; [apply Qcmin_le_r|apply Qcmax_ge_r].
Qed.

Section gm_theorems.
Context {G : Type} `{BitGenerator G}.
Import Gm.
Local Abbreviation St := (Interp G (Namespace Var ArrVar NumVar)).

(** Property X4.  With at least one iteration per sample size and no
    sample size 0, the sweep of [bootstrap_radon_levels.py] from any
    state gets through the sample sizes that precede the first one
    outside [1 .. len(rnp)] and completes exactly when there is none;
    the trace of draws grows by [num_iterations] subsamples of the
    population per size swept, and each of the two bound lists by one
    value per size swept, after what it held before. *)
Theorem gm_sweep_serves_leading_sizes
    (rnp : list Qc) (num_iterations : nat) (sample_sizes : list Z) (st : St) :
  (0 < num_iterations)%nat → Forall (λ s, s ≠ 0%Z) sample_sizes →
  ∃ r st' trials,
    sweep rnp num_iterations sample_sizes st = (r, st')
    ∧ (r = Ok () ↔ Forall (λ s, 0 < s ≤ Z.of_nat (length rnp))%Z sample_sizes)
    ∧ draws st' = draws st ++ trials
    ∧ length <$> trials
      = served rnp sample_sizes ≫= (λ s, replicate num_iterations (Z.to_nat s))
    ∧ Forall (λ t, t ⊆+ rnp) trials
    ∧ (∀ v, v ≠ cur_sample_gm_means →
            ∃ new, lists (globals st') v = lists (globals st) v ++ new
                   ∧ length new = length (served rnp sample_sizes)).
Proof.
  intros Hn Hsizes. destruct (list_bounded rnp) as (lo & hi & Hrnp).
  destruct (Gm_sweep_progress rnp lo hi num_iterations sample_sizes st Hn Hrnp Hsizes)
    as (r & st' & Hrun & ((trials & Hdr & Hlen & Hsub) & Hv) & Hiff).
  exists r, st', trials. split; [done|]. split; [by rewrite Hiff, served_all|].
  repeat (split; [done|]).
  intros v Hne. destruct (Hv v Hne) as (new & ? & ? & _). by exists new.
Qed.


(** Property X6.  For a non-empty population and any positive number
    of iterations, the entry of [bootstrap_radon_levels.py] whose sample
    size is the population size records the [gm_value] of the test model
    (the median of the population) as lower and as upper bound: every
    subsample median of the entry equals it. *)
Theorem gm_full_population_entry
    (rnp : list Qc) (num_iterations : nat) (st : St) :
  rnp ≠ [] → (0 < num_iterations)%nat →
  ∃ st' m,
    sweep_entry rnp num_iterations (Z.of_nat (length rnp)) st = (Ok (), st')
    ∧ TestModel.gm_value rnp = Ok m
    ∧ lists (globals st') sample_gm_lower_bounds
      = lists (globals st) sample_gm_lower_bounds ++ [m]
    ∧ lists (globals st') sample_gm_upper_bounds
      = lists (globals st) sample_gm_upper_bounds ++ [m]
    ∧ lists (globals st') cur_sample_gm_means = replicate num_iterations m.
Proof.
  intros Hne Hn.
  assert (0 < length rnp)%nat as Hlen by (destruct rnp; simpl; [done|lia]).
  destruct (Gm_sweep_entry_spec rnp num_iterations (Z.of_nat (length rnp)) st
              Hn ltac:(lia))
    as (st' & trials & means & Hrun & Hdr & Hlt & Hall & Hmeans & A1 & A2 & Hcur).
  destruct (percentile_ok rnp 50 Hne ltac:(lia)) as [m Hm].
  assert (means = replicate num_iterations m) as ->.
  { rewrite <- Hlt. eapply Forall2_constant; [exact Hmeans|].
    eapply list.Forall_impl; [exact Hall|]. intros t [Htl Hts] y Hy.
    rewrite (percentile_Permutation t rnp), Hm in Hy.
    - by apply Ok_inj in Hy.
    - apply full_draw_Permutation; [done|lia]. }
  apply appends_percentile_replicate in A1, A2; try lia.
  by exists st', m.
Qed.
End gm_theorems.

(** Property X4 on the population 50, 250, 300, three iterations and the
    sample sizes 1, 5 and 2. *)
Lemma gm_sweep_serves_leading_sizes_witness :
  (0 < 3)%nat ∧ Forall (λ s, s ≠ 0%Z) [1; 5; 2]%Z
  ∧ ∃ r st' trials,
      @Gm.sweep Z Demo.lcg demo_rnp 3 [1; 5; 2]%Z demo_gm_init = (r, st')
      ∧ (r = Ok () ↔ Forall (λ s, 0 < s ≤ Z.of_nat (length demo_rnp))%Z [1; 5; 2]%Z)
      ∧ draws st' = draws demo_gm_init ++ trials
      ∧ length <$> trials
        = served demo_rnp [1; 5; 2]%Z ≫= (λ s, replicate 3 (Z.to_nat s))
      ∧ Forall (λ t, t ⊆+ demo_rnp) trials
      ∧ (∀ v, v ≠ Gm.cur_sample_gm_means →
              ∃ new, lists (globals st') v = lists (globals demo_gm_init) v ++ new
                     ∧ length new = length (served demo_rnp [1; 5; 2]%Z)).
Proof.
  assert (Forall (λ s, s ≠ 0%Z) [1; 5; 2]%Z) as Hsizes
    by (repeat (apply Forall_cons_2; [lia|]); apply Forall_nil_2).
  split; [lia|]. split; [exact Hsizes|].
  apply (@gm_sweep_serves_leading_sizes Z Demo.lcg demo_rnp 3 [1; 5; 2]%Z
           demo_gm_init); [lia|exact Hsizes].
Defined.


(** Property X6 on the population 50, 250, 300 and three iterations. *)
Lemma gm_full_population_entry_witness :
  demo_rnp ≠ [] ∧ (0 < 3)%nat
  ∧ ∃ st' m,
      @Gm.sweep_entry Z Demo.lcg demo_rnp 3 (Z.of_nat (length demo_rnp))
        demo_gm_init = (Ok (), st')
      ∧ TestModel.gm_value demo_rnp = Ok m
      ∧ lists (globals st') Gm.sample_gm_lower_bounds
        = lists (globals demo_gm_init) Gm.sample_gm_lower_bounds ++ [m]
      ∧ lists (globals st') Gm.sample_gm_upper_bounds
        = lists (globals demo_gm_init) Gm.sample_gm_upper_bounds ++ [m]
      ∧ lists (globals st') Gm.cur_sample_gm_means = replicate 3 m.
Proof.
  split; [discriminate|]. split; [lia|].
  apply (@gm_full_population_entry Z Demo.lcg demo_rnp 3 demo_gm_init);
    [discriminate|lia].
Defined.

(** ** Whole sweeps of [bootstrap_radon_levels_KS.py] *)

Section ks_sweep.
Context {G : Type} `{BitGenerator G} `{KSDistributions} `{PyMath}.
Import KS.
Local Abbreviation St := (Interp G (Namespace Var ArrVar NumVar)).

Lemma KS_iteration_spec (rnp : list Qc) (s : Z) (i : nat) (st : St) :
  (0 < s ≤ Z.of_nat (length rnp))%Z →
  ∃ sampled d p st',
    iteration rnp s i st = (Ok (), st')
    ∧ sampled ⊆+ rnp ∧ length sampled = Z.to_nat s
    ∧ Scipy.kstest sampled rnp = Ok (d, p)
    ∧ draws st' = draws st ++ [sampled]
    ∧ lists (globals st') cur_sample_ksd
      = lists (globals st) cur_sample_ksd ++ [d]
    ∧ lists (globals st') cur_sample_ksp
      = lists (globals st) cur_sample_ksp ++ [p]
    ∧ (∀ v, v ≠ cur_sample_ksd → v ≠ cur_sample_ksp →
            lists (globals st') v = lists (globals st) v)
    ∧ arrs (globals st') = arrs (globals st)
    ∧ nums (globals st') crit_value = nums (globals st) crit_value
    ∧ nums (globals st') count_above_crit
      = nums (globals st) count_above_crit
        + of_nat (length (filter (λ x, nums (globals st) crit_value < x) [p])).
Proof.
  intros Hs.
  destruct (np_random_choice_ok rnp s st ltac:(lia))
    as (sampled & Hdraw & Hlen & Hsub).
  assert (sampled ≠ []) as Hne by (intros ->; simpl in Hlen; lia).
  assert (rnp ≠ []) as Hpop by (intros ->; simpl in Hs; lia).
  destruct (ks_2samp_ok sampled rnp Hne Hpop) as (d & p & Hks).
  unfold iteration. rewrite (bind_ok _ _ _ _ _ Hdraw).
  erewrite bind_call_ok by exact Hks. py_step. cbn [fst snd].
  case_decide.
  - do 4 py_step. unfold append.
    eexists sampled, d, p, _.
    split; [reflexivity|]. store_simpl. simpl.
    repeat (split; [done|]).
    split; [intros v ??; by store_simpl|]. split; [done|]. split; [done|].
    rewrite filter_cons, filter_nil, decide_True by done. simpl.
    change (of_nat 1) with (of_int 1). by rewrite of_int_1.
  - do 2 py_step. unfold append.
    eexists sampled, d, p, _.
    split; [reflexivity|]. store_simpl. simpl.
    repeat (split; [done|]).
    split; [intros v ??; by store_simpl|]. split; [done|]. split; [done|].
    rewrite filter_cons, filter_nil, decide_False by done. simpl.
    change (of_nat 0) with (of_int 0). rewrite of_int_0. ring.
Qed.

Lemma KS_summarize_frame (st : St) :
  lists (globals st) cur_sample_ksd ≠ [] →
  lists (globals st) cur_sample_ksp ≠ [] →
  ∃ st', summarize st = (Ok (), st')
    ∧ nums (globals st') = nums (globals st)
    ∧ lists (globals st') cur_sample_ksd = lists (globals st) cur_sample_ksd
    ∧ lists (globals st') cur_sample_ksp = lists (globals st) cur_sample_ksp.
Proof.
  intros Hd Hp.
  destruct (percentile_ok _ 5 Hd ltac:(lia)) as [dl Hdl].
  destruct (percentile_ok _ 95 Hd ltac:(lia)) as [du Hdu].
  destruct (percentile_ok _ 50 Hd ltac:(lia)) as [dm Hdm].
  destruct (percentile_ok _ 5 Hp ltac:(lia)) as [pl Hpl].
  destruct (percentile_ok _ 95 Hp ltac:(lia)) as [pu Hpu].
  destruct (percentile_ok _ 50 Hp ltac:(lia)) as [pm Hpm].
  unfold summarize.
  do 21 py_step. unfold append_arr.
  eexists. split; [reflexivity|]. by store_simpl.
Qed.

Lemma KS_resampling_loop_spec (rnp : list Qc) (s : Z) (n : nat) (st : St) :
  (0 < s ≤ Z.of_nat (length rnp))%Z →
  ∃ st' trials ksd ksp,
    for_range n (iteration rnp s) st = (Ok (), st')
    ∧ draws st' = draws st ++ trials
    ∧ length trials = n
    ∧ Forall (λ t, length t = Z.to_nat s ∧ t ⊆+ rnp) trials
    ∧ KS_statistics rnp trials ksd ksp
    ∧ lists (globals st') cur_sample_ksd = lists (globals st) cur_sample_ksd ++ ksd
    ∧ lists (globals st') cur_sample_ksp = lists (globals st) cur_sample_ksp ++ ksp
    ∧ (∀ v, v ≠ cur_sample_ksd → v ≠ cur_sample_ksp →
            lists (globals st') v = lists (globals st) v)
    ∧ arrs (globals st') = arrs (globals st)
    ∧ nums (globals st') crit_value = nums (globals st) crit_value
    ∧ nums (globals st') count_above_crit
      = nums (globals st) count_above_crit
        + of_nat (length (filter (λ x, nums (globals st) crit_value < x) ksp)).
Proof.
  intros Hs. unfold for_range.
  destruct (for_each_invariant
    (λ k st',
       ∃ trials ksd ksp,
         draws st' = draws st ++ trials
         ∧ length trials = k
         ∧ Forall (λ t, length t = Z.to_nat s ∧ t ⊆+ rnp) trials
         ∧ KS_statistics rnp trials ksd ksp
         ∧ lists (globals st') cur_sample_ksd
           = lists (globals st) cur_sample_ksd ++ ksd
         ∧ lists (globals st') cur_sample_ksp
           = lists (globals st) cur_sample_ksp ++ ksp
         ∧ (∀ v, v ≠ cur_sample_ksd → v ≠ cur_sample_ksp →
                 lists (globals st') v = lists (globals st) v)
         ∧ arrs (globals st') = arrs (globals st)
         ∧ nums (globals st') crit_value = nums (globals st) crit_value
         ∧ nums (globals st') count_above_crit
           = nums (globals st) count_above_crit
             + of_nat (length (filter (λ x, nums (globals st) crit_value < x) ksp)))
    (seq 0 n) (iteration rnp s)) with (st := st)
    as (st' & Hrun & Hinv).
  - intros k i st0 _
      (trials & ksd & ksp & Hdr & Hlen & Hall & (Hsd & Hsp)
       & Hd & Hp & Hother & Harrs & Hcrit & Hcount).
    destruct (KS_iteration_spec rnp s i st0 Hs)
      as (sampled & d & p & st1 & Hit & Hsub & Hslen & Hks & Hdr1
          & Hd1 & Hp1 & Hother1 & Harrs1 & Hcrit1 & Hcount1).
    exists st1. split; [exact Hit|].
    exists (trials ++ [sampled]), (ksd ++ [d]), (ksp ++ [p]).
    rewrite Hdr1, Hd1, Hp1, Hdr, Hd, Hp, Harrs1, Hcrit1, Hcount1, Hcrit, Hcount.
    rewrite !length_app, <- !(assoc_L (++)), list.filter_app, length_app. simpl.
    split; [done|]. split; [lia|].
    split; [apply Forall_app; split; [done|by apply Forall_singleton]|].
    split.
    { split; (apply Forall2_app; [done|]); repeat constructor; eauto. }
    repeat (split; [done|]).
    split; [intros v ??; rewrite Hother1 by done; by apply Hother|].
    repeat (split; [done|]).
    unfold of_nat. rewrite Nat2Z.inj_add, Z2Qc_inj_add. ring.
  - exists [], [], []. rewrite !app_nil_r.
    repeat (split; [done || by constructor|]).
    rewrite filter_nil. simpl. change (of_nat 0) with (of_int 0).
    rewrite of_int_0. ring.
  - rewrite length_seq in Hinv.
    destruct Hinv as (trials & ksd & ksp & Hinv).
    by exists st', trials, ksd, ksp.
Qed.

Lemma KS_statistics_length (rnp : list Qc) trials ksd ksp :
  KS_statistics rnp trials ksd ksp →
  length ksd = length trials ∧ length ksp = length trials.
Proof.
  intros (Hd & Hp). apply Forall2_length in Hd, Hp. by rewrite <- Hd, <- Hp.
Qed.

Lemma KS_statistics_between (rnp : list Qc) trials ksd ksp :
  KS_statistics rnp trials ksd ksp →
  Forall (between 0 1) ksd ∧ Forall (between 0 1) ksp.
Proof.
  intros (Hd & Hp). split.
  - eapply Forall2_Forall_r; [exact Hd|]. apply Forall_true.
    intros t d [p Hks]. by apply kstest_between in Hks as [? ?].
  - eapply Forall2_Forall_r; [exact Hp|]. apply Forall_true.
    intros t p [d Hks]. by apply kstest_between in Hks as [? ?].
Qed.

(** A whole entry for a sample size the population can serve. *)
Lemma KS_sweep_entry_spec (rnp : list Qc) (num_iterations : nat) (s : Z) (st : St) :
  (0 < num_iterations)%nat → (0 < s ≤ Z.of_nat (length rnp))%Z →
  ∃ st' trials ksd ksp,
    sweep_entry rnp num_iterations s st = (Ok (), st')
    ∧ draws st' = draws st ++ trials
    ∧ length trials = num_iterations
    ∧ Forall (λ t, length t = Z.to_nat s ∧ t ⊆+ rnp) trials
    ∧ KS_statistics rnp trials ksd ksp
    ∧ appends_percentile st st' sample_ksd_lower_bounds ksd 5
    ∧ appends_percentile st st' sample_ksd_upper_bounds ksd 95
    ∧ appends_percentile st st' sample_ksd_medians ksd 50
    ∧ appends_percentile st st' sample_ksp_lower_bounds ksp 5
    ∧ appends_percentile st st' sample_ksp_upper_bounds ksp 95
    ∧ appends_percentile st st' sample_ksp_medians ksp 50
    ∧ arrs (globals st') sample_arrs_ksd = arrs (globals st) sample_arrs_ksd ++ [ksd]
    ∧ arrs (globals st') sample_arrs_ksp = arrs (globals st) sample_arrs_ksp ++ [ksp]
    ∧ lists (globals st') cur_sample_ksd = ksd
    ∧ lists (globals st') cur_sample_ksp = ksp
    ∧ critical_value s = Ok (nums (globals st') crit_value)
    ∧ nums (globals st') count_above_crit
      = of_nat (length (filter (λ x, nums (globals st') crit_value < x) ksp)).
Proof.
  intros Hn Hs. unfold sweep_entry. do 2 py_step.
  rewrite (KS_critical_value_ok s) by lia.
  erewrite bind_call_ok by reflexivity.
  do 2 py_step.
  match goal with
  | |- context [(for_range _ _ ≫= _) ?s0] => set (st0 := s0)
  end.
  destruct (KS_resampling_loop_spec rnp s num_iterations st0 Hs)
    as (st1 & trials & ksd & ksp & Hloop & Hdr & Hlen & Hall & Hstat
        & Hd & Hp & Hother & Harrs & Hcrit & Hcount).
  rewrite (bind_ok _ _ _ _ _ Hloop).
  destruct (KS_statistics_length _ _ _ _ Hstat) as (Hld & Hlp).
  subst st0. revert Hdr Hd Hp Hother Harrs Hcrit Hcount. store_simpl. simpl.
  intros Hdr Hd Hp Hother Harrs Hcrit Hcount.
  assert (lists (globals st1) cur_sample_ksd ≠ []) as Hnd.
  { rewrite Hd. intros ->. simpl in Hld. lia. }
  assert (lists (globals st1) cur_sample_ksp ≠ []) as Hnp.
  { rewrite Hp. intros ->. simpl in Hlp. lia. }
  destruct (KS_summarize_spec st1 Hnd Hnp) as (st' & Hsum & Hres).
  destruct (KS_summarize_frame st1 Hnd Hnp) as (st'' & Hsum' & Hnums & Hcd & Hcp).
  rewrite Hsum in Hsum'. injection Hsum' as <-.
  rewrite Hd, Hp in Hres.
  destruct Hres as (A1 & A2 & A3 & A4 & A5 & A6 & Had & Hap & _ & Hdraws).
  exists st', trials, ksd, ksp.
  split; [exact Hsum|]. split; [by rewrite Hdraws|].
  split; [done|]. split; [done|]. split; [done|].
  unfold appends_percentile in *.
  rewrite Had, Hap, Harrs, Hnums, Hcrit, Hcount. store_simpl.
  repeat match goal with
  | Ha : ∃ x, _ ∧ lists (globals st') ?v = _ |- (∃ x, _ ∧ lists (globals st') ?v = _) ∧ _ =>
      split; [destruct Ha as (x & Hx & ->); exists x; split; [done|];
              rewrite Hother by done; by store_simpl|]
  end.
  rewrite Hcd, Hcp, Hd, Hp.
  repeat (split; [done|]). ring.
Qed.

(** The critical value of the sample size 0 divides by zero. *)
Lemma KS_critical_value_zero :
  critical_value 0 = Raise (ZeroDivisionError "float division by zero").
Proof.
  unfold critical_value, truediv. rewrite decide_True; [done|].
  rewrite of_int_0. ring.
Qed.

(** An entry for a sample size outside [1 .. len(rnp)]. *)
Lemma KS_sweep_entry_refused (rnp : list Qc) (num_iterations : nat) (s : Z) (st : St) :
  (0 < num_iterations)%nat → (s ≤ 0 ∨ Z.of_nat (length rnp) < s)%Z →
  ∃ e st',
    sweep_entry rnp num_iterations s st = (Raise e, st')
    ∧ (if decide (s = 0%Z)
       then e = ZeroDivisionError "float division by zero"
            ∧ nums (globals st') = nums (globals st)
       else ∃ msg, e = ValueError msg)
    ∧ bitgen st' = bitgen st ∧ draws st' = draws st
    ∧ arrs (globals st') = arrs (globals st)
    ∧ lists (globals st') cur_sample_ksd = []
    ∧ lists (globals st') cur_sample_ksp = []
    ∧ (∀ v, v ≠ cur_sample_ksd → v ≠ cur_sample_ksp →
            lists (globals st') v = lists (globals st) v).
Proof.
  intros Hn Hs. unfold sweep_entry. do 2 py_step.
  destruct (decide (s = 0%Z)) as [->|Hs0].
  - erewrite bind_call_raise by apply KS_critical_value_zero.
    eexists _, _. split; [reflexivity|]. store_simpl.
    repeat (split; [done|]). intros v ??. by store_simpl.
  - erewrite bind_call_ok by (by apply KS_critical_value_ok).
    do 2 py_step.
    destruct num_iterations as [|n]; [lia|].
    match goal with
    | |- context [(for_range _ _ ≫= _) ?s0] => set (st0 := s0)
    end.
    destruct (np_random_choice_refuses rnp s st0 ltac:(lia)) as (msg & Hdraw).
    assert (iteration rnp s 0 st0 = (Raise (ValueError msg), st0)) as Hit.
    { unfold iteration. by rewrite (bind_raise _ _ _ _ _ Hdraw). }
    exists (ValueError msg), st0. split.
    { apply bind_raise. unfold for_range. cbn [seq].
      by apply for_each_cons_raise. }
    subst st0. store_simpl. split; [by exists msg|].
    repeat (split; [done|]). intros v ??. by store_simpl.
Qed.

Lemma KS_progress_refl (rnp : list Qc) (n : nat) (st : St) :
  KS_progress rnp n [] st st.
Proof.
  split; [|split].
  - exists []. by rewrite app_nil_r.
  - intros v _. exists []. by rewrite app_nil_r.
  - intros a. exists []. by rewrite app_nil_r.
Qed.

Lemma KS_progress_cons (rnp : list Qc) (n : nat) (s : Z) (l : list Z)
    (st1 st2 st3 : St) :
  KS_progress rnp n [s] st1 st2 → KS_progress rnp n l st2 st3 →
  KS_progress rnp n (s :: l) st1 st3.
Proof.
  intros ((t1 & Hd1 & Hl1 & Hs1) & Hv1 & Ha1) ((t2 & Hd2 & Hl2 & Hs2) & Hv2 & Ha2).
  split; [|split].
  - exists (t1 ++ t2). rewrite Hd2, Hd1, (assoc_L (++)). split; [done|].
    split; [|by apply Forall_app].
    rewrite fmap_app, Hl1, Hl2. csimpl. by rewrite app_nil_r.
  - intros v Hv. destruct (Hv1 v Hv) as (n1 & E1 & L1 & R1).
    destruct (Hv2 v Hv) as (n2 & E2 & L2 & R2).
    exists (n1 ++ n2). rewrite E2, E1, (assoc_L (++)), length_app, L1, L2.
    split; [done|]. split; [done|]. by apply Forall_app.
  - intros a. destruct (Ha1 a) as (n1 & E1 & L1 & R1).
    destruct (Ha2 a) as (n2 & E2 & L2 & R2).
    exists (n1 ++ n2). rewrite E2, E1, (assoc_L (++)), length_app, L1, L2.
    split; [done|]. split; [done|]. by apply Forall_app.
Qed.

Lemma KS_progress_entry (rnp : list Qc) (n : nat) (s : Z) (st : St) :
  (0 < n)%nat → valid_size rnp s = true →
  ∃ st', sweep_entry rnp n s st = (Ok (), st')
         ∧ KS_progress rnp n [s] st st'.
Proof.
  intros Hn Hs%valid_size_true.
  destruct (KS_sweep_entry_spec rnp n s st Hn Hs)
    as (st' & trials & ksd & ksp & Hrun & Hdr & Hlen & Hall & Hstat
        & A1 & A2 & A3 & A4 & A5 & A6 & Had & Hap & _).
  exists st'. split; [done|].
  destruct (KS_statistics_length _ _ _ _ Hstat) as (Hld & Hlp).
  destruct (KS_statistics_between _ _ _ _ Hstat) as (Hbd & Hbp).
  assert (ksd ≠ []) as Hnd by (intros ->; simpl in Hld; lia).
  assert (ksp ≠ []) as Hnp by (intros ->; simpl in Hlp; lia).
  split; [|split].
  - exists trials. split; [done|]. split.
    + csimpl. rewrite app_nil_r, <- Hlen. apply fmap_const_replicate.
      eapply list.Forall_impl; [exact Hall|]. by intros t [? _].
    + eapply list.Forall_impl; [exact Hall|]. by intros t [_ ?].
  - intros v Hv. destruct v; try discriminate; simpl;
      match goal with
      | A : appends_percentile st st' ?v ?series ?p
        |- ∃ new, lists (globals st') ?v = _ ∧ _ =>
          apply (appends_percentile_between st st' v series p);
            [assumption|lia|assumption|exact A]
      end.
  - intros a. destruct a.
    + exists [ksd]. split; [done|]. split; [done|].
      apply Forall_singleton. split; [lia|done].
    + exists [ksp]. split; [done|]. split; [done|].
      apply Forall_singleton. split; [lia|done].
Qed.

Lemma KS_progress_refused (rnp : list Qc) (n : nat) (s : Z) (st : St) :
  (0 < n)%nat → valid_size rnp s = false →
  ∃ e st', sweep_entry rnp n s st = (Raise e, st')
           ∧ KS_progress rnp n [] st st'.
Proof.
  intros Hn Hs%valid_size_false.
  destruct (KS_sweep_entry_refused rnp n s st Hn ltac:(lia))
    as (e & st' & Hrun & _ & _ & Hdr & Harrs & _ & _ & Hother).
  exists e, st'. split; [done|]. split; [|split].
  - exists []. by rewrite app_nil_r.
  - intros v Hv. exists []. rewrite app_nil_r. split; [|done].
    apply Hother; by destruct v.
  - intros a. exists []. by rewrite app_nil_r, Harrs.
Qed.

Lemma KS_sweep_progress (rnp : list Qc) (n : nat) (sizes : list Z) (st : St) :
  (0 < n)%nat →
  ∃ r st', sweep rnp n sizes st = (r, st')
           ∧ KS_progress rnp n (served rnp sizes) st st'
           ∧ (r = Ok () ↔ served rnp sizes = sizes).
Proof.
  intros Hn. unfold sweep.
  apply (for_each_served rnp (sweep_entry rnp n) (λ _, True)
           (KS_progress rnp n)).
  - apply KS_progress_refl.
  - apply KS_progress_cons.
  - intros. by apply KS_progress_entry.
  - intros. by apply KS_progress_refused.
  - by apply Forall_true.
Qed.
End ks_sweep.

Section ks_theorems.
Context {G : Type} `{BitGenerator G} `{KSDistributions} `{PyMath}.
Local Abbreviation St := (Interp G (Namespace KS.Var KS.ArrVar KS.NumVar)).
Local Abbreviation StF :=
  (Interp G (Namespace KSFinal.Var KSFinal.ArrVar KSFinal.NumVar)).

(** Property X7.  A run of [bootstrap_radon_levels_KS.py] with at least
    one iteration per sample size completes exactly when every sample
    size lies in [1 .. len(rnp)].  At its end, complete or not, the
    subsamples drawn are [num_iterations] of each size swept, each of
    the six bound lists holds one value between 0 and 1 per size swept,
    and each of the two tables holds one row per size swept, of
    [num_iterations] values between 0 and 1. *)
Theorem ks_run_records_served_sizes
    (rnp : list Qc) (num_iterations : nat) (sample_sizes : list Z) (g : G) :
  (0 < num_iterations)%nat →
  let r := KS.run rnp num_iterations sample_sizes g in
  let k := length (served rnp sample_sizes) in
  (r.1 = Ok () ↔ Forall (λ s, 0 < s ≤ Z.of_nat (length rnp))%Z sample_sizes)
  ∧ length <$> draws r.2
    = served rnp sample_sizes ≫= (λ s, replicate num_iterations (Z.to_nat s))
  ∧ (∀ v, v ≠ KS.cur_sample_ksd → v ≠ KS.cur_sample_ksp →
          length (lists (globals r.2) v) = k
          ∧ Forall (between 0 1) (lists (globals r.2) v))
  ∧ (∀ a, length (arrs (globals r.2) a) = k
          ∧ Forall (λ row, length row = num_iterations ∧ Forall (between 0 1) row)
              (arrs (globals r.2) a)).
Proof.
  intros Hn. unfold KS.run.
  destruct (KS_sweep_progress rnp num_iterations sample_sizes
              {| bitgen := g; draws := []; globals := KS.initial_globals |} Hn)
    as (r & st' & -> & ((trials & Hdr & Hlen & Hsub) & Hv & Ha) & Hiff).
  cbn [fst snd]. simpl in Hdr. rewrite Hdr.
  split; [by rewrite Hiff, served_all|]. split; [done|]. split.
  - intros v ??. destruct (Hv v) as (new & -> & ? & ?); [by destruct v|]. done.
  - intros a. destruct (Ha a) as (rows & -> & ? & ?). done.
Qed.

(** Property X8.  At the end of an entry of
    [bootstrap_radon_levels_KS.py], [crit_value] holds the critical
    value of the sample size and [count_above_crit] the number of
    p-values of the entry's raw series that are strictly above it: a
    number between 0 and [num_iterations].  (The value compared with
    the critical value is the p-value, not the D-statistic.) *)
Theorem ks_count_above_crit_counts_pvalues
    (rnp : list Qc) (num_iterations : nat) (s : Z) (st : St) :
  (0 < num_iterations)%nat → (0 < s ≤ Z.of_nat (length rnp))%Z →
  ∃ st' crit ksp,
    KS.sweep_entry rnp num_iterations s st = (Ok (), st')
    ∧ KS.critical_value s = Ok crit
    ∧ nums (globals st') KS.crit_value = crit
    ∧ arrs (globals st') KS.sample_arrs_ksp
      = arrs (globals st) KS.sample_arrs_ksp ++ [ksp]
    ∧ length ksp = num_iterations
    ∧ nums (globals st') KS.count_above_crit
      = of_nat (length (filter (λ p, crit < p) ksp))
    ∧ between 0 (of_nat num_iterations) (nums (globals st') KS.count_above_crit).
Proof.
  intros Hn Hs.
  destruct (KS_sweep_entry_spec rnp num_iterations s st Hn Hs)
    as (st' & trials & ksd & ksp & Hrun & _ & Hlen & _ & Hstat
        & _ & _ & _ & _ & _ & _ & _ & Hap & _ & _ & Hcrit & Hcount).
  destruct (KS_statistics_length _ _ _ _ Hstat) as (_ & Hlp).
  exists st', (nums (globals st') KS.crit_value), ksp.
  repeat (split; [done || lia|]).
  rewrite Hcount. split; [apply of_nat_nonneg|].
  apply of_nat_le. rewrite <- Hlen, <- Hlp. apply length_filter.
Qed.

(** Property X9.  In both KS scripts an entry for the sample size 0
    raises [ZeroDivisionError] where it computes the critical value,
    whatever the number of iterations: no subsample is drawn, the
    generator is not advanced, and no bound, no row and no scalar is
    changed. *)
Theorem ks_scripts_sample_size_zero
    (rnp : list Qc) (num_iterations : nat) (st : St) (stf : StF) :
  (∃ st',
     KS.sweep_entry rnp num_iterations 0 st
     = (Raise (ZeroDivisionError "float division by zero"), st')
     ∧ bitgen st' = bitgen st ∧ draws st' = draws st
     ∧ arrs (globals st') = arrs (globals st)
     ∧ nums (globals st') = nums (globals st)
     ∧ ∀ v, v ≠ KS.cur_sample_ksd → v ≠ KS.cur_sample_ksp →
            lists (globals st') v = lists (globals st) v)
  ∧ (∃ st',
       KSFinal.sweep_entry rnp num_iterations 0 stf
       = (Raise (ZeroDivisionError "float division by zero"), st')
       ∧ bitgen st' = bitgen stf ∧ draws st' = draws stf
       ∧ arrs (globals st') = arrs (globals stf)
       ∧ nums (globals st') = nums (globals stf)
       ∧ ∀ v, v ≠ KSFinal.cur_sample_ksd → v ≠ KSFinal.cur_sample_ksp →
              v ≠ KSFinal.cur_fr_above_200 →
              lists (globals st') v = lists (globals stf) v).
Proof.
  split.
  - unfold KS.sweep_entry. do 2 py_step.
    erewrite bind_call_raise by apply KS_critical_value_zero.
    eexists. split; [reflexivity|]. store_simpl.
    repeat (split; [done|]). intros v ??. by store_simpl.
  - unfold KSFinal.sweep_entry. do 3 py_step.
    erewrite bind_call_raise by apply KSFinal_critical_value_zero.
    eexists. split; [reflexivity|]. store_simpl.
    repeat (split; [done|]). intros v ???. by store_simpl.
Qed.

(** Property X11.  The test of a non-empty subsample against a
    non-empty population returns a D-statistic and a p-value that both
    lie between 0 and 1, whatever the numerical kernels return. *)
Theorem kstest_statistic_and_pvalue_in_unit_interval
    (sampled_values rnp : list Qc) :
  sampled_values ≠ [] → rnp ≠ [] →
  ∃ d p, Scipy.kstest sampled_values rnp = Ok (d, p)
         ∧ between 0 1 d ∧ between 0 1 p.
Proof.
  intros Hs Hr. destruct (ks_2samp_ok sampled_values rnp Hs Hr) as (d & p & Hks).
  exists d, p. split; [done|]. by apply ks_2samp_between in Hks.
Qed.
End ks_theorems.


(** Property X7 on the population 50, 250, 300, two iterations and the
    sample sizes 2, 5 and 3. *)
Lemma ks_run_records_served_sizes_witness :
  (0 < 2)%nat
  ∧ (let r := @KS.run Z Demo.lcg Demo.ks Demo.math demo_rnp 2 [2; 5; 3]%Z 2024%Z in
     let k := length (served demo_rnp [2; 5; 3]%Z) in
     (r.1 = Ok () ↔ Forall (λ s, 0 < s ≤ Z.of_nat (length demo_rnp))%Z [2; 5; 3]%Z)
     ∧ length <$> draws r.2
       = served demo_rnp [2; 5; 3]%Z ≫= (λ s, replicate 2 (Z.to_nat s))
     ∧ (∀ v, v ≠ KS.cur_sample_ksd → v ≠ KS.cur_sample_ksp →
             length (lists (globals r.2) v) = k
             ∧ Forall (between 0 1) (lists (globals r.2) v))
     ∧ (∀ a, length (arrs (globals r.2) a) = k
             ∧ Forall (λ row, length row = 2%nat ∧ Forall (between 0 1) row)
                 (arrs (globals r.2) a))).
Proof.
  split; [lia|].
  apply (@ks_run_records_served_sizes Z Demo.lcg Demo.ks Demo.math
           demo_rnp 2 [2; 5; 3]%Z 2024%Z).
  lia.
Defined.

(** Property X8 on the population 50, 250, 300, two iterations and the
    sample size 2. *)
Lemma ks_count_above_crit_counts_pvalues_witness :
  (0 < 2)%nat ∧ (0 < 2 ≤ Z.of_nat (length demo_rnp))%Z
  ∧ ∃ st' crit ksp,
      @KS.sweep_entry Z Demo.lcg Demo.ks Demo.math demo_rnp 2 2 demo_ks_state
      = (Ok (), st')
      ∧ @KS.critical_value Demo.math 2 = Ok crit
      ∧ nums (globals st') KS.crit_value = crit
      ∧ arrs (globals st') KS.sample_arrs_ksp
        = arrs (globals demo_ks_state) KS.sample_arrs_ksp ++ [ksp]
      ∧ length ksp = 2%nat
      ∧ nums (globals st') KS.count_above_crit
        = of_nat (length (filter (λ p, crit < p) ksp))
      ∧ between 0 (of_nat 2) (nums (globals st') KS.count_above_crit).
Proof.
  assert (0 < 2 ≤ Z.of_nat (length demo_rnp))%Z as Hs
    by (change (Z.of_nat (length demo_rnp)) with 3%Z; lia).
  split; [lia|]. split; [exact Hs|].
  apply (@ks_count_above_crit_counts_pvalues Z Demo.lcg Demo.ks Demo.math
           demo_rnp 2 2 demo_ks_state); [lia|exact Hs].
Defined.

(** Property X11 on the subsample 50, 300 of the population 50, 250,
    300. *)
Lemma kstest_statistic_and_pvalue_in_unit_interval_witness :
  [of_int 50; of_int 300] ≠ [] ∧ demo_rnp ≠ []
  ∧ ∃ d p, @Scipy.kstest Demo.ks [of_int 50; of_int 300] demo_rnp = Ok (d, p)
           ∧ between 0 1 d ∧ between 0 1 p.
Proof.
  split; [discriminate|]. split; [discriminate|].
  apply (@kstest_statistic_and_pvalue_in_unit_interval Demo.ks
           [of_int 50; of_int 300] demo_rnp); discriminate.
Defined.


(** ** What an entry depends on *)

Lemma Forall2_functional {A B} (P : A → B → Prop) (l : list A) (k1 k2 : list B) :
  (∀ x y1 y2, P x y1 → P x y2 → y1 = y2) →
  Forall2 P l k1 → Forall2 P l k2 → k1 = k2.
Proof.
  intros Hfun H1. revert k2.
  induction H1 as [|x y l k Hxy _ IH]; intros k2 H2; inv H2; [done|].
  f_equal; [by eapply Hfun|by apply IH].
Qed.

Section generator.
Context {G : Type} `{BitGenerator G} `{KSDistributions} `{PyMath}.
Import KSFinal.
Local Abbreviation St := (Interp G (Namespace Var ArrVar NumVar)).

Lemma KSFinal_iteration_draw (rnp : list Qc) (s : Z) (i : nat) (st st' : St) :
  iteration rnp s i st = (Ok (), st') →
  ∃ sampled,
    RandomState.choice rnp s (bitgen st) = (Ok sampled, bitgen st')
    ∧ draws st' = draws st ++ [sampled].
Proof.
  unfold iteration.
  destruct (np_random_choice rnp s st) as [[sampled|e] st0] eqn:Hdraw.
  - rewrite (bind_ok _ _ _ _ _ Hdraw).
    unfold np_random_choice in Hdraw.
    destruct (RandomState.choice rnp s (bitgen st)) as [[sampled'|e'] g'] eqn:Hc;
      [|discriminate].
    injection Hdraw as -> <-.
    destruct (percent_above_200 sampled) as [fr|e] eqn:Hfr.
    + erewrite bind_call_ok by reflexivity. py_step.
      destruct (Scipy.kstest sampled rnp) as [ks|e] eqn:Hks.
      * erewrite bind_call_ok by reflexivity. py_step. unfold append.
        intros [= <-]. exists sampled. store_simpl. simpl. done.
      * erewrite bind_call_raise by reflexivity. discriminate.
    + erewrite bind_call_raise by reflexivity. discriminate.
  - rewrite (bind_raise _ _ _ _ _ Hdraw). discriminate.
Qed.

Lemma KSFinal_resampling_loop_draws (rnp : list Qc) (s : Z) (n : nat) (st : St) :
  (0 < s ≤ Z.of_nat (length rnp))%Z →
  ∃ st', for_range n (iteration rnp s) st = (Ok (), st')
    ∧ draws st' = draws st ++ (resample rnp s n (bitgen st)).1
    ∧ bitgen st' = (resample rnp s n (bitgen st)).2
    ∧ bitgen st'
      = Nat.iter n (λ g, (RandomState.permutation (length rnp) g).2) (bitgen st).
Proof.
  intros Hs. unfold for_range.
  destruct (for_each_invariant
    (λ k st',
       draws st' = draws st ++ (resample rnp s k (bitgen st)).1
       ∧ bitgen st' = (resample rnp s k (bitgen st)).2
       ∧ bitgen st'
         = Nat.iter k (λ g, (RandomState.permutation (length rnp) g).2) (bitgen st))
    (seq 0 n) (iteration rnp s)) with (st := st)
    as (st' & Hrun & Hinv).
  - intros k i st0 _ (Hdr & Hg & Hit).
    destruct (KSFinal_iteration_ok rnp s i st0 Hs)
      as (sampled & f & d & p & st1 & Hrun & _ & _ & _ & _ & _ & Hg1 & _).
    exists st1. split; [exact Hrun|].
    destruct (KSFinal_iteration_draw rnp s i st0 st1 Hrun) as (t & Hc & Hdr1).
    cbn [resample Nat.iter].
    destruct (resample rnp s k (bitgen st)) as [trials g0]. simpl in *.
    rewrite <- Hg, Hc. simpl. rewrite Hdr1, Hdr, (assoc_L (++)).
    split; [done|]. split; [done|]. by rewrite Hg1, Hit.
  - simpl. by rewrite app_nil_r.
  - rewrite length_seq in Hinv. by exists st'.
Qed.
End generator.

Section generator_entry.
Context {G : Type} `{BitGenerator G} `{KSDistributions} `{PyMath}.
Import KSFinal.
Local Abbreviation St := (Interp G (Namespace Var ArrVar NumVar)).

Lemma KSFinal_sweep_entry_draws (rnp : list Qc) (num_iterations : nat) (s : Z) (st : St) :
  (0 < num_iterations)%nat → (0 < s ≤ Z.of_nat (length rnp))%Z →
  ∃ st', sweep_entry rnp num_iterations s st = (Ok (), st')
    ∧ draws st' = draws st ++ (resample rnp s num_iterations (bitgen st)).1
    ∧ bitgen st' = (resample rnp s num_iterations (bitgen st)).2
    ∧ bitgen st'
      = Nat.iter num_iterations
          (λ g, (RandomState.permutation (length rnp) g).2) (bitgen st).
Proof.
  intros Hn Hs.
  destruct (KSFinal_sweep_entry_spec rnp num_iterations s st Hn Hs)
    as (st' & _ & _ & _ & _ & Hrun & _).
  exists st'. split; [exact Hrun|]. revert Hrun.
  unfold sweep_entry. do 3 py_step.
  erewrite bind_call_ok by (apply KSFinal_critical_value_ok; lia).
  do 2 py_step.
  match goal with
  | |- context [(for_range _ _ ≫= _) ?s0] => set (st0 := s0)
  end.
  destruct (KSFinal_resampling_loop_draws rnp s num_iterations st0 Hs)
    as (st1 & Hloop & Hdr & Hg & Hit).
  rewrite (bind_ok _ _ _ _ _ Hloop).
  destruct (KSFinal_resampling_loop_ok rnp s num_iterations st0 Hs)
    as (st1' & Hloop' & _ & Hd & Hp & Hf & _).
  rewrite Hloop in Hloop'. injection Hloop' as <-.
  subst st0. revert Hdr Hg Hit Hd Hp Hf. store_simpl. simpl.
  intros Hdr Hg Hit Hd Hp Hf Hsum.
  destruct (KSFinal_summarize_spec st1) as (st'' & Hsum' & Hres).
  { intros Heq. rewrite Heq in Hd. simpl in Hd. lia. }
  { intros Heq. rewrite Heq in Hp. simpl in Hp. lia. }
  { intros Heq. rewrite Heq in Hf. simpl in Hf. lia. }
  rewrite Hsum in Hsum'. injection Hsum' as <-.
  destruct Hres as (_ & _ & _ & _ & _ & _ & _ & _ & _ & _ & _ & _ & _ & _ & _
                    & Hbg & Hdraws).
  by rewrite Hbg, Hdraws.
Qed.

Lemma KSFinal_statistics_functional (rnp : list Qc) trials ksd ksp fr ksd' ksp' fr' :
  KSFinal_statistics rnp trials ksd ksp fr →
  KSFinal_statistics rnp trials ksd' ksp' fr' →
  ksd = ksd' ∧ ksp = ksp' ∧ fr = fr'.
Proof.
  intros (Hd & Hp & Hf) (Hd' & Hp' & Hf'). split; [|split].
  - eapply Forall2_functional; [|exact Hd|exact Hd'].
    intros t y1 y2 [p1 E1] [p2 E2]. rewrite E1 in E2.
    by apply Ok_pair_inj in E2 as [? _].
  - eapply Forall2_functional; [|exact Hp|exact Hp'].
    intros t y1 y2 [p1 E1] [p2 E2]. rewrite E1 in E2.
    by apply Ok_pair_inj in E2 as [_ ?].
  - eapply Forall2_functional; [|exact Hf|exact Hf'].
    intros t y1 y2 E1 E2. cbv beta in E1, E2. rewrite E1 in E2.
    by apply Ok_inj in E2.
Qed.

Lemma appends_percentile_same {V A N : Type}
    (st1 st1' st2 st2' : Interp G (Namespace V A N)) (v : V)
    (series : list Qc) (p : Z) :
  appends_percentile st1 st1' v series p →
  appends_percentile st2 st2' v series p →
  ∃ x, lists (globals st1') v = lists (globals st1) v ++ [x]
       ∧ lists (globals st2') v = lists (globals st2) v ++ [x].
Proof.
  intros (x & Hx & ->) (y & Hy & ->). rewrite Hx in Hy.
  apply Ok_inj in Hy as <-. by exists x.
Qed.

(** Property X12.  Two entries of
    [bootstrap_radon_levels_KS_FINAL.py] for the same sample size that
    start with the same generator state, whatever their lists, tables
    and scalars hold, append the same value to each bound list and the
    same row to each table and end with the same generator state: the
    one reached by [num_iterations] shuffles of the whole population,
    whatever the sample size. *)
Theorem ksfinal_entry_depends_on_generator_only
    (rnp : list Qc) (num_iterations : nat) (s : Z) (st1 st2 : St) :
  (0 < num_iterations)%nat → (0 < s ≤ Z.of_nat (length rnp))%Z →
  bitgen st1 = bitgen st2 →
  ∃ st1' st2',
    sweep_entry rnp num_iterations s st1 = (Ok (), st1')
    ∧ sweep_entry rnp num_iterations s st2 = (Ok (), st2')
    ∧ bitgen st1' = bitgen st2'
    ∧ bitgen st1'
      = Nat.iter num_iterations
          (λ g, (RandomState.permutation (length rnp) g).2) (bitgen st1)
    ∧ (∀ v, v ≠ cur_sample_ksd → v ≠ cur_sample_ksp → v ≠ cur_fr_above_200 →
            ∃ x, lists (globals st1') v = lists (globals st1) v ++ [x]
                 ∧ lists (globals st2') v = lists (globals st2) v ++ [x])
    ∧ (∀ a, ∃ row, arrs (globals st1') a = arrs (globals st1) a ++ [row]
                   ∧ arrs (globals st2') a = arrs (globals st2) a ++ [row]).
Proof.
  intros Hn Hs Hg.
  destruct (KSFinal_sweep_entry_spec rnp num_iterations s st1 Hn Hs)
    as (st1' & trials & ksd & ksp & fr & Hrun1 & Hdr1 & _ & _ & Hstat1
        & A1 & A2 & A3 & A4 & A5 & A6 & A7 & A8 & A9 & Had1 & Hap1 & _).
  destruct (KSFinal_sweep_entry_spec rnp num_iterations s st2 Hn Hs)
    as (st2' & trials' & ksd' & ksp' & fr' & Hrun2 & Hdr2 & _ & _ & Hstat2
        & B1 & B2 & B3 & B4 & B5 & B6 & B7 & B8 & B9 & Had2 & Hap2 & _).
  destruct (KSFinal_sweep_entry_draws rnp num_iterations s st1 Hn Hs)
    as (? & Hrun1' & Hd1 & Hg1 & Hit1).
  rewrite Hrun1 in Hrun1'. injection Hrun1' as <-.
  destruct (KSFinal_sweep_entry_draws rnp num_iterations s st2 Hn Hs)
    as (? & Hrun2' & Hd2 & Hg2 & Hit2).
  rewrite Hrun2 in Hrun2'. injection Hrun2' as <-.
  rewrite Hdr1 in Hd1. apply app_inv_head in Hd1.
  rewrite Hdr2 in Hd2. apply app_inv_head in Hd2.
  rewrite <- Hg, <- Hd1 in Hd2. subst trials'.
  destruct (KSFinal_statistics_functional _ _ _ _ _ _ _ _ Hstat1 Hstat2)
    as (<- & <- & <-).
  exists st1', st2'. split; [done|]. split; [done|].
  split; [by rewrite Hg1, Hg2, Hg|]. split; [done|]. split.
  - intros v ???. destruct v; try done; by eapply appends_percentile_same.
  - intros a. destruct a; eauto.
Qed.
End generator_entry.

(** Property X12 on the population 50, 250, 300, two iterations and the
    sample size 2, from the initial state and from a state whose raw
    series hold 0, 1, 2, 3, 4. *)
Lemma ksfinal_entry_depends_on_generator_only_witness :
  (0 < 2)%nat ∧ (0 < 2 ≤ Z.of_nat (length demo_rnp))%Z
  ∧ bitgen demo_ksfinal_init
    = bitgen (demo_ksfinal_state demo_series demo_series demo_series)
  ∧ ∃ st1' st2',
      @KSFinal.sweep_entry Z Demo.lcg Demo.ks Demo.math demo_rnp 2 2
        demo_ksfinal_init = (Ok (), st1')
      ∧ @KSFinal.sweep_entry Z Demo.lcg Demo.ks Demo.math demo_rnp 2 2
          (demo_ksfinal_state demo_series demo_series demo_series) = (Ok (), st2')
      ∧ bitgen st1' = bitgen st2'
      ∧ bitgen st1'
        = Nat.iter 2
            (λ g, (@RandomState.permutation Z Demo.lcg (length demo_rnp) g).2)
            (bitgen demo_ksfinal_init)
      ∧ (∀ v, v ≠ KSFinal.cur_sample_ksd → v ≠ KSFinal.cur_sample_ksp →
              v ≠ KSFinal.cur_fr_above_200 →
              ∃ x, lists (globals st1') v
                   = lists (globals demo_ksfinal_init) v ++ [x]
                   ∧ lists (globals st2') v
                     = lists (globals (demo_ksfinal_state demo_series demo_series
                                         demo_series)) v ++ [x])
      ∧ (∀ a, ∃ row, arrs (globals st1') a
                     = arrs (globals demo_ksfinal_init) a ++ [row]
                     ∧ arrs (globals st2') a
                       = arrs (globals (demo_ksfinal_state demo_series demo_series
                                          demo_series)) a ++ [row]).
Proof.
  assert (0 < 2 ≤ Z.of_nat (length demo_rnp))%Z as Hs
    by (change (Z.of_nat (length demo_rnp)) with 3%Z; lia).
  split; [lia|]. split; [exact Hs|]. split; [reflexivity|].
  apply (@ksfinal_entry_depends_on_generator_only Z Demo.lcg Demo.ks Demo.math
           demo_rnp 2 2 demo_ksfinal_init
           (demo_ksfinal_state demo_series demo_series demo_series));
    [lia|exact Hs|reflexivity].
Defined.

(** ** Bounds and raw series, row by row *)

Section ksfinal_aligned.
Context {G : Type} `{BitGenerator G} `{KSDistributions} `{PyMath}.
Import KSFinal.
Local Abbreviation St := (Interp G (Namespace Var ArrVar NumVar)).

Lemma KSFinal_sweep_aligned (rnp : list Qc) (n : nat) (sizes : list Z) (st : St) :
  (0 < n)%nat →
  ∃ r st', sweep rnp n sizes st = (r, st') ∧ KSFinal_aligned st st'.
Proof.
  intros Hn. unfold sweep.
  destruct (for_each_served rnp (sweep_entry rnp n) (λ _, True)
              (λ _, KSFinal_aligned)) with (sizes := sizes) (st := st)
    as (r & st' & Hrun & Hal & _).
  - intros st0 v a p _. exists [], []. by rewrite !app_nil_r.
  - intros _ _ st1 st2 st3 H12 H23 v a p Hv.
    destruct (H12 v a p Hv) as (r1 & n1 & Ea1 & El1 & F1).
    destruct (H23 v a p Hv) as (r2 & n2 & Ea2 & El2 & F2).
    exists (r1 ++ r2), (n1 ++ n2).
    rewrite Ea2, Ea1, El2, El1, !(assoc_L (++)).
    split; [done|]. split; [done|]. by apply Forall2_app.
  - intros s st0 _ Hs%valid_size_true.
    destruct (KSFinal_sweep_entry_spec rnp n s st0 Hn Hs)
      as (st' & trials & ksd & ksp & fr & Hrun & _ & _ & _ & _
          & A1 & A2 & A3 & A4 & A5 & A6 & _ & _ & _ & Had & Hap & _).
    exists st'. split; [done|]. intros v a p Hv.
    destruct v; simpl in Hv; try discriminate; injection Hv as <- <-;
      match goal with
      | A : appends_percentile st0 st' ?v ?series _
        |- ∃ rows new, _ ∧ lists (globals st') ?v = _ ∧ _ =>
          destruct A as (x & Hx & Hl); exists [series], [x];
            split; [done|]; split; [done|]; by repeat constructor
      end.
  - intros s st0 _ Hs%valid_size_false.
    destruct (KSFinal_sweep_entry_refused rnp n s st0 Hn ltac:(lia))
      as (e & st' & Hrun & _ & _ & _ & Harrs & _ & _ & _ & Hother).
    exists e, st'. split; [done|]. intros v a p Hv.
    exists [], []. rewrite !app_nil_r, Harrs.
    split; [done|]. split; [|constructor].
    apply Hother; by destruct v.
  - by apply Forall_true.
  - by exists r, st'.
Qed.

(** Property X13.  At the end of a run of
    [bootstrap_radon_levels_KS_FINAL.py], complete or not, the bound
    lists and the tables of raw series correspond row by row: the
    [i]-th lower bound, median and upper bound of the D-statistic (of
    the p-value) are the 5th, 50th and 95th percentile of the [i]-th
    row of [sample_arrs_ksd] (of [sample_arrs_ksp]). *)
Theorem ksfinal_bounds_aligned_with_raw_series
    (rnp : list Qc) (num_iterations : nat) (sample_sizes : list Z) (g : G) :
  (0 < num_iterations)%nat →
  let st' := (run rnp num_iterations sample_sizes g).2 in
  let summarises (a : ArrVar) (v : Var) (p : Z) :=
    Forall2 (λ row x, Numpy.percentile row (of_int p) = Ok x)
      (arrs (globals st') a) (lists (globals st') v) in
  summarises sample_arrs_ksd sample_ksd_lower_bounds 5%Z
  ∧ summarises sample_arrs_ksd sample_ksd_medians 50%Z
  ∧ summarises sample_arrs_ksd sample_ksd_upper_bounds 95%Z
  ∧ summarises sample_arrs_ksp sample_ksp_lower_bounds 5%Z
  ∧ summarises sample_arrs_ksp sample_ksp_medians 50%Z
  ∧ summarises sample_arrs_ksp sample_ksp_upper_bounds 95%Z.
Proof.
  intros Hn. unfold run.
  destruct (KSFinal_sweep_aligned rnp num_iterations sample_sizes
              {| bitgen := g; draws := []; globals := initial_globals |} Hn)
    as (r & st' & -> & Hal).
  cbn [snd]. cbv zeta.
  repeat split;
    match goal with
    | |- Forall2 (λ row x, Numpy.percentile row (of_int ?p) = Ok x)
           (arrs _ ?a) (lists _ ?v) =>
        destruct (Hal v a p eq_refl) as (rows & new & -> & -> & Hf); exact Hf
    end.
Qed.
End ksfinal_aligned.

(** Property X13 on the population 50, 250, 300, two iterations and the
    sample sizes 2, 5 and 3. *)
Lemma ksfinal_bounds_aligned_with_raw_series_witness :
  (0 < 2)%nat
  ∧ (let st' := (@KSFinal.run Z Demo.lcg Demo.ks Demo.math demo_rnp 2
                   [2; 5; 3]%Z 2024%Z).2 in
     let summarises (a : KSFinal.ArrVar) (v : KSFinal.Var) (p : Z) :=
       Forall2 (λ row x, Numpy.percentile row (of_int p) = Ok x)
         (arrs (globals st') a) (lists (globals st') v) in
     summarises KSFinal.sample_arrs_ksd KSFinal.sample_ksd_lower_bounds 5%Z
     ∧ summarises KSFinal.sample_arrs_ksd KSFinal.sample_ksd_medians 50%Z
     ∧ summarises KSFinal.sample_arrs_ksd KSFinal.sample_ksd_upper_bounds 95%Z
     ∧ summarises KSFinal.sample_arrs_ksp KSFinal.sample_ksp_lower_bounds 5%Z
     ∧ summarises KSFinal.sample_arrs_ksp KSFinal.sample_ksp_medians 50%Z
     ∧ summarises KSFinal.sample_arrs_ksp KSFinal.sample_ksp_upper_bounds 95%Z).
Proof.
  split; [lia|].
  apply (@ksfinal_bounds_aligned_with_raw_series Z Demo.lcg Demo.ks Demo.math
           demo_rnp 2 [2; 5; 3]%Z 2024%Z).
  lia.
Defined.

(** ** The histogram loop *)

Lemma histogram_loop_ok (sample_sizes : list Z) (ksd ksp : list (list Qc))
    (P : list Qc → Prop) (plot_number : Z) (indices : list nat) :
  length ksd = length sample_sizes → length ksp = length sample_sizes →
  Forall P ksd → Forall P ksp →
  Forall (λ i, i < length sample_sizes)%nat indices →
  ∃ figures,
    histogram_loop sample_sizes ksd ksp plot_number indices = Ok figures
    ∧ hist_figure <$> figures
      = (λ k, plot_number + Z.of_nat k)%Z <$> seq 0 (2 * length indices)
    ∧ Forall2 (λ i s, sample_sizes !! i = Some s) (indices ≫= λ i, [i; i])
        (hist_sample_size <$> figures)
    ∧ Forall (λ h, P (hist_data h)) figures.
Proof.
  intros Hd Hp HPd HPp Hall. revert plot_number.
  induction Hall as [|i indices Hi _ IH]; intros plot_number.
  - exists []. by repeat split; constructor.
  - cbn [histogram_loop]. unfold getitem.
    destruct (lookup_lt_is_Some_2 ksd i ltac:(lia)) as [d Hdi].
    destruct (lookup_lt_is_Some_2 ksp i ltac:(lia)) as [p Hpi].
    destruct (lookup_lt_is_Some_2 sample_sizes i Hi) as [s Hsi].
    rewrite Hdi, Hsi, Hpi.
    destruct (IH (plot_number + 1 + 1)%Z) as (rest & -> & Hfig & Hss & HP).
    eexists. split; [reflexivity|]. split; [|split].
    + cbn [fmap list_fmap hist_figure length]. rewrite Hfig.
      replace (2 * S (length indices))%nat with (S (S (2 * length indices))) by lia.
      cbn [seq]. rewrite <- !fmap_S_seq, <- !list_fmap_compose. csimpl.
      replace (plot_number + Z.of_nat 0)%Z with plot_number by lia.
      replace (plot_number + Z.of_nat 1)%Z with (plot_number + 1)%Z by lia.
      do 2 f_equal. rewrite <- list_fmap_compose.
      apply list_fmap_ext. intros ? k _. simpl. lia.
    + csimpl. constructor; [done|]. constructor; [done|]. done.
    + apply list.Forall_cons. split; [by eapply Forall_lookup_1 in HPd|].
      apply list.Forall_cons. split; [by eapply Forall_lookup_1 in HPp|done].
Qed.

Lemma lookup_pairs_all {A} (l : list A) (k : list A) :
  Forall2 (λ i x, l !! i = Some x) (seq 0 (length l) ≫= λ i, [i; i]) k →
  k = l ≫= λ x, [x; x].
Proof.
  assert (∀ m j k, (j + m = length l)%nat →
            Forall2 (λ i x, l !! i = Some x) (seq j m ≫= λ i, [i; i]) k →
            k = drop j l ≫= λ x, [x; x]) as Hgen.
  { induction m as [|m IH]; intros j k' Hjm Hk.
    - csimpl in Hk. inv Hk. by rewrite drop_ge by lia.
    - csimpl in Hk. inv Hk.
      match goal with Hf : Forall2 _ (j :: _) _ |- _ => inv Hf end.
      destruct (drop j l) as [|x rest] eqn:Hdrop.
      { apply (f_equal length) in Hdrop. rewrite length_drop in Hdrop.
        simpl in Hdrop. lia. }
      assert (l !! j = Some x) as Hx.
      { by rewrite <- (Nat.add_0_r j), <- lookup_drop, Hdrop. }
      assert (drop (S j) l = rest) as Hrest.
      { rewrite (drop_S l x j Hx) in Hdrop. by injection Hdrop. }
      csimpl. simplify_eq. do 2 f_equal. apply IH; [lia|done]. }
  intros Hk. rewrite (Hgen (length l) 0%nat k); [done|lia|done].
Qed.

Section histograms.
Context {G : Type} `{BitGenerator G} `{KSDistributions} `{PyMath}.

(** Property X14.  After a sweep over sample sizes that all lie in
    [1 .. len(rnp)], the histogram loop of either KS script raises no
    [IndexError]: it draws two histograms per sample size, on figures
    numbered consecutively from 5 (from 4 in
    [bootstrap_radon_levels_KS.py]), labelled with the sample sizes in
    their order, each over [num_iterations] values between 0 and 1. *)
Theorem histogram_loop_after_complete_sweep
    (rnp : list Qc) (num_iterations : nat) (sample_sizes : list Z) (g : G) :
  (0 < num_iterations)%nat →
  Forall (λ s, 0 < s ≤ Z.of_nat (length rnp))%Z sample_sizes →
  let shown (first : Z) (figures : list Histogram) :=
    hist_figure <$> figures
    = (λ k, first + Z.of_nat k)%Z <$> seq 0 (2 * length sample_sizes)
    ∧ hist_sample_size <$> figures = sample_sizes ≫= (λ s, [s; s])
    ∧ Forall (λ h, length (hist_data h) = num_iterations
                   ∧ Forall (between 0 1) (hist_data h)) figures in
  (∃ st' figures,
     KSFinal.run rnp num_iterations sample_sizes g = (Ok (), st')
     ∧ KSFinal.histograms sample_sizes st' = Ok figures
     ∧ shown 5%Z figures)
  ∧ (∃ st' figures,
       KS.run rnp num_iterations sample_sizes g = (Ok (), st')
       ∧ KS.histograms sample_sizes st' = Ok figures
       ∧ shown 4%Z figures).
Proof.
  intros Hn Hsizes. cbv zeta. apply served_all in Hsizes. split.
  - unfold KSFinal.run.
    destruct (KSFinal_sweep_progress rnp num_iterations sample_sizes
                {| bitgen := g; draws := []; globals := KSFinal.initial_globals |} Hn)
      as (r & st' & Hrun & (_ & _ & Ha) & Hiff).
    apply Hiff in Hsizes as Hr. subst r. rewrite Hsizes in Ha.
    destruct (Ha KSFinal.sample_arrs_ksd) as (rd & Hrd & Hld & HPd).
    destruct (Ha KSFinal.sample_arrs_ksp) as (rp & Hrp & Hlp & HPp).
    simpl in Hrd, Hrp.
    destruct (histogram_loop_ok sample_sizes rd rp _ 5
                (seq 0 (length sample_sizes)) Hld Hlp HPd HPp)
      as (figures & Hfig & Hnum & Hss & HP).
    { apply Forall_seq. lia. }
    exists st', figures. split; [done|].
    unfold KSFinal.histograms. rewrite Hrd, Hrp.
    split; [done|]. rewrite length_seq in Hnum.
    split; [done|]. split; [by apply lookup_pairs_all|done].
  - unfold KS.run.
    destruct (KS_sweep_progress rnp num_iterations sample_sizes
                {| bitgen := g; draws := []; globals := KS.initial_globals |} Hn)
      as (r & st' & Hrun & (_ & _ & Ha) & Hiff).
    apply Hiff in Hsizes as Hr. subst r. rewrite Hsizes in Ha.
    destruct (Ha KS.sample_arrs_ksd) as (rd & Hrd & Hld & HPd).
    destruct (Ha KS.sample_arrs_ksp) as (rp & Hrp & Hlp & HPp).
    simpl in Hrd, Hrp.
    destruct (histogram_loop_ok sample_sizes rd rp _ 4
                (seq 0 (length sample_sizes)) Hld Hlp HPd HPp)
      as (figures & Hfig & Hnum & Hss & HP).
    { apply Forall_seq. lia. }
    exists st', figures. split; [done|].
    unfold KS.histograms. rewrite Hrd, Hrp.
    split; [done|]. rewrite length_seq in Hnum.
    split; [done|]. split; [by apply lookup_pairs_all|done].
Qed.
End histograms.

(** Property X14 on the population 50, 250, 300, two iterations and the
    sample sizes 2 and 3. *)
Lemma histogram_loop_after_complete_sweep_witness :
  (0 < 2)%nat
  ∧ Forall (λ s, 0 < s ≤ Z.of_nat (length demo_rnp))%Z [2; 3]%Z
  ∧ (let shown (first : Z) (figures : list Histogram) :=
       hist_figure <$> figures
       = (λ k, first + Z.of_nat k)%Z <$> seq 0 (2 * length [2; 3]%Z)
       ∧ hist_sample_size <$> figures = [2; 3]%Z ≫= (λ s, [s; s])
       ∧ Forall (λ h, length (hist_data h) = 2%nat
                      ∧ Forall (between 0 1) (hist_data h)) figures in
     (∃ st' figures,
        @KSFinal.run Z Demo.lcg Demo.ks Demo.math demo_rnp 2 [2; 3]%Z 2024%Z
        = (Ok (), st')
        ∧ KSFinal.histograms [2; 3]%Z st' = Ok figures
        ∧ shown 5%Z figures)
     ∧ (∃ st' figures,
          @KS.run Z Demo.lcg Demo.ks Demo.math demo_rnp 2 [2; 3]%Z 2024%Z
          = (Ok (), st')
          ∧ KS.histograms [2; 3]%Z st' = Ok figures
          ∧ shown 4%Z figures)).
Proof.
  assert (Forall (λ s, 0 < s ≤ Z.of_nat (length demo_rnp))%Z [2; 3]%Z) as Hsizes.
  { change (Z.of_nat (length demo_rnp)) with 3%Z.
    repeat (apply Forall_cons_2; [lia|]). apply Forall_nil_2. }
  split; [lia|]. split; [exact Hsizes|].
  apply (@histogram_loop_after_complete_sweep Z Demo.lcg Demo.ks Demo.math
           demo_rnp 2 [2; 3]%Z 2024%Z); [lia|exact Hsizes].
Defined.

(** ** The shipped sample sizes *)

Section shipped.
Context {G : Type} `{BitGenerator G} `{KSDistributions} `{PyMath}.

Lemma shipped_sizes_served (rnp : list Qc) :
  Forall (λ s, 0 < s ≤ Z.of_nat (length rnp))%Z
    [5; 10; 25; 50; 100; 250; 500; 750; 1000; 2000; 10000; 100000]%Z
  ↔ (100000 ≤ Z.of_nat (length rnp))%Z.
Proof.
  split.
  - intros Hall. repeat (apply list.Forall_cons in Hall as [? Hall]). lia.
  - intros Hn. repeat (apply Forall_cons_2; [lia|]). apply Forall_nil_2.
Qed.

(** Property X15.  With the iteration counts and the twelve sample
    sizes they ship, the three scripts complete their sweep exactly when
    the population holds at least 100000 values; on a smaller population
    the sweep stops with an error at the first sample size above the
    population size. *)
Theorem shipped_sample_sizes_need_100000_values (rnp : list Qc) (g : G) :
  ((Gm.main rnp g).1 = Ok () ↔ (100000 ≤ Z.of_nat (length rnp))%Z)
  ∧ ((KS.main rnp g).1 = Ok () ↔ (100000 ≤ Z.of_nat (length rnp))%Z)
  ∧ ((KSFinal.main rnp g).1 = Ok () ↔ (100000 ≤ Z.of_nat (length rnp))%Z).
Proof.
  split; [|split].
  - unfold Gm.main, Gm.run.
    destruct (list_bounded rnp) as (lo & hi & Hrnp).
    edestruct (Gm_sweep_progress rnp lo hi (Z.to_nat 1000))
      as (r & st' & -> & _ & Hiff); [lia|exact Hrnp| |].
    { repeat (apply Forall_cons_2; [lia|]). apply Forall_nil_2. }
    cbn [fst]. by rewrite Hiff, served_all, shipped_sizes_served.
  - unfold KS.main, KS.run.
    edestruct (KS_sweep_progress rnp (Z.to_nat 1000))
      as (r & st' & -> & _ & Hiff); [lia|].
    cbn [fst]. by rewrite Hiff, served_all, shipped_sizes_served.
  - unfold KSFinal.main, KSFinal.run.
    edestruct (KSFinal_sweep_progress rnp (Z.to_nat 10000))
      as (r & st' & -> & _ & Hiff); [lia|].
    cbn [fst]. by rewrite Hiff, served_all, shipped_sizes_served.
Qed.
End shipped.
